(** * Dispatch and response normalisation of the Puter multi-model chat console

    A shallow embedding of [js/puterChatManager.js] (class [PuterChatManager],
    the grid mode), of [js/puterSingleChatManager.js] (class
    [PuterSingleChatManager], the focused chat) and of the methods of
    [js/puterUIManager.js] that the two call.

    - [JS]: the payloads the gateway can deliver, as JavaScript data values,
      with the few language operations the code applies to them (property
      reads, optional chaining, truthiness, [typeof], conversion to text).
    - [Async]: [async] functions as resumptions over a world; every [await]
      is a suspension point at which other tasks may run.
    - [UI], [Chat], [SingleChat]: the three classes, method by method. *)

From stdpp Require Import gmap strings list pretty.
From Stdlib Require Import ZArith Lia.

Set Warnings "-register-all".

Open Scope string_scope.

(* ===================================================================== *)
(** ** JavaScript data values *)
(* ===================================================================== *)

Module JS.

(** A payload is JSON-like data or [undefined].  Numbers are the integers
    (a number that is not a safe integer is outside the model).  An object is
    its own properties in insertion order; keys are distinct, and a read
    takes the first binding.  No property of a payload holds a function, so
    the only callable [toString] is the inherited one. *)
Inductive value : Type :=
| VUndefined
| VNull
| VBool (b : bool)
| VNum (n : Z)
| VStr (s : string)
| VArr (items : list value)
| VObj (fields : list (string * value)).

(** What a [throw] or a rejected promise carries: an [Error] object, which
    is its [message] (what the program and the engine throw), or any other
    value (what a promise of the outside world may be rejected with, [null]
    and [undefined] among them). *)
Inductive error : Type :=
| Error (message : string)
| Thrown (v : value).

Coercion Error : string >-> error.

(** The outcome of evaluating an expression or a synchronous call. *)
Inductive result (A : Type) : Type :=
| Ok (a : A)
| Throw (e : error).
Arguments Ok {A} a.
Arguments Throw {A} e.

Definition rbind {A B} (r : result A) (f : A -> result B) : result B :=
  match r with
  | Ok a => f a
  | Throw e => Throw e
  end.

Notation "x <-! r ; k" := (rbind r (fun x => k))
  (at level 100, r at next level, right associativity).

(** Messages of the [TypeError]s the engine raises (V8's wording). *)
Definition err_read_nullish (k : string) : error :=
  "Cannot read properties of undefined (reading '" ++ k ++ "')".
Definition err_to_primitive : error :=
  "Cannot convert object to primitive value".

(** [!!v] *)
Definition truthy (v : value) : bool :=
  match v with
  | VUndefined | VNull => false
  | VBool b => b
  | VNum n => negb (n =? 0)%Z
  | VStr s => negb (String.eqb s "")
  | VArr _ | VObj _ => true
  end.

(** [typeof v] *)
Definition typeof (v : value) : string :=
  match v with
  | VUndefined => "undefined"
  | VNull | VArr _ | VObj _ => "object"
  | VBool _ => "boolean"
  | VNum _ => "number"
  | VStr _ => "string"
  end.

Definition nullish (v : value) : bool :=
  match v with
  | VUndefined | VNull => true
  | _ => false
  end.

(** Own property of an object: the first binding of the key. *)
Fixpoint own (fields : list (string * value)) (k : string) : option value :=
  match fields with
  | [] => None
  | (k', v) :: rest => if String.eqb k' k then Some v else own rest k
  end.

(** [Array.isArray(v)] *)
Definition isArray (v : value) : bool :=
  match v with
  | VArr _ => true
  | _ => false
  end.

(** [v?.k] for a key [k] that no prototype defines ([message], [content],
    [text], [type], [choices], [data], [response]): the own property of an
    object, [undefined] on anything else. *)
Definition opt (v : value) (k : string) : value :=
  match v with
  | VObj fields => default VUndefined (own fields k)
  | _ => VUndefined
  end.

(** [v.k] for such a key: as [v?.k], but reading from [undefined] or [null]
    throws. *)
Definition dot (v : value) (k : string) : result value :=
  if nullish v then Throw (err_read_nullish k) else Ok (opt v k).

(** [v?.[0]]: the first element of an array, the first character of a
    string, the property ["0"] of an object. *)
Definition opt0 (v : value) : value :=
  match v with
  | VArr items => default VUndefined (head items)
  | VStr (String c _) => VStr (String c "")
  | VObj fields => default VUndefined (own fields "0")
  | _ => VUndefined
  end.

(** [v[0]] *)
Definition idx0 (v : value) : result value :=
  if nullish v then Throw (err_read_nullish "0") else Ok (opt0 v).

(** [typeof v?.toString === 'function' && v?.toString]: every value but
    [undefined] and [null] inherits [toString]; an own property of that name
    shadows it, and in a data payload it is not a function. *)
Definition has_callable_toString (v : value) : bool :=
  match v with
  | VUndefined | VNull => false
  | VObj fields => bool_decide (own fields "toString" = None)
  | _ => true
  end.

(** [a === b] where [b] is a string literal. *)
Definition strict_eq_str (v : value) (s : string) : bool :=
  match v with
  | VStr s' => String.eqb s' s
  | _ => false
  end.

(** [a || b] *)
Definition or_else (a b : value) : value := if truthy a then a else b.

(** [parts.join(sep)] once every element is text. *)
Fixpoint join_strings (sep : string) (parts : list string) : string :=
  match parts with
  | [] => ""
  | [s] => s
  | s :: rest => s ++ sep ++ join_strings sep rest
  end.

Fixpoint sequence {A} (rs : list (result A)) : result (list A) :=
  match rs with
  | [] => Ok []
  | r :: rest => a <-! r ; l <-! sequence rest ; Ok (a :: l)
  end.

(** The conversion [ToString(v)], which string concatenation, template
    literals and [Array.prototype.join] apply.  An array joins its elements
    with a comma ([undefined] and [null] elements give the empty string); an
    object without own [toString] gives [[object Object]]; an object whose own
    [toString] is not callable falls to [valueOf], which cannot give a
    primitive either, and the conversion throws. *)
Fixpoint to_string (v : value) : result string :=
  match v with
  | VUndefined => Ok "undefined"
  | VNull => Ok "null"
  | VBool true => Ok "true"
  | VBool false => Ok "false"
  | VNum n => Ok (pretty n)
  | VStr s => Ok s
  | VArr items =>
      parts <-! sequence (map (fun x => if nullish x then Ok "" else to_string x) items) ;
      Ok (join_strings "," parts)
  | VObj fields =>
      match own fields "toString" with
      | None => Ok "[object Object]"
      | Some _ => Throw err_to_primitive
      end
  end.

(** [items.join(sep)] *)
Definition join (sep : string) (items : list value) : result string :=
  parts <-! sequence (map (fun x => if nullish x then Ok "" else to_string x) items) ;
  Ok (join_strings sep parts).

(** [v.toString()] where [v.toString] is the inherited function. *)
Definition call_toString (v : value) : result value :=
  s <-! to_string v ; Ok (VStr s).

(** The [TypeError] of reading [v.k] where [v] is [null] or [undefined]. *)
Definition err_read_of (v : value) (k : string) : error :=
  "Cannot read properties of "
  ++ match v with VNull => "null" | _ => "undefined" end
  ++ " (reading '" ++ k ++ "')".

(** [error.message] in a [catch (error)] block: the message of an [Error];
    of any other value its property [message], which is [undefined] where
    there is none; reading it from [null] or [undefined] throws. *)
Definition message_of (e : error) : result value :=
  match e with
  | Error m => Ok (VStr m)
  | Thrown v => if nullish v then Throw (err_read_of v "message") else Ok (opt v "message")
  end.

(** The template literal [`Error: ${error.message}`]. *)
Definition error_text (e : error) : result string :=
  m <-! message_of e ; s <-! to_string m ; Ok ("Error: " ++ s).

(** The catch blocks of the program can show the error. *)
Definition readable (e : error) : Prop := exists text, error_text e = Ok text.

End JS.
Import JS.

(* ===================================================================== *)
(** ** The response normaliser *)
(* ===================================================================== *)

(** [extractContentFromResponse(response)], the same text in
    [PuterChatManager] and in [PuterSingleChatManager]. *)
Definition extractContentFromResponse (response : value) : result value :=
  if strict_eq_str (VStr (typeof response)) "string" then
    Ok response
  else if truthy (opt (opt response "message") "content") then
    m <-! dot response "message" ; dot m "content"
  else if has_callable_toString response then
    call_toString response
  else if isArray response && truthy (opt (opt0 response) "text") then
    match response with
    | VArr items =>
        parts <-! sequence (map (fun item =>
                    t <-! dot item "text" ;
                    if truthy t then Ok t else
                    c <-! dot item "content" ;
                    Ok (or_else c (VStr ""))) items) ;
        s <-! join "" parts ; Ok (VStr s)
    | _ => Throw "response.map is not a function"
    end
  else if isArray response && strict_eq_str (opt (opt0 response) "type") "text"
          && truthy (opt (opt0 response) "text") then
    x <-! idx0 response ; dot x "text"
  else if truthy (opt response "content") then
    dot response "content"
  else if truthy (opt response "text") then
    dot response "text"
  else if truthy (opt response "choices")
          && truthy (opt (opt (opt0 (opt response "choices")) "message") "content") then
    c <-! dot response "choices" ; x <-! idx0 c ;
    m <-! dot x "message" ; dot m "content"
  else if truthy (opt (opt response "data") "content") then
    d <-! dot response "data" ; dot d "content"
  else if truthy (opt (opt response "data") "text") then
    d <-! dot response "data" ; dot d "text"
  else if truthy (opt response "message") then
    dot response "message"
  else if truthy (opt response "response") then
    dot response "response"
  else
    Ok (VStr ("Received response but could not extract text content. Response type: "
              ++ typeof response)).



(** [ToString(v)] throws: [v] is a record with an own [toString], or an
    array that holds such a value, at any depth of arrays. *)
Fixpoint unconvertible (v : value) : bool :=
  match v with
  | VArr items => existsb unconvertible items
  | VObj fields => match own fields "toString" with Some _ => true | None => false end
  | _ => false
  end.

(* ===================================================================== *)
(** ** Asynchronous functions as resumptions *)
(* ===================================================================== *)

Module Async.

(** How a promise of the outside world ends. *)
Inductive settle (A : Type) : Type :=
| Resolves (a : A)
| Rejects (e : error)
| NeverSettles.
Arguments Resolves {A} a.
Arguments Rejects {A} e.
Arguments NeverSettles {A}.

Section Resumption.
Context {W : Type}.

(** The state of a call of an [async] function that was started in some
    world: it has settled ([Done], fulfilled or rejected), or it is parked at
    an [await] ([Susp]) and continues from whatever world it is resumed in,
    or it waits for a promise that never settles ([Hang]).  Each state holds
    the world the call left behind. *)
Inductive res (A : Type) : Type :=
| Done (w : W) (r : result A)
| Susp (w : W) (k : W -> res A)
| Hang (w : W).
Arguments Done {A} w r.
Arguments Susp {A} w k.
Arguments Hang {A} w.

Definition M (A : Type) : Type := W -> res A.

Definition ret {A} (a : A) : M A := fun w => Done w (Ok a).

(** [throw new Error(e)] *)
Definition raise {A} (e : error) : M A := fun w => Done w (Throw e).

Fixpoint bind_res {A B} (r : res A) (f : A -> M B) : res B :=
  match r with
  | Done w (Ok a) => f a w
  | Done w (Throw e) => Done w (Throw e)
  | Susp w k => Susp w (fun w' => bind_res (k w') f)
  | Hang w => Hang w
  end.

Definition bind {A B} (m : M A) (f : A -> M B) : M B :=
  fun w => bind_res (m w) f.

(** [try { m } catch (e) { h e }] *)
Fixpoint catch_res {A} (r : res A) (h : error -> M A) : res A :=
  match r with
  | Done w (Ok a) => Done w (Ok a)
  | Done w (Throw e) => h e w
  | Susp w k => Susp w (fun w' => catch_res (k w') h)
  | Hang w => Hang w
  end.

Definition try_catch {A} (m : M A) (h : error -> M A) : M A :=
  fun w => catch_res (m w) h.

(** [try { m } finally { fin }] with a [fin] that runs synchronously and
    does not throw: a state change. *)
Fixpoint finally_res {A} (r : res A) (fin : W -> W) : res A :=
  match r with
  | Done w x => Done (fin w) x
  | Susp w k => Susp w (fun w' => finally_res (k w') fin)
  | Hang w => Hang w
  end.

Definition try_finally {A} (m : M A) (fin : W -> W) : M A :=
  fun w => finally_res (m w) fin.

(** A synchronous read and a synchronous write of the world. *)
Definition gets {A} (f : W -> A) : M A := fun w => Done w (Ok (f w)).
Definition modify (f : W -> W) : M unit := fun w => Done (f w) (Ok tt).

(** A synchronous call that may throw. *)
Definition lift_result {A} (r : result A) : M A := fun w => Done w r.

(** [await p] for a promise [p] of the outside world: the function is parked,
    and resumes with the value or the rejection once [p] settles. *)
Definition await {A} (p : settle A) : M A :=
  fun w =>
    match p with
    | Resolves a => Susp w (fun w' => Done w' (Ok a))
    | Rejects e => Susp w (fun w' => Done w' (Throw e))
    | NeverSettles => Hang w
    end.

(** [await f(...)] for an [async] function of the program: the callee runs
    in the caller's turn up to its own first [await]; the caller resumes one
    turn after the callee has settled. *)
Fixpoint later {A} (r : res A) : res A :=
  match r with
  | Done w x => Susp w (fun w' => Done w' x)
  | Susp w k => Susp w (fun w' => later (k w'))
  | Hang w => Hang w
  end.

Definition await_call {A} (m : M A) : M A := fun w => later (m w).

(** Running a call on its own, resumed at once at every [await], nothing
    else touching the world between: the world it ends in, and how it
    settled ([None] when it hangs). *)
Fixpoint run {A} (r : res A) : W * option (result A) :=
  match r with
  | Done w x => (w, Some x)
  | Susp w k => run (k w)
  | Hang w => (w, None)
  end.

(** The number of times a call run on its own is resumed. *)
Fixpoint resumptions {A} (r : res A) : nat :=
  match r with
  | Susp w k => S (resumptions (k w))
  | _ => 0
  end.

(** The world a call leaves behind when it stops or parks. *)
Definition world_of {A} (r : res A) : W :=
  match r with
  | Done w _ | Susp w _ | Hang w => w
  end.

(** [exec m w]: the call [m] started in [w] and run on its own. *)
Definition exec {A} (m : W -> res A) (w : W) : W * option (result A) := run (m w).

(** However the call is interleaved with the rest of the page (whatever
    world it is resumed in), it does not settle by rejection. *)
Fixpoint never_rejects {A} (r : res A) : Prop :=
  match r with
  | Done _ (Ok _) => True
  | Done _ (Throw _) => False
  | Susp _ k => forall w, never_rejects (k w)
  | Hang _ => True
  end.

(** Every stretch of the call between two suspensions takes the world it
    starts in to one that [R] relates to it, whatever worlds the call is
    resumed in. *)
Fixpoint segments {A} (R : W -> W -> Prop) (w0 : W) (r : res A) : Prop :=
  match r with
  | Done w _ => R w0 w
  | Susp w k => R w0 w /\ forall w', segments R w' (k w')
  | Hang w => R w0 w
  end.

(** *** Promises in flight

    A started call, as the event loop holds it: settled, waiting to be
    resumed, or waiting for ever. *)
Inductive task (A : Type) : Type :=
| Settled (r : result A)
| Waiting (k : W -> res A)
| Stuck.
Arguments Settled {A} r.
Arguments Waiting {A} k.
Arguments Stuck {A}.

Definition task_of {A} (r : res A) : task A :=
  match r with
  | Done _ x => Settled x
  | Susp _ k => Waiting k
  | Hang _ => Stuck
  end.

(** [fs.map(f => f())]: the calls are started one after the other, each
    running up to its first [await] in the world the previous one left. *)
Fixpoint start_all {A} (ms : list (M A)) (w : W) : W * list (task A) :=
  match ms with
  | [] => (w, [])
  | m :: rest =>
      let r := m w in
      let '(w', ts) := start_all rest (world_of r) in
      (w', task_of r :: ts)
  end.

(** One turn of the event loop: some waiting task is resumed and runs up to
    its next [await]. *)
Inductive step {A} : W * list (task A) -> W * list (task A) -> Prop :=
| step_resume w ts i k :
    ts !! i = Some (Waiting k) ->
    step (w, ts) (world_of (k w), <[i := task_of (k w)]> ts).

Definition is_settled {A} (t : task A) : bool :=
  match t with
  | Settled _ => true
  | _ => false
  end.

(** [Promise.allSettled(promises)]: settles, and only by fulfilment, once
    every promise has settled; its value lists how each one ended. *)
Definition allSettled {A} (ts : list (task A)) : option (result (list (result A))) :=
  if forallb is_settled ts
  then Some (Ok (omap (fun t => match t with Settled r => Some r | _ => None end) ts))
  else None.

End Resumption.

Arguments res W A : clear implicits.
Arguments M W A : clear implicits.
Arguments task W A : clear implicits.
Arguments Done {W A} w r.
Arguments Susp {W A} w k.
Arguments Hang {W A} w.
Arguments Settled {W A} r.
Arguments Waiting {W A} k.
Arguments Stuck {W A}.

Declare Scope async_scope.
Delimit Scope async_scope with async.
Notation "'let*' x ':=' m 'in' k" := (bind m (fun x => k))
  (at level 10, x name, m at level 100, k at level 200) : async_scope.
Notation "m ;;; k" := (bind m (fun _ => k))
  (at level 100, k at level 200, right associativity) : async_scope.

End Async.
Import Async.
Open Scope async_scope.

(* ===================================================================== *)
(** ** The page: message containers and their nodes *)
(* ===================================================================== *)

Module DOM.

(** What the [innerHTML] of a message's content element was set to: the
    value of [formatContent(v)], kept as the argument [v], or a text
    assigned as it is.  Markup inside a message is not interpreted. *)
Inductive content : Type :=
| Formatted (v : value)
| Raw (s : string).

(** The children a message container can have, by class name. *)
Inductive node : Type :=
| PlaceholderText
| WelcomeMessage
| TypingIndicator
| UserMessage (c : content)
| AssistantMessage (c : content).

(** A container: every element created for it so far ([heap], in order of
    creation; an element is named by its position there for as long as the
    page lives), and which of them are its children now, in document
    order. *)
Record container : Type := {
  heap : list node;
  children : list nat
}.

(** Selectors: [.placeholder-text], [.welcome-message], and
    [.typing-indicator] (in the focused chat, [.single-typing-indicator]). *)
Definition placeholder_text (n : node) : bool :=
  match n with PlaceholderText => true | _ => false end.
Definition welcome_message (n : node) : bool :=
  match n with WelcomeMessage => true | _ => false end.
Definition typing_indicator (n : node) : bool :=
  match n with TypingIndicator => true | _ => false end.

(** [const e = document.createElement(..); ...; c.appendChild(e)]: the new
    container and the new element. *)
Definition appendChild (n : node) (c : container) : container * nat :=
  ({| heap := heap c ++ [n]; children := children c ++ [length (heap c)] |},
   length (heap c)).

(** [c.querySelector(sel)]: the first child the selector matches.  The
    page's [querySelector] searches the descendants of the container, the
    inside of its messages included, and the text of a message is written
    into the page unescaped: this definition is the page's on a container
    none of whose messages holds markup ([inert_window] below), and what the
    program finds by a selector is stated of such containers only. *)
Definition querySelector (sel : node -> bool) (c : container) : option nat :=
  List.find (fun i => match heap c !! i with
                      | Some n => sel n
                      | None => false
                      end) (children c).

(** [e.remove()] *)
Definition remove (e : nat) (c : container) : container :=
  {| heap := heap c; children := List.filter (fun i => negb (Nat.eqb i e)) (children c) |}.

(** [e.querySelector('.message-content').innerHTML = ...] for a message
    element [e]. *)
Definition set_content (e : nat) (x : content) (c : container) : container :=
  match heap c !! e with
  | Some (AssistantMessage _) =>
      {| heap := <[e := AssistantMessage x]> (heap c); children := children c |}
  | Some (UserMessage _) =>
      {| heap := <[e := UserMessage x]> (heap c); children := children c |}
  | _ => c
  end.

(** [c.innerHTML = ...]: the children are replaced. *)
Definition set_innerHTML (ns : list node) (c : container) : container :=
  {| heap := heap c ++ ns;
     children := seq (length (heap c)) (length ns) |}.

(** The element created last. *)
Definition last_created (c : container) : nat := length (heap c) - 1.

(** Every child is an element of the container. *)
Definition well_formed (c : container) : Prop :=
  Forall (fun i => i < length (heap c)) (children c).

(** What a loop that consumes a stream has done to the container when it
    stops: nothing, or it has set the content of the message element. *)
Definition loop_effect (messageDiv : option nat) (F : container -> container) : Prop :=
  (forall c, F c = c)
  \/ (exists d x, messageDiv = Some d /\ forall c, F c = set_content d x c).

(** What the container shows: its children, in order. *)
Definition view (c : container) : list node :=
  omap (fun i => heap c !! i) (children c).

End DOM.
Import DOM.

(* ===================================================================== *)
(** ** The gateway and the model registry *)
(* ===================================================================== *)

(** A turn of a conversation: [{ role, content }]. *)
Inductive role : Type := System | User | Assistant.

Record turn : Type := {
  turn_role : role;
  turn_content : value
}.

(** The first argument of [puter.ai.chat]: an array of turns or one text. *)
Inductive request : Type :=
| Turns (messages : list turn)
| Flat (fullMessage : string).

(** A call of [puter.ai.chat(request, options)], where [options] is
    [{...model.parameters, stream: true}] or [model.parameters]. *)
Record call : Type := {
  call_request : request;
  call_parameters : value;
  call_stream : bool
}.

(** An async iterable, as its consumer sees it: the parts it yields, and how
    asking for the next part ends after the last of them. *)
Inductive stream_end : Type :=
| StreamDone
| StreamThrows (e : error)
| StreamHangs.

Record stream : Type := {
  parts : list value;
  ending : stream_end
}.

(** What a call with [stream: true] resolves with: a value with a
    [Symbol.asyncIterator] method, or plain data. *)
Inductive reply : Type :=
| Iterable (s : stream)
| Data (v : value).

(** [r && typeof r[Symbol.asyncIterator] === 'function'] *)
Definition asyncIterable (r : reply) : option stream :=
  match r with
  | Iterable s => Some s
  | Data _ => None
  end.

(** The gateway, seen from one dispatch: how each of its calls settles.  A
    call without the [stream] option resolves with data. *)
Record gateway : Type := {
  chat_stream : request -> value -> settle reply;
  chat_direct : request -> value -> settle value
}.

(** An entry of the registry: [model.name] and [model.parameters]. *)
Record model : Type := {
  name : string;
  parameters : value
}.

(** The escape [\n] of a template literal. *)
Definition nl : string := String (Ascii.ascii_of_nat 10) "".

(** The system instruction both chat managers build from the model's name. *)
Definition identity_instruction (n : string) : string :=
  "You are " ++ n ++ ". Always identify yourself correctly as " ++ n
  ++ " when asked about your identity.".

Definition system_instruction (n : string) : string :=
  identity_instruction n ++ " Do not claim to be ChatGPT or any other model.".

(* ===================================================================== *)
(** ** [puterUIManager]: the grid's panels *)
(* ===================================================================== *)

Module UI.

(** The grid: [chatWindows], the message container of each model, and the
    calls made to the gateway so far, each with the model whose dispatch
    made it (a record kept for the proofs; the program never reads it). *)
Record world : Type := {
  chatWindows : gmap string container;
  calls : list (string * call)
}.

Definition set_window (modelId : string) (c : container) (w : world) : world :=
  {| chatWindows := <[modelId := c]> (chatWindows w); calls := calls w |}.

Definition log_call (modelId : string) (c : call) (w : world) : world :=
  {| chatWindows := chatWindows w; calls := calls w ++ [(modelId, c)] |}.

(** The placeholder is removed before a message is appended. *)
Definition remove_placeholder (c : container) : container :=
  match querySelector placeholder_text c with
  | Some e => remove e c
  | None => c
  end.

(** What [displayAssistantMessage] does to the model's window: the
    placeholder goes, a message with the formatted content is appended. *)
Definition append_message (content : value) (chatWindow : container) : container * nat :=
  appendChild (AssistantMessage (Formatted content)) (remove_placeholder chatWindow).

(** [displayAssistantMessage(modelId, content)]: the new message element,
    or [null] when the model has no window. *)
Definition displayAssistantMessage (modelId : string) (content : value)
  : M world (option nat) :=
  fun w =>
    match chatWindows w !! modelId with
    | Some chatWindow =>
        let '(c, messageDiv) := append_message content chatWindow in
        Done (set_window modelId c w) (Ok (Some messageDiv))
    | None => Done w (Ok None)
    end.

(** [showTypingIndicator(modelId)] *)
Definition showTypingIndicator (modelId : string) : M world (option nat) :=
  fun w =>
    match chatWindows w !! modelId with
    | Some chatWindow =>
        let '(c, typingDiv) := appendChild TypingIndicator chatWindow in
        Done (set_window modelId c w) (Ok (Some typingDiv))
    | None => Done w (Ok None)
    end.

Definition remove_typing (c : container) : container :=
  match querySelector typing_indicator c with
  | Some e => remove e c
  | None => c
  end.

(** [removeTypingIndicator(modelId)] *)
Definition removeTypingIndicator (modelId : string) : M world unit :=
  fun w =>
    match chatWindows w !! modelId with
    | Some chatWindow => Done (set_window modelId (remove_typing chatWindow) w) (Ok tt)
    | None => Done w (Ok tt)
    end.

(** [scrollToBottom(modelId)]: the definition that stands in the class is
    the last one, which reads [this.elements.messages]; that element is
    never bound, and nothing is scrolled. *)
Definition scrollToBottom (modelId : string) : M world unit := ret tt.

(** [if (messageDiv) { const contentDiv = messageDiv.querySelector(
    '.message-content'); if (contentDiv) contentDiv.innerHTML = x }] *)
Definition set_message (modelId : string) (messageDiv : option nat) (x : content)
  : M world unit :=
  fun w =>
    match messageDiv, chatWindows w !! modelId with
    | Some e, Some chatWindow => Done (set_window modelId (set_content e x chatWindow) w) (Ok tt)
    | _, _ => Done w (Ok tt)
    end.

Definition show_typing (c : container) : container := fst (appendChild TypingIndicator c).

Definition show_message (content : value) (c : container) : container :=
  fst (append_message content c).

(** A change made to the window of one model, if it has one; the other
    windows and the record of calls stay as they are. *)
Definition on_window (modelId : string) (f : container -> container) (w : world) : world :=
  {| chatWindows := alter f modelId (chatWindows w); calls := calls w |}.

End UI.

(** [for await (const part of response) { body }], the loop carrying the
    text accumulated so far: every part is awaited, and so is the end of the
    stream. *)
Fixpoint for_await {W} (ps : list value) (e : stream_end)
    (body : string -> value -> M W string) (fullContent : string) : M W string :=
  match ps with
  | [] =>
      match e with
      | StreamDone => await (Resolves tt) ;;; ret fullContent
      | StreamThrows err => await (Rejects err)
      | StreamHangs => await NeverSettles
      end
  | part :: rest =>
      await (Resolves tt) ;;;
      let* fullContent' := body fullContent part in
      for_await rest e body fullContent'
  end.

(** What consuming a stream comes to, from the text accumulated so far: the
    text of its parts with a truthy [text], appended in order, when the
    stream ends; the error when the stream throws or a [text] cannot be
    converted; nothing when the stream hangs. *)
Fixpoint stream_text (ps : list value) (e : stream_end) (fullContent : string)
  : option (result string) :=
  match ps with
  | [] =>
      match e with
      | StreamDone => Some (Ok fullContent)
      | StreamThrows err => Some (Throw err)
      | StreamHangs => None
      end
  | part :: rest =>
      if truthy (opt part "text") then
        match to_string (opt part "text") with
        | Ok s => stream_text rest e (fullContent ++ s)
        | Throw err => Some (Throw err)
        end
      else stream_text rest e fullContent
  end.

(** The [text] of a part, when truthy, can be appended to a string. *)
Definition convertible (part : value) : Prop :=
  truthy (opt part "text") = true -> exists s, to_string (opt part "text") = Ok s.

(* ===================================================================== *)
(** ** [PuterChatManager]: the grid mode *)
(* ===================================================================== *)

Module Chat.
Import UI.

Section PuterChatManager.

(** [puterModelCapabilities.getModel], of a file that is not part of the
    sources at hand: the registry is a parameter. *)
Variable getModel : string -> option model.

(** [await puter.ai.chat(request, {...model.parameters, stream: true})] *)
Definition chat_streaming (g : gateway) (modelId : string) (req : request) (m : model)
  : M world reply :=
  modify (log_call modelId
            {| call_request := req; call_parameters := parameters m; call_stream := true |}) ;;;
  await (chat_stream g req (parameters m)).

(** [await puter.ai.chat(request, model.parameters)] *)
Definition chat_blocking (g : gateway) (modelId : string) (req : request) (m : model)
  : M world value :=
  modify (log_call modelId
            {| call_request := req; call_parameters := parameters m; call_stream := false |}) ;;;
  await (chat_direct g req (parameters m)).

(** The body of the loop of [handleStreamingResponseForModel]: from the text
    so far and a part, the text after it. *)
Definition consume_part (modelId : string) (messageDiv : option nat)
    (fullContent : string) (part : value) : M world string :=
  if truthy (opt part "text") then
    let* t := lift_result (dot part "text") in
    let* s := lift_result (to_string t) in
    set_message modelId messageDiv (Formatted (VStr (fullContent ++ s))) ;;;
    scrollToBottom modelId ;;;
    ret (fullContent ++ s)
  else ret fullContent.

(** [handleStreamingResponseForModel(response, modelId)].  The two
    statements ahead of the loop cannot throw, so the handler always sees
    the [messageDiv] they made. *)
Definition handleStreamingResponseForModel (response : stream) (modelId : string)
  : M world unit :=
  removeTypingIndicator modelId ;;;
  let* messageDiv := displayAssistantMessage modelId (VStr "") in
  try_catch
    (for_await (parts response) (ending response) (consume_part modelId messageDiv) "" ;;;
     ret tt)
    (fun error =>
       match messageDiv with
       | Some _ =>
           let* text := lift_result (error_text error) in
           set_message modelId messageDiv (Raw text)
       | None => ret tt
       end).

(** [displayResponseForModel(response, modelId)] *)
Definition displayResponseForModel (response : value) (modelId : string) : M world unit :=
  let* content := lift_result (extractContentFromResponse response) in
  displayAssistantMessage modelId content ;;;
  scrollToBottom modelId.

Definition image_notice : string :=
  "❌ Image analysis is not supported in this version.".

(** [sendMessageToModel(message, images, modelId)].  The text branch gives
    [None] where the source returns from inside it, and the response to
    display otherwise. *)
Definition sendMessageToModel (g : gateway) (message : string) (images : list value)
    (modelId : string) : M world unit :=
  try_catch
    (showTypingIndicator modelId ;;;
     match getModel modelId with
     | None => raise ("Model " ++ modelId ++ " not found")
     | Some model =>
         let* response :=
           if (0 <? length images)%nat then
             ret (Some (VStr image_notice))
           else
             let messages :=
               [ {| turn_role := System; turn_content := VStr (system_instruction (name model)) |};
                 {| turn_role := User; turn_content := VStr message |} ] in
             let* returned :=
               try_catch
                 (let* streamResponse := chat_streaming g modelId (Turns messages) model in
                  match asyncIterable streamResponse with
                  | Some s =>
                      await_call (handleStreamingResponseForModel s modelId) ;;; ret true
                  | None => ret false
                  end)
                 (fun e =>
                    try_catch
                      (let systemMessage := system_instruction (name model) in
                       let fullMessage := systemMessage ++ nl ++ nl ++ "User: " ++ message in
                       let* streamResponse2 := chat_streaming g modelId (Flat fullMessage) model in
                       match asyncIterable streamResponse2 with
                       | Some s =>
                           await_call (handleStreamingResponseForModel s modelId) ;;; ret true
                       | None => ret false
                       end)
                      (fun e2 => ret false)) in
             if returned : bool then ret None
             else
               let* response :=
                 try_catch
                   (chat_blocking g modelId (Turns messages) model)
                   (fun e =>
                      let systemMessage := system_instruction (name model) in
                      let fullMessage := systemMessage ++ nl ++ nl ++ "User: " ++ message in
                      chat_blocking g modelId (Flat fullMessage) model) in
               ret (Some response) in
         match response with
         | None => ret tt
         | Some response =>
             removeTypingIndicator modelId ;;;
             displayResponseForModel response modelId
         end
     end)
    (fun error =>
       removeTypingIndicator modelId ;;;
       let* text := lift_result (error_text error) in
       displayAssistantMessage modelId (VStr text) ;;;
       ret tt).

(** The two requests of a dispatch in the grid. *)
Definition turns_of (m : model) (message : string) : request :=
  Turns [ {| turn_role := System; turn_content := VStr (system_instruction (name m)) |};
          {| turn_role := User; turn_content := VStr message |} ].

Definition flat_of (m : model) (message : string) : request :=
  Flat (system_instruction (name m) ++ nl ++ nl ++ "User: " ++ message).

(** The four calls a dispatch can make, as the record of calls holds them:
    streaming with the turns, streaming with the flattened text, direct
    with the turns, direct with the flattened text. *)
Definition call_of (modelId : string) (m : model) (req : request) (streaming : bool)
  : string * call :=
  (modelId, {| call_request := req; call_parameters := parameters m;
               call_stream := streaming |}).

(** Neither streaming call of the dispatch gave something to iterate: the
    first resolved with plain data, or it rejected and the second one
    rejected or resolved with plain data. *)
Definition streaming_gave_nothing (g : gateway) (m : model) (message : string) : Prop :=
  (exists v, chat_stream g (turns_of m message) (parameters m) = Resolves (Data v))
  \/ (exists eA, chat_stream g (turns_of m message) (parameters m) = Rejects eA
       /\ ((exists v, chat_stream g (flat_of m message) (parameters m) = Resolves (Data v))
           \/ (exists eA', chat_stream g (flat_of m message) (parameters m) = Rejects eA'))).

(** [sendMessageToAllModels(message, images, modelIds)], first statement:
    [modelIds.map(modelId => this.sendMessageToModel(message, images,
    modelId))].  Each dispatch may see the gateway behave in its own way. *)
Definition start_dispatches (G : string -> gateway) (message : string)
    (images : list value) (modelIds : list string) (w : world)
  : world * list (task world unit) :=
  start_all (map (fun modelId => sendMessageToModel (G modelId) message images modelId) modelIds) w.

(** ... and the rest: [try { await Promise.allSettled(promises) } catch
    (error) { console.error(..) }].  How the coordinator's own promise
    stands, given the promises of the dispatches: [None] while it waits. *)
Definition sendMessageToAllModels_outcome (promises : list (task world unit))
  : option (result unit) :=
  match allSettled promises with
  | Some (Ok _) => Some (Ok tt)
  | Some (Throw error) => Some (Ok tt)
  | None => None
  end.

End PuterChatManager.
End Chat.

(* ===================================================================== *)
(** ** [PuterSingleChatManager]: the focused chat *)
(* ===================================================================== *)

Module SingleChat.

(** The manager's fields, the page around it ([notices]: the error boxes
    [showError] has put on [document.body]), and the calls made to the
    gateway so far (kept for the proofs). *)
Record session : Type := {
  currentModel : option string;
  chatHistory : list turn;
  isProcessing : bool;
  messagesContainer : container;
  notices : list string;
  calls : list call
}.

Definition set_currentModel (x : option string) (s : session) : session :=
  {| currentModel := x; chatHistory := chatHistory s; isProcessing := isProcessing s;
     messagesContainer := messagesContainer s; notices := notices s; calls := calls s |}.

Definition set_chatHistory (x : list turn) (s : session) : session :=
  {| currentModel := currentModel s; chatHistory := x; isProcessing := isProcessing s;
     messagesContainer := messagesContainer s; notices := notices s; calls := calls s |}.

Definition set_isProcessing (x : bool) (s : session) : session :=
  {| currentModel := currentModel s; chatHistory := chatHistory s; isProcessing := x;
     messagesContainer := messagesContainer s; notices := notices s; calls := calls s |}.

Definition set_messagesContainer (x : container) (s : session) : session :=
  {| currentModel := currentModel s; chatHistory := chatHistory s;
     isProcessing := isProcessing s;
     messagesContainer := x; notices := notices s; calls := calls s |}.

Definition set_notices (x : list string) (s : session) : session :=
  {| currentModel := currentModel s; chatHistory := chatHistory s;
     isProcessing := isProcessing s;
     messagesContainer := messagesContainer s; notices := x; calls := calls s |}.

Definition log_call (c : call) (s : session) : session :=
  {| currentModel := currentModel s; chatHistory := chatHistory s;
     isProcessing := isProcessing s;
     messagesContainer := messagesContainer s; notices := notices s;
     calls := calls s ++ [c] |}.

(** [this.chatHistory.push(t)] *)
Definition push_turn (t : turn) (s : session) : session :=
  set_chatHistory (chatHistory s ++ [t]) s.

(** [!message.trim()]: the message is made of white space and line
    terminators only.  The text is read as UTF-8: the one-byte characters
    TAB, LF, VT, FF, CR and SP, and the encodings of U+00A0, U+1680,
    U+2000 to U+200A, U+2028, U+2029, U+202F, U+205F, U+3000 and U+FEFF. *)
Fixpoint blank (message : string) : bool :=
  match message with
  | EmptyString => true
  | String a rest1 =>
      let x := Ascii.nat_of_ascii a in
      if ((9 <=? x) && (x <=? 13) || (x =? 32))%nat then blank rest1
      else
        match rest1 with
        | String b rest2 =>
            let y := Ascii.nat_of_ascii b in
            if ((x =? 194) && (y =? 160))%nat then blank rest2
            else
              match rest2 with
              | String c rest3 =>
                  let z := Ascii.nat_of_ascii c in
                  if ((x =? 225) && (y =? 154) && (z =? 128)
                      || (x =? 226) && (y =? 128)
                         && ((128 <=? z) && (z <=? 138) || (z =? 168) || (z =? 169) || (z =? 175))
                      || (x =? 226) && (y =? 129) && (z =? 159)
                      || (x =? 227) && (y =? 128) && (z =? 128)
                      || (x =? 239) && (y =? 187) && (z =? 191))%nat
                  then blank rest3
                  else false
              | EmptyString => false
              end
        | EmptyString => false
        end
  end.

(** [!this.currentModel], [!modelId] *)
Definition no_model (m : option string) : bool :=
  match m with
  | None => true
  | Some modelId => String.eqb modelId ""
  end.

Section PuterSingleChatManager.

Variable getModel : string -> option model.

(** [puterModelCapabilities.getModel(this.currentModel)] *)
Definition current_model (s : session) : option model :=
  match currentModel s with
  | Some modelId => getModel modelId
  | None => None
  end.

(** [formatContent(content)]: the text after the replacements (kept as the
    argument), or the [TypeError] of calling [replace] on what is not a
    string. *)
Definition formatContent (content : value) : result DOM.content :=
  if negb (truthy content) then Ok (Raw "")
  else
    match content with
    | VStr _ => Ok (Formatted content)
    | _ => Throw "content.replace is not a function"
    end.

(** [showError(message)]: an error box on the page (it goes away by itself
    after three seconds, which is not modelled). *)
Definition showError (message : string) : M session unit :=
  modify (fun s => set_notices (notices s ++ [message]) s).

(** [showWelcomeMessage()] *)
Definition showWelcomeMessage (s : session) : session :=
  set_messagesContainer (set_innerHTML [WelcomeMessage] (messagesContainer s)) s.

(** [showModelSelectedMessage(modelId)] *)
Definition showModelSelectedMessage (modelId : string) (s : session) : session :=
  match getModel modelId with
  | None => s
  | Some model =>
      set_messagesContainer (set_innerHTML [WelcomeMessage] (messagesContainer s)) s
  end.

(** [clearChat()] *)
Definition clearChat (s : session) : session :=
  set_messagesContainer (set_innerHTML [] (messagesContainer s)) (set_chatHistory [] s).

(** [handleModelChange(modelId)] *)
Definition handleModelChange (modelId : string) (s : session) : session :=
  if no_model (Some modelId) then
    showWelcomeMessage (set_currentModel None s)
  else
    showModelSelectedMessage modelId (clearChat (set_currentModel (Some modelId) s)).

(** [displayUserMessage(message)] *)
Definition displayUserMessage (message : string) : M session unit :=
  let* x := lift_result (formatContent (VStr message)) in
  modify (fun s =>
    set_messagesContainer (fst (appendChild (UserMessage x) (messagesContainer s))) s).

(** [displayAssistantMessage(content)]: the new message element. *)
Definition displayAssistantMessage (content : value) : M session nat :=
  let* x := lift_result (formatContent content) in
  fun s =>
    let '(c, messageDiv) := appendChild (AssistantMessage x) (messagesContainer s) in
    Done (set_messagesContainer c s) (Ok messageDiv).

(** [showTypingIndicator()] *)
Definition showTypingIndicator : M session nat :=
  fun s =>
    let '(c, typingDiv) := appendChild TypingIndicator (messagesContainer s) in
    Done (set_messagesContainer c s) (Ok typingDiv).

(** [const e = container.querySelector(sel); if (e) e.remove()] *)
Definition remove_first (sel : node -> bool) : M session unit :=
  modify (fun s =>
    match querySelector sel (messagesContainer s) with
    | Some e => set_messagesContainer (remove e (messagesContainer s)) s
    | None => s
    end).

(** [if (e) e.remove()] for an element [e] made earlier. *)
Definition remove_element (e : nat) : M session unit :=
  modify (fun s => set_messagesContainer (remove e (messagesContainer s)) s).

Definition set_message (messageDiv : nat) (x : content) : M session unit :=
  modify (fun s => set_messagesContainer (set_content messageDiv x (messagesContainer s)) s).

(** [scrollToBottom()]: the scroll position is not modelled. *)
Definition scrollToBottom : M session unit := ret tt.

(** [await puter.ai.chat(request, {...model.parameters, stream: true})] *)
Definition chat_streaming (g : gateway) (req : request) (m : model) : M session reply :=
  modify (log_call
            {| call_request := req; call_parameters := parameters m; call_stream := true |}) ;;;
  await (chat_stream g req (parameters m)).

(** [await puter.ai.chat(request, model.parameters)] *)
Definition chat_blocking (g : gateway) (req : request) (m : model) : M session value :=
  modify (log_call
            {| call_request := req; call_parameters := parameters m; call_stream := false |}) ;;;
  await (chat_direct g req (parameters m)).

(** The body of the loop of [handleStreamingResponse]. *)
Definition consume_part (messageDiv : nat) (fullContent : string) (part : value)
  : M session string :=
  if truthy (opt part "text") then
    let* t := lift_result (dot part "text") in
    let* s := lift_result (to_string t) in
    let* x := lift_result (formatContent (VStr (fullContent ++ s))) in
    set_message messageDiv x ;;;
    scrollToBottom ;;;
    ret (fullContent ++ s)
  else ret fullContent.

(** [handleStreamingResponse(response)] *)
Definition handleStreamingResponse (response : stream) : M session unit :=
  let* messageDiv := displayAssistantMessage (VStr "") in
  try_catch
    (let* fullContent :=
       for_await (parts response) (ending response) (consume_part messageDiv) "" in
     modify (push_turn {| turn_role := Assistant; turn_content := VStr fullContent |}))
    (fun error =>
       let* text := lift_result (error_text error) in
       set_message messageDiv (Raw text)).

(** [sendMessage(message)].  The streaming attempt gives [true] where the
    source returns from inside it. *)
Definition sendMessage (g : gateway) (message : string) : M session unit :=
  let* selected := gets currentModel in
  if no_model selected then showError "Please select a model first"
  else if blank message then showError "Please enter a message"
  else
    let* busy := gets isProcessing in
    if busy : bool then ret tt
    else
      modify (set_isProcessing true) ;;;
      try_finally
        (try_catch
           (remove_first welcome_message ;;;
            displayUserMessage message ;;;
            modify (push_turn {| turn_role := User; turn_content := VStr message |}) ;;;
            let* typingIndicator := showTypingIndicator in
            let* found := gets current_model in
            match found with
            | None => raise "Selected model not found"
            | Some model =>
                let* history := gets chatHistory in
                let messages :=
                  {| turn_role := System;
                     turn_content := VStr (system_instruction (name model)) |} :: history in
                let* returned :=
                  try_catch
                    (let* response := chat_streaming g (Turns messages) model in
                     match asyncIterable response with
                     | Some s =>
                         remove_element typingIndicator ;;;
                         await_call (handleStreamingResponse s) ;;;
                         ret true
                     | None => ret false
                     end)
                    (fun e => lift_result (message_of e) ;;; ret false) in
                if returned : bool then ret tt
                else
                  let* response :=
                    try_catch
                      (chat_blocking g (Turns messages) model)
                      (fun e =>
                         let systemMessage := identity_instruction (name model) in
                         let fullMessage := systemMessage ++ nl ++ nl ++ "User: " ++ message in
                         chat_blocking g (Flat fullMessage) model) in
                  remove_element typingIndicator ;;;
                  let* content := lift_result (extractContentFromResponse response) in
                  displayAssistantMessage content ;;;
                  modify (push_turn {| turn_role := Assistant; turn_content := content |})
            end)
           (fun error =>
              remove_first typing_indicator ;;;
              let* text := lift_result (error_text error) in
              displayAssistantMessage (VStr text) ;;;
              ret tt))
        (set_isProcessing false)
  .

End PuterSingleChatManager.
End SingleChat.

(* ===================================================================== *)
(** ** A page to run the managers on *)
(* ===================================================================== *)

Module Fixtures.

(** A registry with three models. *)
Definition registry (modelId : string) : option model :=
  if String.eqb modelId "gpt-4o" then
    Some {| name := "GPT-4o"; parameters := VObj [("model", VStr "gpt-4o")] |}
  else if String.eqb modelId "claude" then
    Some {| name := "Claude"; parameters := VObj [("model", VStr "claude")] |}
  else if String.eqb modelId "gemini" then
    Some {| name := "Gemini"; parameters := VObj [("model", VStr "gemini")] |}
  else None.

(** A window as [generateAllChatWindows] makes it: the placeholder only. *)
Definition fresh_window : container := {| heap := [PlaceholderText]; children := [0] |}.

Definition grid : UI.world :=
  {| UI.chatWindows :=
       <["gpt-4o" := fresh_window]>
         (<["claude" := fresh_window]> (<["gemini" := fresh_window]> ∅));
     UI.calls := [] |}.

(** A gateway whose every call rejects. *)
Definition down : gateway :=
  {| chat_stream := fun _ _ => Rejects "service unavailable";
     chat_direct := fun _ _ => Rejects "service unavailable" |}.

(** A gateway that cannot stream and answers direct calls with a text. *)
Definition direct_only (answer : string) : gateway :=
  {| chat_stream := fun _ _ => Rejects "streaming not supported";
     chat_direct := fun _ _ => Resolves (VStr answer) |}.

(** A gateway that streams the given parts and then ends as told. *)
Definition streaming (ps : list value) (e : stream_end) : gateway :=
  {| chat_stream := fun _ _ => Resolves (Iterable {| parts := ps; ending := e |});
     chat_direct := fun _ _ => Rejects "not reached" |}.

Definition text_part (s : string) : value := VObj [("text", VStr s)].

Definition gpt4o : model :=
  {| name := "GPT-4o"; parameters := VObj [("model", VStr "gpt-4o")] |}.

(** The focused chat before a model is picked. *)
Definition idle : SingleChat.session :=
  {| SingleChat.currentModel := None;
     SingleChat.chatHistory := [];
     SingleChat.isProcessing := false;
     SingleChat.messagesContainer := {| heap := [WelcomeMessage]; children := [0] |};
     SingleChat.notices := [];
     SingleChat.calls := [] |}.

End Fixtures.

(* ===================================================================== *)
(** ** More vocabulary for the page *)
(* ===================================================================== *)

(** [const e = c.querySelector(sel); if (e) e.remove()], on the container. *)
Definition remove_matching (sel : node -> bool) (c : container) : container :=
  match querySelector sel c with
  | Some e => remove e c
  | None => c
  end.

(** The turns the focused chat sends: the system instruction for the model,
    the stored conversation, the new message. *)
Definition user_turn (message : string) : turn :=
  {| turn_role := User; turn_content := VStr message |}.

Definition assistant_turn (content : value) : turn :=
  {| turn_role := Assistant; turn_content := content |}.

Definition outgoing (m : model) (history : list turn) (message : string) : list turn :=
  {| turn_role := System; turn_content := VStr (system_instruction (name m)) |}
    :: history ++ [user_turn message].

(** The last, flattened request of the focused chat. *)
Definition last_resort (m : model) (message : string) : request :=
  Flat (identity_instruction (name m) ++ nl ++ nl ++ "User: " ++ message).

Definition focused_call (m : model) (req : request) (streaming : bool) : call :=
  {| call_request := req; call_parameters := parameters m; call_stream := streaming |}.

(** What the focused chat shows while a send waits for the gateway: the
    welcome message gone, the user's message and the typing indicator
    appended. *)
Definition in_flight (message : string) (c : container) : container :=
  fst (appendChild TypingIndicator
         (fst (appendChild (UserMessage (Formatted (VStr message)))
                 (remove_matching welcome_message c)))).

(** The typing indicator of that send. *)
Definition typing_of (c : container) : nat :=
  S (length (heap c)).

(** A send passes the checks of [sendMessage] in this session. *)
Definition sendable (message : string) (s : SingleChat.session) : Prop :=
  SingleChat.no_model (SingleChat.currentModel s) = false
  /\ SingleChat.blank message = false
  /\ SingleChat.isProcessing s = false.

(** The streaming call of a send gave nothing to iterate, and the send went
    on to the direct calls: the call rejected with something whose [message]
    the handler could read, or resolved with plain data. *)
Definition not_streamed (g : gateway) (m : model) (history : list turn) (message : string)
  : Prop :=
  (exists e logged,
     chat_stream g (Turns (outgoing m history message)) (parameters m) = Rejects e
     /\ message_of e = Ok logged)
  \/ (exists v, chat_stream g (Turns (outgoing m history message)) (parameters m)
               = Resolves (Data v)).

(** One of the two direct calls of a send resolved with [v]: the one with the
    turns, or, that one rejecting, the one with the flattened text. *)
Definition answered (g : gateway) (m : model) (history : list turn) (message : string)
    (v : value) : Prop :=
  chat_direct g (Turns (outgoing m history message)) (parameters m) = Resolves v
  \/ (exists eB,
        chat_direct g (Turns (outgoing m history message)) (parameters m) = Rejects eB
        /\ chat_direct g (last_resort m message) (parameters m) = Resolves v).

(** A program keeps to [R] in every stretch between two suspensions, from
    whatever world it is started or resumed in. *)
Definition steady {W A} (R : W -> W -> Prop) (m : M W A) : Prop :=
  forall w, segments R w (m w).

(** What the stretches of a send do to the session: turns are appended to
    the conversation, none of them a system turn; calls are appended to the
    record; the selected model stays. *)
Definition grows (s s' : SingleChat.session) : Prop :=
  (exists added,
     SingleChat.chatHistory s' = (SingleChat.chatHistory s ++ added)%list
     /\ Forall (fun t => turn_role t <> System) added)
  /\ (exists made, SingleChat.calls s' = (SingleChat.calls s ++ made)%list)
  /\ SingleChat.currentModel s' = SingleChat.currentModel s.

(** *** Texts and windows without markup

    The text of a message is written into the page as it is, and the
    selectors of the program ([.typing-indicator], [.placeholder-text],
    [.welcome-message], [.single-typing-indicator]) match elements inside a
    message as well as children of the container.  [querySelector] above
    looks at the children only; it is the page's on a container none of
    whose messages holds an element: the properties of what a window shows
    are stated for such containers.  A text without ["<"] holds none (the
    replacements of [formatContent] add [br], [strong], [em] and [code]
    only). *)
Definition less_than_sign : Ascii.ascii := Ascii.ascii_of_nat 60.

Fixpoint plain (s : string) : bool :=
  match s with
  | EmptyString => true
  | String a rest => negb (Ascii.eqb a less_than_sign) && plain rest
  end.

Definition inert (x : content) : bool :=
  match x with
  | Raw s | Formatted (VStr s) => plain s
  | Formatted (VArr _) | Formatted (VObj _) => false
  | Formatted _ => true
  end.

Definition inert_node (n : node) : bool :=
  match n with
  | UserMessage x | AssistantMessage x => inert x
  | _ => true
  end.

(** No message the container shows holds markup. *)
Definition inert_window (c : container) : Prop :=
  Forall (fun n => inert_node n = true) (view c).

(** The window of a model, where there is one, shows no markup. *)
Definition inert_panel (modelId : string) (w : UI.world) : Prop :=
  forall c, UI.chatWindows w !! modelId = Some c -> inert_window c.

(** What the gateway rejects a direct call with, and what its streams throw,
    the catch blocks can show. *)
Definition rejects_readably (g : gateway) : Prop :=
  forall req p e, chat_direct g req p = Rejects e -> readable e.

Definition streams_throw_readably (g : gateway) : Prop :=
  forall req p r e,
    chat_stream g req p = Resolves (Iterable r) -> ending r = StreamThrows e -> readable e.

(** However the call is interleaved with the rest of the page, it settles
    by rejection only with an error that [P] holds of. *)
Fixpoint rejects_only {W A} (P : error -> Prop) (r : res W A) : Prop :=
  match r with
  | Done _ (Ok _) => True
  | Done _ (Throw e) => P e
  | Susp _ k => forall w, rejects_only P (k w)
  | Hang _ => True
  end.

(** A program rejects only with errors that [P] holds of, from whatever
    world it is started or resumed in. *)
Definition throws {W A} (P : error -> Prop) (m : M W A) : Prop :=
  forall w, rejects_only P (m w).

(** A call parked at its first [await] is resumed after something else
    ([event]) has changed the world; a call that is not parked is left as it
    is. *)
Definition resumed_after {W A} (event : W -> W) (r : res W A) : res W A :=
  match r with
  | Susp w k => k (event w)
  | _ => r
  end.

(* ===================================================================== *)
(** ** Scenes for the two chats *)
(* ===================================================================== *)

Module Scenes.

(** The focused chat with a registered model picked. *)
Definition ready : SingleChat.session :=
  SingleChat.handleModelChange Fixtures.registry "gpt-4o" Fixtures.idle.

(** ... and with a model picked that the registry does not hold. *)
Definition unlisted : SingleChat.session :=
  SingleChat.handleModelChange Fixtures.registry "llama" Fixtures.idle.

(** ... and after one exchange answered by a direct call. *)
Definition after_one_exchange : SingleChat.session :=
  fst (exec (SingleChat.sendMessage Fixtures.registry (Fixtures.direct_only "hello") "hi")
         ready).

(** A gateway whose stream yields one part and then throws. *)
Definition broken_stream : gateway :=
  Fixtures.streaming [Fixtures.text_part "Hel"] (StreamThrows "connection lost").


End Scenes.

(** The gateway as the dispatches of a send to the grid see it: down for one
    model, answering direct calls for the others. *)
Definition one_down (modelId : string) : gateway :=
  if String.eqb modelId "claude" then Fixtures.down else Fixtures.direct_only "hello".

(* ===================================================================== *)
(** ** Calls that keep to their own part of the world *)
(* ===================================================================== *)

Section Confinement.
Context {W : Type}.

(** Two states of a call that one who sees the worlds only up to [E] cannot
    tell apart: both have settled in the same way, or both are parked and
    stay alike when resumed in worlds that [E] relates, or both hang. *)
Fixpoint matching {A} (E : W -> W -> Prop) (r1 r2 : res W A) {struct r1} : Prop :=
  match r1, r2 with
  | Done w1 x1, Done w2 x2 => E w1 w2 /\ x1 = x2
  | Susp w1 k1, Susp w2 k2 =>
      E w1 w2 /\ forall w1' w2', E w1' w2' -> matching E (k1 w1') (k2 w2')
  | Hang w1, Hang w2 => E w1 w2
  | _, _ => False
  end.

(** What the program does depends on the world only up to [E]. *)
Definition determined_by {A} (E : W -> W -> Prop) (m : M W A) : Prop :=
  forall w1 w2, E w1 w2 -> matching E (m w1) (m w2).

(** One resumption of a call that runs on its own, and [n] of them. *)
Definition resume {A} (r : res W A) : res W A :=
  match r with
  | Susp w k => k w
  | _ => r
  end.

Definition ahead {A} (n : nat) (r : res W A) : res W A := Nat.iter n resume r.

(** A task of the event loop stands where the call [r], run on its own,
    stands; a waiting task goes on like [r] from worlds that [E] relates,
    and keeps to [R] in each of its stretches. *)
Definition follows {A} (E R : W -> W -> Prop) (r : res W A) (t : task W A) : Prop :=
  match r, t with
  | Done _ x, Settled y => x = y
  | Susp _ k1, Waiting k2 =>
      (forall w1 w2, E w1 w2 -> matching E (k1 w1) (k2 w2))
      /\ (forall w, segments R w (k2 w))
  | Hang _, Stuck => True
  | _, _ => False
  end.

Definition is_waiting {A} (t : task W A) : bool :=
  match t with
  | Waiting _ => true
  | _ => false
  end.

End Confinement.

(** The part of the grid a dispatch for [modelId] works on: the window of
    its model, and the calls made for it. *)
Definition panel (modelId : string) (w : UI.world) : option container * list call :=
  (UI.chatWindows w !! modelId,
   omap (fun c => if String.eqb (fst c) modelId then Some (snd c) else None) (UI.calls w)).


(** Two worlds look the same from [i]; and a change that [i] alone can see. *)
Definition same_view {W V I : Type} (view : I -> W -> V) (i : I) (w w' : W) : Prop :=
  view i w = view i w'.

Definition other_views {W V I : Type} (view : I -> W -> V) (i : I) (w w' : W) : Prop :=
  forall j, j <> i -> view j w' = view j w.

(** The event loop holds the calls [prog i], for [i] in [ids], started from
    [w0]: the task of each stands where the call run on its own stands after
    some number of resumptions (listed in [ks]), the world looks to it as the
    world of that run does, and what none of the calls sees is as it was. *)
Definition pool_inv {W V I A : Type} (view : I -> W -> V) (prog : I -> M W A)
    (ids : list I) (w0 w : W) (ks : list nat) (ts : list (task W A)) : Prop :=
  length ks = length ids /\ length ts = length ids
  /\ (forall n i k t, ids !! n = Some i -> ks !! n = Some k -> ts !! n = Some t ->
        follows (same_view view i) (other_views view i) (ahead k (prog i w0)) t
        /\ same_view view i (world_of (ahead k (prog i w0))) w
        /\ k <= resumptions (prog i w0))
  /\ (forall j, j ∉ ids -> view j w = view j w0).

(* ===================================================================== *)
(** * Properties *)
(* ===================================================================== *)

(** ** The normaliser *)

Lemma truthy_not_nullish v : truthy v = true -> nullish v = false.
Proof. destruct v; simpl; congruence. Qed.

Lemma truthy_opt_not_nullish v k : truthy (opt v k) = true -> nullish v = false.
Proof. destruct v; simpl; congruence. Qed.

Lemma truthy_opt0_not_nullish v : truthy (opt0 v) = true -> nullish v = false.
Proof. destruct v; simpl; congruence. Qed.

Lemma opt_not_nullish v k : nullish (opt v k) = false -> nullish v = false.
Proof. destruct v; simpl; congruence. Qed.

Lemma opt0_not_nullish v : nullish (opt0 v) = false -> nullish v = false.
Proof. destruct v; simpl; congruence. Qed.

Create HintDb guards.
#[local] Hint Resolve truthy_not_nullish truthy_opt_not_nullish truthy_opt0_not_nullish
  opt_not_nullish opt0_not_nullish : guards.

Lemma dot_guarded v k : nullish v = false -> dot v k = Ok (opt v k).
Proof. unfold dot. intros ->. reflexivity. Qed.

Lemma idx0_guarded v : nullish v = false -> idx0 v = Ok (opt0 v).
Proof. unfold idx0. intros ->. reflexivity. Qed.


(** On a payload whose own [toString] is not in the way, the third probe
    always matches. *)
Lemma extract_inherited_toString response :
  typeof response <> "string" ->
  truthy (opt (opt response "message") "content") = false ->
  has_callable_toString response = true ->
  extractContentFromResponse response = call_toString response.
Proof.
  intros Hty Hmc Hts. unfold extractContentFromResponse.
  rewrite Hmc, Hts.
  destruct response; simpl in *; first [reflexivity | congruence].
Qed.

(** C2 (what the code does).  A string is returned as it is, and a truthy
    nested [message.content] is returned; but the probe for [toString]
    stands ahead of the probes for lists, [content], [text], [choices],
    [data], [message] and [response], and every array and every object
    without an own [toString] property passes it: for them the result is
    [response.toString()].  So [{choices:[{message:{content:"hi"}}]}] and
    [[{type:"text",text:"x"}]] both give ["[object Object]"], neither ["hi"]
    nor ["x"], and a list of text items gives the same text per item. *)
Theorem extract_later_probes_shadowed :
  (forall s, extractContentFromResponse (VStr s) = Ok (VStr s))
  /\ (forall fields c,
        opt (opt (VObj fields) "message") "content" = c -> truthy c = true ->
        extractContentFromResponse (VObj fields) = Ok c)
  /\ (forall items, extractContentFromResponse (VArr items) = call_toString (VArr items))
  /\ (forall fields,
        own fields "toString" = None ->
        truthy (opt (opt (VObj fields) "message") "content") = false ->
        extractContentFromResponse (VObj fields) = Ok (VStr "[object Object]"))
  /\ extractContentFromResponse
       (VObj [("choices", VArr [VObj [("message", VObj [("content", VStr "hi")])]])])
     = Ok (VStr "[object Object]")
  /\ extractContentFromResponse (VArr [VObj [("type", VStr "text"); ("text", VStr "x")]])
     = Ok (VStr "[object Object]")
  /\ extractContentFromResponse
       (VArr [VObj [("text", VStr "a")]; VObj [("content", VStr "b")]])
     = Ok (VStr "[object Object],[object Object]").
Proof.
  repeat split; try reflexivity.
  - intros fields c Hc Ht. unfold extractContentFromResponse.
    rewrite Hc, Ht. simpl strict_eq_str. cbv iota.
    assert (Hn : nullish (opt (VObj fields) "message") = false).
    { apply truthy_opt_not_nullish with (k := "content"). rewrite Hc. exact Ht. }
    rewrite (dot_guarded (VObj fields)) by reflexivity. cbn [rbind].
    rewrite dot_guarded by exact Hn. rewrite Hc. reflexivity.
  - intros fields Hts Hmc. rewrite extract_inherited_toString.
    + unfold call_toString. simpl. rewrite Hts. reflexivity.
    + simpl. discriminate.
    + exact Hmc.
    + simpl. rewrite Hts. reflexivity.
Qed.



Lemma extract_total_off_arrays response :
  isArray response = false -> exists v, extractContentFromResponse response = Ok v.
Proof.
  intros Harr.
  destruct (extractContentFromResponse response) as [v|e] eqn:E; [eauto|exfalso].
  revert E. unfold extractContentFromResponse.
  destruct (strict_eq_str (VStr (typeof response)) "string") eqn:Hs; [discriminate|].
  destruct (truthy (opt (opt response "message") "content")) eqn:H1.
  { rewrite !dot_guarded by eauto 6 with guards. simpl.
    rewrite dot_guarded by eauto 6 with guards. discriminate. }
  destruct (has_callable_toString response) eqn:H2.
  { destruct response; simpl in *; try discriminate.
    - destruct b; discriminate.
    - unfold call_toString. simpl.
      destruct (own fields "toString"); [discriminate H2 | discriminate]. }
  rewrite Harr. simpl.
  destruct (truthy (opt response "content")) eqn:H5.
  { rewrite dot_guarded by eauto 6 with guards. discriminate. }
  destruct (truthy (opt response "text")) eqn:H6.
  { rewrite dot_guarded by eauto 6 with guards. discriminate. }
  destruct (truthy (opt response "choices")
            && truthy (opt (opt (opt0 (opt response "choices")) "message") "content")) eqn:H7.
  { apply andb_prop in H7 as [H7 H7'].
    rewrite dot_guarded by eauto 6 with guards. simpl.
    rewrite idx0_guarded by eauto 6 with guards. simpl.
    assert (Hm : nullish (opt (opt0 (opt response "choices")) "message") = false)
      by eauto 6 with guards.
    rewrite dot_guarded by eauto 6 with guards. simpl.
    rewrite dot_guarded by exact Hm. discriminate. }
  destruct (truthy (opt (opt response "data") "content")) eqn:H8.
  { assert (Hd : nullish (opt response "data") = false)
      by eauto 6 with guards.
    rewrite dot_guarded by eauto 6 with guards. simpl.
    rewrite dot_guarded by exact Hd. discriminate. }
  destruct (truthy (opt (opt response "data") "text")) eqn:H9.
  { assert (Hd : nullish (opt response "data") = false)
      by eauto 6 with guards.
    rewrite dot_guarded by eauto 6 with guards. simpl.
    rewrite dot_guarded by exact Hd. discriminate. }
  destruct (truthy (opt response "message")) eqn:H10.
  { rewrite dot_guarded by eauto 6 with guards. discriminate. }
  destruct (truthy (opt response "response")) eqn:H11.
  { rewrite dot_guarded by eauto 6 with guards. discriminate. }
  discriminate.
Qed.

Lemma to_string_unconvertible : forall v,
  if unconvertible v then to_string v = Throw err_to_primitive
  else exists s, to_string v = Ok s.
Proof.
  fix IH 1. intros v. destruct v as [| | b | n | s | items | fields]; simpl;
    try (eexists; reflexivity).
  - destruct b; eexists; reflexivity.
  - assert (H : if existsb unconvertible items
                then sequence (map (fun x => if nullish x then Ok "" else to_string x) items)
                     = Throw err_to_primitive
                else exists l,
                    sequence (map (fun x => if nullish x then Ok "" else to_string x) items)
                    = Ok l).
    { clear -IH. revert items. fix IHl 1. intros [|x rest]; simpl; [eexists; reflexivity|].
      specialize (IH x). specialize (IHl rest).
      destruct (unconvertible x) eqn:Hx; simpl.
      - destruct (nullish x) eqn:Hn; [destruct x; discriminate|].
        rewrite IH. reflexivity.
      - assert (Hhead : exists s, (if nullish x then Ok "" else to_string x) = Ok s).
        { destruct (nullish x); [eexists; reflexivity | exact IH]. }
        destruct Hhead as [s ->]. simpl.
        destruct (existsb unconvertible rest).
        + rewrite IHl. reflexivity.
        + destruct IHl as [l ->]. eexists. reflexivity. }
    destruct (existsb unconvertible items).
    + rewrite H. reflexivity.
    + destruct H as [l ->]. eexists. reflexivity.
  - destruct (own fields "toString"); [reflexivity | eexists; reflexivity].
Qed.

Lemma extract_of_array items :
  extractContentFromResponse (VArr items) = call_toString (VArr items).
Proof. reflexivity. Qed.

Lemma extract_array items :
  if unconvertible (VArr items)
  then extractContentFromResponse (VArr items) = Throw err_to_primitive
  else exists s, extractContentFromResponse (VArr items) = Ok (VStr s).
Proof.
  rewrite extract_of_array. unfold call_toString.
  pose proof (to_string_unconvertible (VArr items)) as H.
  destruct (unconvertible (VArr items)); [rewrite H; reflexivity|].
  destruct H as [s ->]. eexists. reflexivity.
Qed.

(** Whatever the normaliser throws is the [TypeError] of a conversion. *)
Lemma extract_throws response e :
  extractContentFromResponse response = Throw e -> e = err_to_primitive.
Proof.
  intros E. destruct (isArray response) eqn:Ha.
  - destruct response; try discriminate.
    pose proof (extract_array items) as H.
    destruct (unconvertible (VArr items)); [congruence|].
    destruct H as [s Hs]. congruence.
  - destruct (extract_total_off_arrays response Ha) as [v Hv]. congruence.
Qed.


(** C6 (what the code does).  [{foo: 1, bar: 2}] passes the [toString]
    probe: the result is ["[object Object]"], which names no field.  Where
    the last branch is reached ([null], or a record whose own [toString]
    is not a function) the text names the [typeof] of the payload and no
    field. *)
Theorem extract_unrecognized_record :
  extractContentFromResponse (VObj [("foo", VNum 1); ("bar", VNum 2)])
  = Ok (VStr "[object Object]")
  /\ extractContentFromResponse VNull
     = Ok (VStr "Received response but could not extract text content. Response type: object")
  /\ extractContentFromResponse (VObj [("toString", VNum 0); ("foo", VNum 1); ("bar", VNum 2)])
     = Ok (VStr "Received response but could not extract text content. Response type: object").
Proof. repeat split; reflexivity. Qed.

(** ** Calls run on their own *)

Section Exec.
Context {W : Type}.
Implicit Types w : W.

Lemma run_bind_res {A B} (r : res W A) (f : A -> M W B) :
  run (bind_res r f) =
  match run r with
  | (w, Some (Ok a)) => run (f a w)
  | (w, Some (Throw e)) => (w, Some (Throw e))
  | (w, None) => (w, None)
  end.
Proof.
  induction r as [w [a|e] | w k IH | w]; simpl; auto.
Qed.

Lemma run_catch_res {A} (r : res W A) (h : error -> M W A) :
  run (catch_res r h) =
  match run r with
  | (w, Some (Throw e)) => run (h e w)
  | x => x
  end.
Proof.
  induction r as [w [a|e] | w k IH | w]; simpl; auto.
Qed.

Lemma run_finally_res {A} (r : res W A) (fin : W -> W) :
  run (finally_res r fin) =
  match run r with
  | (w, Some x) => (fin w, Some x)
  | (w, None) => (w, None)
  end.
Proof.
  induction r as [w x | w k IH | w]; simpl; auto.
Qed.

Lemma run_later {A} (r : res W A) : run (later r) = run r.
Proof.
  induction r as [w x | w k IH | w]; simpl; auto.
Qed.

Lemma exec_bind {A B} (m : M W A) (f : A -> M W B) w :
  exec (bind m f) w =
  match exec m w with
  | (w', Some (Ok a)) => exec (f a) w'
  | (w', Some (Throw e)) => (w', Some (Throw e))
  | (w', None) => (w', None)
  end.
Proof. apply run_bind_res. Qed.

Lemma exec_try_catch {A} (m : M W A) (h : error -> M W A) w :
  exec (try_catch m h) w =
  match exec m w with
  | (w', Some (Throw e)) => exec (h e) w'
  | x => x
  end.
Proof. apply run_catch_res. Qed.

Lemma exec_try_finally {A} (m : M W A) (fin : W -> W) w :
  exec (try_finally m fin) w =
  match exec m w with
  | (w', Some x) => (fin w', Some x)
  | (w', None) => (w', None)
  end.
Proof. apply run_finally_res. Qed.

Lemma exec_await_call {A} (m : M W A) w : exec (await_call m) w = exec m w.
Proof. apply run_later. Qed.

Lemma exec_await {A} (p : settle A) w :
  exec (await p) w =
  match p with
  | Resolves a => (w, Some (Ok a))
  | Rejects e => (w, Some (Throw e))
  | NeverSettles => (w, None)
  end.
Proof. destruct p; reflexivity. Qed.

Lemma exec_ret {A} (a : A) w : exec (ret a) w = (w, Some (Ok a)).
Proof. reflexivity. Qed.

Lemma exec_raise {A} e w : exec (raise (A := A) e) w = (w, Some (Throw e)).
Proof. reflexivity. Qed.

Lemma exec_modify (f : W -> W) w : exec (modify f) w = (f w, Some (Ok tt)).
Proof. reflexivity. Qed.

Lemma exec_gets {A} (f : W -> A) w : exec (gets f) w = (w, Some (Ok (f w))).
Proof. reflexivity. Qed.

Lemma exec_lift_result {A} (r : result A) w : exec (lift_result r) w = (w, Some r).
Proof. reflexivity. Qed.

Lemma never_rejects_run {A} (r : res W A) e : never_rejects r -> snd (run r) <> Some (Throw e).
Proof.
  induction r as [w [a|e'] | w k IH | w]; simpl; intros H;
    first [discriminate | contradiction | auto].
Qed.

End Exec.

(** ** What a call can reject with *)

Section Rejections.
Context {W : Type}.
Implicit Types P Q : error -> Prop.

Lemma rejects_only_any {A} (r : res W A) : rejects_only (fun _ => True) r.
Proof. induction r as [w [a|e] | w k IH | w]; simpl; auto. Qed.

Lemma rejects_only_bind_res {A B} P (r : res W A) (f : A -> M W B) :
  rejects_only P r -> (forall a w, rejects_only P (f a w)) -> rejects_only P (bind_res r f).
Proof. intros Hr Hf. induction r as [w [a|e] | w k IH | w]; simpl in *; auto. Qed.

Lemma rejects_only_catch_res {A} P Q (r : res W A) (h : error -> M W A) :
  rejects_only Q r -> (forall e w, Q e -> rejects_only P (h e w)) ->
  rejects_only P (catch_res r h).
Proof. intros Hr Hh. induction r as [w [a|e] | w k IH | w]; simpl in *; auto. Qed.

Lemma rejects_only_finally_res {A} P (r : res W A) (fin : W -> W) :
  rejects_only P r -> rejects_only P (finally_res r fin).
Proof. induction r as [w [a|e] | w k IH | w]; simpl; auto. Qed.

Lemma rejects_only_later {A} P (r : res W A) : rejects_only P r -> rejects_only P (later r).
Proof. induction r as [w [a|e] | w k IH | w]; simpl; auto. Qed.

Lemma rejects_only_never {A} (r : res W A) :
  rejects_only (fun _ => False) r -> never_rejects r.
Proof. induction r as [w [a|e] | w k IH | w]; simpl; auto. Qed.

Lemma throws_ret {A} P (a : A) : throws (W := W) P (ret a).
Proof. intros w. exact I. Qed.

Lemma throws_raise {A} P e : P e -> throws (W := W) P (raise (A := A) e).
Proof. intros H w. exact H. Qed.

Lemma throws_gets {A} P (f : W -> A) : throws (W := W) P (gets f).
Proof. intros w. exact I. Qed.

Lemma throws_modify P (f : W -> W) : throws (W := W) P (modify f).
Proof. intros w. exact I. Qed.

Lemma throws_lift_result {A} P (r : result A) :
  (forall e, r = Throw e -> P e) -> throws (W := W) P (lift_result r).
Proof. intros H w. destruct r as [a|e]; simpl; auto. Qed.

Lemma throws_await {A} P (p : settle A) :
  (forall e, p = Rejects e -> P e) -> throws (W := W) P (await p).
Proof. intros H w. destruct p as [a|e|]; simpl; auto. Qed.

Lemma throws_bind {A B} P (m : M W A) (f : A -> M W B) :
  throws (W := W) P m -> (forall a, throws (W := W) P (f a)) -> throws (W := W) P (bind m f).
Proof. intros Hm Hf w. apply rejects_only_bind_res; [apply Hm | intros a w'; apply Hf]. Qed.

Lemma throws_try_catch {A} P Q (m : M W A) (h : error -> M W A) :
  throws (W := W) Q m -> (forall e, Q e -> throws (W := W) P (h e)) -> throws (W := W) P (try_catch m h).
Proof.
  intros Hm Hh w. apply rejects_only_catch_res with (Q := Q); [apply Hm|].
  intros e w' He. apply Hh, He.
Qed.

Lemma throws_any {A} (m : M W A) : throws (W := W) (fun _ => True) m.
Proof. intros w. apply rejects_only_any. Qed.

Lemma throws_try_finally {A} P (m : M W A) (fin : W -> W) :
  throws (W := W) P m -> throws (W := W) P (try_finally m fin).
Proof. intros Hm w. apply rejects_only_finally_res, Hm. Qed.

Lemma throws_await_call {A} P (m : M W A) : throws (W := W) P m -> throws (W := W) P (await_call m).
Proof. intros Hm w. apply rejects_only_later, Hm. Qed.

End Rejections.

Lemma error_text_Error (m : string) : error_text (Error m) = Ok ("Error: " ++ m).
Proof. reflexivity. Qed.

Lemma message_of_Error (m : string) : message_of (Error m) = Ok (VStr m).
Proof. reflexivity. Qed.

Lemma readable_Error (m : string) : readable (Error m).
Proof. exists ("Error: " ++ m). reflexivity. Qed.

Lemma message_of_throws e t : message_of e = Throw t -> exists m, t = Error m.
Proof.
  destruct e as [m|v]; simpl; [discriminate|].
  destruct (nullish v); [|discriminate]. intros [= <-]. eauto.
Qed.

(** ** The page *)

Lemma set_content_twice e x y c : set_content e x (set_content e y c) = set_content e x c.
Proof.
  unfold set_content.
  destruct (heap c !! e) as [n|] eqn:E; [|rewrite E; reflexivity].
  assert (Hlt : e < length (heap c)) by (eapply lookup_lt_Some; eauto).
  destruct n; simpl; rewrite ?E; try reflexivity;
    rewrite list_lookup_insert_eq by exact Hlt; rewrite list_insert_insert_eq; reflexivity.
Qed.

Lemma set_content_children e x c : children (set_content e x c) = children c.
Proof.
  unfold set_content. destruct (heap c !! e) as [[]|]; reflexivity.
Qed.

Lemma set_content_assistant e x y c :
  heap c !! e = Some (AssistantMessage y) ->
  set_content e x c = {| heap := <[e := AssistantMessage x]> (heap c); children := children c |}.
Proof. unfold set_content. intros ->. reflexivity. Qed.

Lemma appendChild_lookup n c :
  heap (fst (appendChild n c)) !! snd (appendChild n c) = Some n.
Proof.
  simpl. rewrite lookup_app_r by lia. rewrite Nat.sub_diag. reflexivity.
Qed.

Lemma find_ext_in {A} (f g : A -> bool) l :
  (forall x, In x l -> f x = g x) -> List.find f l = List.find g l.
Proof.
  induction l as [|a l IH]; simpl; intros H; [reflexivity|].
  rewrite <- (H a) by auto. destruct (f a); [reflexivity|]. apply IH. auto.
Qed.

Lemma find_app_last {A} (f : A -> bool) l n :
  List.find f l = None -> f n = true -> List.find f (l ++ [n])%list = Some n.
Proof.
  induction l as [|a l IH]; simpl; intros Hl Hn; [rewrite Hn; reflexivity|].
  destruct (f a); [discriminate|]. auto.
Qed.

Lemma filter_drop_last l n :
  (forall x, In x l -> x <> n) ->
  List.filter (fun i => negb (Nat.eqb i n)) (l ++ [n])%list = l.
Proof.
  induction l as [|a l IH]; simpl; intros H.
  - rewrite Nat.eqb_refl. reflexivity.
  - destruct (Nat.eqb_spec a n) as [->|_]; simpl.
    + exfalso. apply (H n); auto.
    + f_equal. apply IH. auto.
Qed.

Lemma well_formed_In c i : well_formed c -> In i (children c) -> i < length (heap c).
Proof.
  unfold well_formed. rewrite Forall_forall. intros H Hi. apply H.
  apply list_elem_of_In. exact Hi.
Qed.

Lemma well_formed_remove e c : well_formed c -> well_formed (remove e c).
Proof.
  unfold well_formed, remove. simpl. rewrite !Forall_forall. intros H i Hi.
  apply H. apply list_elem_of_In in Hi. apply filter_In in Hi as [Hi _].
  apply list_elem_of_In. exact Hi.
Qed.

(** Elements created later do not change what the children are and show. *)
Lemma querySelector_extend sel c ns l :
  Forall (fun i => i < length (heap c)) l ->
  List.find (fun i => match (heap c ++ ns)%list !! i with Some n => sel n | None => false end) l
  = List.find (fun i => match heap c !! i with Some n => sel n | None => false end) l.
Proof.
  intros H. apply find_ext_in. intros i Hi.
  rewrite Forall_forall in H. rewrite lookup_app_l; [reflexivity|].
  apply H. apply list_elem_of_In. exact Hi.
Qed.

Lemma view_extend c ns l :
  Forall (fun i => i < length (heap c)) l ->
  omap (fun i => (heap c ++ ns)%list !! i) l = omap (fun i => heap c !! i) l.
Proof.
  induction 1 as [|i l Hi _ IH]; [reflexivity|]. csimpl.
  rewrite lookup_app_l by exact Hi. rewrite IH. reflexivity.
Qed.

(** In a window that showed no typing indicator, showing one and removing it
    leaves the children as they were. *)
Lemma remove_typing_show_typing c :
  well_formed c ->
  querySelector typing_indicator c = None ->
  UI.remove_typing (UI.show_typing c)
  = {| heap := (heap c ++ [TypingIndicator])%list; children := children c |}.
Proof.
  intros Hwf Hno. unfold UI.remove_typing, UI.show_typing, querySelector. simpl.
  rewrite find_app_last with (n := length (heap c)).
  - unfold remove. simpl. f_equal. apply filter_drop_last.
    intros x Hx. pose proof (well_formed_In _ _ Hwf Hx). lia.
  - rewrite querySelector_extend by exact Hwf. exact Hno.
  - rewrite lookup_app_r by lia. rewrite Nat.sub_diag. reflexivity.
Qed.

(** After that, a message goes under what the window showed, less the
    placeholder. *)
Lemma view_message_after_typing content c :
  well_formed c ->
  querySelector typing_indicator c = None ->
  view (UI.show_message content (UI.remove_typing (UI.show_typing c)))
  = (view (UI.remove_placeholder c) ++ [AssistantMessage (Formatted content)])%list.
Proof.
  intros Hwf Hno. rewrite remove_typing_show_typing by assumption.
  unfold UI.show_message, UI.append_message, UI.remove_placeholder, querySelector. simpl.
  rewrite querySelector_extend by exact Hwf.
  destruct (List.find _ (children c)) as [e|]; unfold view; simpl.
  - rewrite omap_app. simpl.
    rewrite lookup_app_r by (rewrite length_app; simpl; lia).
    rewrite length_app. simpl. replace (_ - _) with 0 by lia. simpl.
    f_equal. rewrite <- app_assoc. apply view_extend.
    apply (well_formed_remove e c Hwf).
  - rewrite omap_app. simpl.
    rewrite lookup_app_r by (rewrite length_app; simpl; lia).
    rewrite length_app. simpl. replace (_ - _) with 0 by lia. simpl.
    f_equal. rewrite <- app_assoc. apply view_extend. exact Hwf.
Qed.

(** ** The grid's panels *)

Section Panels.
Import UI.

Lemma world_eq (w w' : world) :
  chatWindows w = chatWindows w' -> calls w = calls w' -> w = w'.
Proof. destruct w, w'; simpl; intros -> ->; reflexivity. Qed.

Lemma set_window_on_window modelId f c w :
  chatWindows w !! modelId = Some c -> set_window modelId (f c) w = on_window modelId f w.
Proof.
  intros H. apply world_eq; [|reflexivity]. simpl.
  apply map_eq. intros j. rewrite lookup_alter, lookup_insert.
  destruct (decide (modelId = j)) as [<-|]; [rewrite H|]; reflexivity.
Qed.

Lemma on_window_absent modelId f w :
  chatWindows w !! modelId = None -> on_window modelId f w = w.
Proof.
  intros H. apply world_eq; [|reflexivity]. simpl.
  apply map_eq. intros j. rewrite lookup_alter.
  destruct (decide (modelId = j)) as [<-|]; [rewrite H|]; reflexivity.
Qed.

Lemma on_window_compose modelId f g w :
  on_window modelId f (on_window modelId g w) = on_window modelId (f ∘ g) w.
Proof.
  apply world_eq; [|reflexivity]. simpl. apply alter_alter_eq.
Qed.

Lemma on_window_lookup modelId f w :
  chatWindows (on_window modelId f w) !! modelId = f <$> chatWindows w !! modelId.
Proof. apply lookup_alter_eq. Qed.

Lemma on_window_lookup_ne modelId other f w :
  modelId <> other ->
  chatWindows (on_window modelId f w) !! other = chatWindows w !! other.
Proof. intros H. simpl. apply lookup_alter_ne. exact H. Qed.

Lemma on_window_log modelId f c w :
  on_window modelId f (log_call modelId c w) = log_call modelId c (on_window modelId f w).
Proof. reflexivity. Qed.

Lemma showTypingIndicator_eq modelId w :
  showTypingIndicator modelId w =
  Done (on_window modelId show_typing w)
       (Ok ((fun c => length (heap c)) <$> chatWindows w !! modelId)).
Proof.
  unfold showTypingIndicator.
  destruct (chatWindows w !! modelId) as [c|] eqn:E; simpl.
  - rewrite <- (set_window_on_window _ show_typing c) by exact E. reflexivity.
  - rewrite on_window_absent by exact E. reflexivity.
Qed.

Lemma removeTypingIndicator_eq modelId w :
  removeTypingIndicator modelId w = Done (on_window modelId remove_typing w) (Ok tt).
Proof.
  unfold removeTypingIndicator.
  destruct (chatWindows w !! modelId) as [c|] eqn:E; simpl.
  - rewrite <- (set_window_on_window _ remove_typing c) by exact E. reflexivity.
  - rewrite on_window_absent by exact E. reflexivity.
Qed.

Lemma displayAssistantMessage_eq modelId content w :
  displayAssistantMessage modelId content w =
  Done (on_window modelId (show_message content) w)
       (Ok ((fun c => snd (append_message content c)) <$> chatWindows w !! modelId)).
Proof.
  unfold displayAssistantMessage.
  destruct (chatWindows w !! modelId) as [c|] eqn:E; simpl.
  - rewrite <- (set_window_on_window _ (show_message content) c) by exact E. reflexivity.
  - rewrite on_window_absent by exact E. reflexivity.
Qed.

Lemma set_message_eq modelId e x w :
  set_message modelId (Some e) x w = Done (on_window modelId (set_content e x) w) (Ok tt).
Proof.
  unfold set_message.
  destruct (chatWindows w !! modelId) as [c|] eqn:E; simpl.
  - rewrite <- (set_window_on_window _ (set_content e x) c) by exact E. reflexivity.
  - rewrite on_window_absent by exact E. reflexivity.
Qed.

Lemma set_message_null modelId x w : set_message modelId None x w = Done w (Ok tt).
Proof. reflexivity. Qed.

Lemma exec_showTypingIndicator modelId w :
  exec (showTypingIndicator modelId) w =
  (on_window modelId show_typing w,
   Some (Ok ((fun c => length (heap c)) <$> chatWindows w !! modelId))).
Proof. unfold exec. rewrite showTypingIndicator_eq. reflexivity. Qed.

Lemma exec_removeTypingIndicator modelId w :
  exec (removeTypingIndicator modelId) w = (on_window modelId remove_typing w, Some (Ok tt)).
Proof. unfold exec. rewrite removeTypingIndicator_eq. reflexivity. Qed.

Lemma exec_displayAssistantMessage modelId content w :
  exec (displayAssistantMessage modelId content) w =
  (on_window modelId (show_message content) w,
   Some (Ok ((fun c => snd (append_message content c)) <$> chatWindows w !! modelId))).
Proof. unfold exec. rewrite displayAssistantMessage_eq. reflexivity. Qed.

Lemma exec_set_message modelId e x w :
  exec (set_message modelId (Some e) x) w =
  (on_window modelId (set_content e x) w, Some (Ok tt)).
Proof. unfold exec. rewrite set_message_eq. reflexivity. Qed.

Lemma exec_scrollToBottom modelId w : exec (scrollToBottom modelId) w = (w, Some (Ok tt)).
Proof. reflexivity. Qed.

End Panels.

(** ** Consuming a stream in the grid *)

Section GridStream.
Import UI Chat.

Lemma on_window_ext modelId f g w :
  (forall c, chatWindows w !! modelId = Some c -> f c = g c) ->
  on_window modelId f w = on_window modelId g w.
Proof.
  intros H. apply world_eq; [|reflexivity]. simpl. apply alter_ext. exact H.
Qed.

Lemma on_window_id modelId f w : (forall c, f c = c) -> on_window modelId f w = w.
Proof.
  intros H. apply world_eq; [|reflexivity]. simpl. apply alter_id. intros c _. apply H.
Qed.

Lemma exec_consume_part modelId messageDiv fullContent part w :
  exists F, loop_effect messageDiv F /\
    exec (consume_part modelId messageDiv fullContent part) w =
    (on_window modelId F w,
     Some (if truthy (opt part "text")
           then s <-! to_string (opt part "text") ; Ok (fullContent ++ s)
           else Ok fullContent)).
Proof.
  unfold consume_part.
  destruct (truthy (opt part "text")) eqn:Ht.
  - rewrite exec_bind, exec_lift_result, dot_guarded by eauto with guards.
    rewrite exec_bind, exec_lift_result.
    destruct (to_string (opt part "text")) as [s|err]; simpl.
    + rewrite exec_bind.
      destruct messageDiv as [d|].
      * exists (set_content d (Formatted (VStr (fullContent ++ s)))). split.
        { right. eauto. }
        rewrite exec_set_message. reflexivity.
      * exists (fun c => c). split; [left; reflexivity|].
        rewrite on_window_id by reflexivity. reflexivity.
    + exists (fun c => c). split; [left; reflexivity|].
      rewrite on_window_id by reflexivity. reflexivity.
  - exists (fun c => c). split; [left; reflexivity|].
    rewrite on_window_id by reflexivity. reflexivity.
Qed.

Lemma loop_effect_compose messageDiv F G :
  loop_effect messageDiv F -> loop_effect messageDiv G ->
  loop_effect messageDiv (G ∘ F).
Proof.
  intros [HF | (d & x & Hd & HF)] [HG | (d' & x' & Hd' & HG)].
  - left. intros c. simpl. rewrite HG, HF. reflexivity.
  - right. exists d', x'. split; [exact Hd'|]. intros c. simpl. rewrite HG, HF. reflexivity.
  - right. exists d, x. split; [exact Hd|]. intros c. simpl. rewrite HG, HF. reflexivity.
  - right. exists d', x'. split; [exact Hd'|]. intros c. simpl. rewrite HG, HF.
    assert (d = d') as -> by congruence. apply set_content_twice.
Qed.

Lemma exec_consume_loop modelId messageDiv ps e : forall fullContent w,
  exists F, loop_effect messageDiv F /\
    exec (for_await ps e (consume_part modelId messageDiv) fullContent) w =
    (on_window modelId F w, stream_text ps e fullContent).
Proof.
  induction ps as [|part rest IH]; intros fullContent w.
  - exists (fun c => c). split; [left; reflexivity|].
    rewrite on_window_id by reflexivity. simpl.
    destruct e; reflexivity.
  - simpl for_await. rewrite exec_bind, exec_await, exec_bind.
    destruct (exec_consume_part modelId messageDiv fullContent part w) as (F & HF & ->).
    simpl stream_text.
    destruct (truthy (opt part "text")).
    + destruct (to_string (opt part "text")) as [s|err]; simpl.
      * destruct (IH (fullContent ++ s) (on_window modelId F w)) as (G & HG & ->).
        exists (G ∘ F). split; [apply loop_effect_compose; assumption|].
        rewrite on_window_compose. reflexivity.
      * exists F. split; [assumption|reflexivity].
    + destruct (IH fullContent (on_window modelId F w)) as (G & HG & ->).
      exists (G ∘ F). split; [apply loop_effect_compose; assumption|].
      rewrite on_window_compose. reflexivity.
Qed.

Lemma last_created_show_message content c :
  last_created (show_message content c) = snd (append_message content c).
Proof.
  unfold last_created, show_message, append_message. simpl.
  rewrite length_app. simpl. lia.
Qed.

(** The whole of [handleStreamingResponseForModel], run on its own: the
    typing indicator goes, an empty message is appended, the loop sets its
    content as parts arrive.  An error of the stream or of a conversion ends
    up as the content of that message, and the call returns normally, when
    the handler can read the error's message; when it cannot, the handler
    itself throws, and the message keeps the text streamed so far. *)
Lemma exec_handleStreamingResponseForModel (response : stream) (modelId : string) (w : world) :
  exists F,
    loop_effect ((fun c => snd (append_message (VStr "") c))
                   <$> chatWindows (on_window modelId remove_typing w) !! modelId) F /\
    exec (handleStreamingResponseForModel response modelId) w =
    match stream_text (parts response) (ending response) "" with
    | Some (Ok _) =>
        (on_window modelId F (on_window modelId (show_message (VStr "") ∘ remove_typing) w),
         Some (Ok tt))
    | Some (Throw err) =>
        match error_text err with
        | Ok text =>
            (on_window modelId
               (fun c => set_content (last_created c) (Raw text) c)
               (on_window modelId (show_message (VStr "") ∘ remove_typing) w),
             Some (Ok tt))
        | Throw t =>
            (on_window modelId F
               (on_window modelId (show_message (VStr "") ∘ remove_typing) w),
             match chatWindows w !! modelId with
             | Some _ => Some (Throw t)
             | None => Some (Ok tt)
             end)
        end
    | None =>
        (on_window modelId F (on_window modelId (show_message (VStr "") ∘ remove_typing) w),
         None)
    end.
Proof.
  unfold handleStreamingResponseForModel.
  rewrite exec_bind, exec_removeTypingIndicator.
  rewrite exec_bind, exec_displayAssistantMessage.
  rewrite on_window_compose.
  set (w1 := on_window modelId (show_message (VStr "") ∘ remove_typing) w).
  set (messageDiv := (fun c => snd (append_message (VStr "") c)) <$> _).
  rewrite exec_try_catch, exec_bind.
  destruct (exec_consume_loop modelId messageDiv (parts response) (ending response) "" w1)
    as (F & HF & ->).
  exists F. split; [exact HF|].
  destruct (stream_text (parts response) (ending response) "") as [[text|err]|];
    try reflexivity.
  subst messageDiv. rewrite on_window_lookup in *.
  destruct (chatWindows w !! modelId) as [c0|] eqn:E0; simpl fmap in *; cbv iota.
  - rewrite exec_bind, exec_lift_result.
    destruct (error_text err) as [text|t]; [|reflexivity].
    rewrite exec_set_message, on_window_compose.
    f_equal. apply on_window_ext. intros c Hc. simpl.
    subst w1. rewrite on_window_lookup, E0 in Hc. simpl in Hc. injection Hc as <-.
    rewrite last_created_show_message.
    destruct HF as [HF | (d & x & Hd & HF)]; rewrite HF; [reflexivity|].
    injection Hd as <-. apply set_content_twice.
  - rewrite exec_ret.
    assert (Hw1 : chatWindows w1 !! modelId = None).
    { subst w1. rewrite on_window_lookup, E0. reflexivity. }
    destruct (error_text err); rewrite !on_window_absent by exact Hw1; reflexivity.
Qed.

End GridStream.

(** ** Dispatches of the grid, run on their own *)

Create Rewrite HintDb exec.
#[local] Hint Rewrite @exec_bind @exec_try_catch @exec_try_finally @exec_await_call
  @exec_await @exec_ret @exec_raise @exec_modify @exec_gets @exec_lift_result : exec.
#[local] Hint Rewrite exec_showTypingIndicator exec_removeTypingIndicator
  exec_displayAssistantMessage exec_scrollToBottom : exec.
#[local] Hint Rewrite error_text_Error message_of_Error : exec.

Ltac exec_steps := repeat (progress (autorewrite with exec; cbv beta iota)).

Ltac use_answers :=
  repeat match goal with
         | H : chat_stream _ _ _ = _ |- _ => progress (rewrite H)
         | H : chat_direct _ _ _ = _ |- _ => progress (rewrite H)
         | H : _ = @Some model _ |- _ => progress (rewrite H)
         | H : _ = @None model |- _ => progress (rewrite H)
         | H : extractContentFromResponse _ = _ |- _ => progress (rewrite H)
         | H : error_text _ = _ |- _ => progress (rewrite H)
         | H : message_of _ = _ |- _ => progress (rewrite H)
         end.

Ltac grid_exec :=
  unfold Chat.sendMessageToModel, Chat.chat_streaming, Chat.chat_blocking,
    Chat.displayResponseForModel, Chat.call_of, Chat.turns_of, Chat.flat_of in *;
  repeat (progress (use_answers; exec_steps; cbn [asyncIterable length Nat.ltb Nat.leb])).

Ltac grid_cases :=
  repeat (grid_exec;
    match goal with
    | |- context [match chat_stream ?g ?r ?p with _ => _ end] =>
        let E := fresh "E" in destruct (chat_stream g r p) as [[?|?]|?|] eqn:E
    | |- context [match chat_direct ?g ?r ?p with _ => _ end] =>
        let E := fresh "E" in destruct (chat_direct g r p) as [?|?|] eqn:E
    | |- context [match extractContentFromResponse ?v with _ => _ end] =>
        let E := fresh "E" in destruct (extractContentFromResponse v) as [?|?] eqn:E
    | |- context [match error_text ?e with _ => _ end] =>
        let E := fresh "E" in destruct (error_text e) as [?|?] eqn:E
    | |- context [match UI.chatWindows ?w !! ?m with _ => _ end] =>
        let E := fresh "E" in destruct (UI.chatWindows w !! m) as [?|] eqn:E
    | |- context [exec (Chat.handleStreamingResponseForModel ?s ?m) ?w] =>
        let F := fresh "F" in
        destruct (exec_handleStreamingResponseForModel s m w) as (F & _ & ->);
        destruct (stream_text (parts s) (ending s) "") as [[?|?]|]
    end);
  try grid_exec.

Ltac calls_tail :=
  cbn [fst UI.calls UI.on_window UI.log_call]; rewrite <- ?app_assoc; cbn [app];
  eexists; reflexivity.

Ltac throws_step :=
  match goal with
  | |- throws _ (bind _ _) => apply throws_bind; [|intros ?]
  | |- throws _ (try_catch _ _) =>
      apply throws_try_catch with (Q := fun _ => True); [apply throws_any | intros ? _]
  | |- throws _ (try_finally _ _) => apply throws_try_finally
  | |- throws _ (await_call _) => apply throws_await_call
  | |- throws _ (ret _) => apply throws_ret
  | |- throws _ (gets _) => apply throws_gets
  | |- throws _ (modify _) => apply throws_modify
  | |- throws _ (raise (Error _)) => apply throws_raise, readable_Error
  | |- throws _ (if ?b then _ else _) => destruct b
  | |- throws _ (match ?x with _ => _ end) => destruct x
  end.

Section GridDispatch.
Import UI Chat.
Variable getModel : string -> option model.

Lemma extract_throws_readable response e :
  extractContentFromResponse response = Throw e -> readable e.
Proof. intros E. apply extract_throws in E as ->. apply readable_Error. Qed.

Lemma throws_showTypingIndicator P modelId : throws P (showTypingIndicator modelId).
Proof. intros w. rewrite showTypingIndicator_eq. exact I. Qed.

Lemma throws_removeTypingIndicator P modelId : throws P (removeTypingIndicator modelId).
Proof. intros w. rewrite removeTypingIndicator_eq. exact I. Qed.

Lemma throws_displayAssistantMessage P modelId content :
  throws P (displayAssistantMessage modelId content).
Proof. intros w. rewrite displayAssistantMessage_eq. exact I. Qed.

(** What reaches the outer handler of a dispatch can be shown, when what the
    gateway rejects direct calls with can. *)
Lemma throws_dispatch_body g message images modelId (handler : error -> M world unit) :
  rejects_readably g ->
  (forall e, readable e -> throws (fun _ => False) (handler e)) ->
  forall body,
    sendMessageToModel getModel g message images modelId = try_catch body handler ->
    throws readable body ->
    forall w, never_rejects (sendMessageToModel getModel g message images modelId w).
Proof.
  intros Hg Hh body -> Hb w. apply rejects_only_never.
  apply (throws_try_catch (fun _ => False) readable body handler Hb Hh).
Qed.

Lemma never_rejects_sendMessageToModel g message images modelId :
  rejects_readably g ->
  forall w, never_rejects (sendMessageToModel getModel g message images modelId w).
Proof.
  intros Hg. eapply throws_dispatch_body; [exact Hg | | reflexivity |].
  - intros e [text He].
    apply throws_bind; [apply throws_removeTypingIndicator | intros _].
    apply throws_bind; [apply throws_lift_result; congruence | intros text'].
    apply throws_bind; [apply throws_displayAssistantMessage | intros _].
    apply throws_ret.
  - unfold chat_blocking, displayResponseForModel, scrollToBottom.
    repeat first
      [ apply throws_showTypingIndicator
      | apply throws_removeTypingIndicator
      | apply throws_displayAssistantMessage
      | apply throws_lift_result; apply extract_throws_readable
      | apply throws_await; intros ? ?; eapply Hg; eassumption
      | throws_step ].
Qed.

Lemma alter3 (f g h : container -> container) modelId (ws : gmap string container) :
  alter f modelId (alter g modelId (alter h modelId ws)) = alter (f ∘ g ∘ h) modelId ws.
Proof. rewrite !alter_alter_eq. reflexivity. Qed.

(** X21.  A dispatch does not settle by rejection, however it is
    interleaved, when whatever the gateway rejects a direct call with has a
    message the handler can read.  When every attempt fails (the streaming
    calls reject or give no iterable, and both direct calls reject) and the
    last rejection can be read, the dispatch returns normally; the window of
    its model, and no other, is changed: the typing indicator is shown and
    removed, and a message with the description of the last error is
    appended.  The same holds when the model is not registered.  In a
    window that showed no typing indicator before, none is left, and the
    error message stands last.  When the last rejection cannot be read
    ([null], [undefined]), the handler itself throws after it has removed
    the typing indicator: the dispatch rejects and no message is appended.
    What is said of the window holds for a window none of whose messages
    holds markup. *)
Theorem failed_dispatch_reports_in_its_own_panel g message images modelId :
  (rejects_readably g ->
   forall w, never_rejects (sendMessageToModel getModel g message images modelId w))
  /\ (forall m w eB eC text,
        getModel modelId = Some m ->
        images = [] ->
        streaming_gave_nothing g m message ->
        chat_direct g (turns_of m message) (parameters m) = Rejects eB ->
        chat_direct g (flat_of m message) (parameters m) = Rejects eC ->
        error_text eC = Ok text ->
        inert_panel modelId w ->
        exists w',
          exec (sendMessageToModel getModel g message images modelId) w = (w', Some (Ok tt))
          /\ chatWindows w' !! modelId
             = (show_message (VStr text) ∘ remove_typing ∘ show_typing)
                 <$> chatWindows w !! modelId
          /\ (forall other, other <> modelId ->
                chatWindows w' !! other = chatWindows w !! other))
  /\ (forall w,
        getModel modelId = None ->
        inert_panel modelId w ->
        exists w',
          exec (sendMessageToModel getModel g message images modelId) w = (w', Some (Ok tt))
          /\ chatWindows w' !! modelId
             = (show_message (VStr ("Error: Model " ++ modelId ++ " not found"))
                  ∘ remove_typing ∘ show_typing) <$> chatWindows w !! modelId
          /\ (forall other, other <> modelId ->
                chatWindows w' !! other = chatWindows w !! other)
          /\ calls w' = calls w)
  /\ (forall c description,
        well_formed c ->
        inert_window c ->
        querySelector typing_indicator c = None ->
        view ((show_message (VStr ("Error: " ++ description)) ∘ remove_typing ∘ show_typing) c)
        = (view (remove_placeholder c)
             ++ [AssistantMessage (Formatted (VStr ("Error: " ++ description)))])%list)
  /\ (forall m w eB eC t,
        getModel modelId = Some m ->
        images = [] ->
        streaming_gave_nothing g m message ->
        chat_direct g (turns_of m message) (parameters m) = Rejects eB ->
        chat_direct g (flat_of m message) (parameters m) = Rejects eC ->
        error_text eC = Throw t ->
        inert_panel modelId w ->
        exists w',
          exec (sendMessageToModel getModel g message images modelId) w = (w', Some (Throw t))
          /\ chatWindows w' !! modelId
             = (remove_typing ∘ show_typing) <$> chatWindows w !! modelId
          /\ (forall other, other <> modelId ->
                chatWindows w' !! other = chatWindows w !! other)).
Proof.
  split; [apply never_rejects_sendMessageToModel|].
  split; [|split; [|split]].
  - intros m w eB eC text Hm -> Hstream HB HC Htext _.
    destruct Hstream as [[v HA] | (eA & HA & [[v HA'] | [eA' HA']])];
      grid_exec; (eexists; split; [reflexivity|]);
      cbn [chatWindows on_window log_call]; rewrite alter3;
      (split; [apply lookup_alter_eq | intros other Ho; apply lookup_alter_ne; congruence]).
  - intros w Hm _. grid_exec. eexists. split; [reflexivity|].
    cbn [chatWindows on_window log_call calls]. rewrite alter3.
    split; [apply lookup_alter_eq|].
    split; [intros other Ho; apply lookup_alter_ne; congruence | reflexivity].
  - intros c description Hwf _ Hno. apply view_message_after_typing; assumption.
  - intros m w eB eC t Hm -> Hstream HB HC Htext _.
    destruct Hstream as [[v HA] | (eA & HA & [[v HA'] | [eA' HA']])];
      grid_exec; (eexists; split; [reflexivity|]);
      cbn [chatWindows on_window log_call]; rewrite alter_alter_eq;
      (split; [apply lookup_alter_eq | intros other Ho; apply lookup_alter_ne; congruence]).
Qed.

(** X1.  For a dispatch without attachments to a registered model:
    when the first streaming call resolves with something that cannot be
    iterated, the next call is the direct one with the same turns; when it
    rejects, the next call is again a streaming one, with the system and
    user turns flattened into one text, and the direct call with the turns
    comes third if that gives nothing to iterate either; a direct call with
    the turns that rejects is followed by the direct call with the
    flattened text; and whenever the streaming calls gave nothing and a
    direct call resolves with a payload the normaliser accepts, the dispatch
    returns normally with that text displayed in the model's window, the
    typing indicator shown and removed, and no error message (this of a
    window none of whose messages holds markup). *)
Theorem fallback_order_in_the_grid g message modelId m w :
  getModel modelId = Some m ->
  (forall v,
     chat_stream g (turns_of m message) (parameters m) = Resolves (Data v) ->
     exists rest,
       calls (fst (exec (sendMessageToModel getModel g message [] modelId) w))
       = (calls w ++ call_of modelId m (turns_of m message) true
                  :: call_of modelId m (turns_of m message) false :: rest)%list)
  /\ (forall eA,
        chat_stream g (turns_of m message) (parameters m) = Rejects eA ->
        exists rest,
          calls (fst (exec (sendMessageToModel getModel g message [] modelId) w))
          = (calls w ++ call_of modelId m (turns_of m message) true
                     :: call_of modelId m (flat_of m message) true :: rest)%list
          /\ ((exists v, chat_stream g (flat_of m message) (parameters m) = Resolves (Data v))
               \/ (exists eA', chat_stream g (flat_of m message) (parameters m) = Rejects eA')
               -> exists rest', rest = call_of modelId m (turns_of m message) false :: rest'))
  /\ (forall eB,
        streaming_gave_nothing g m message ->
        chat_direct g (turns_of m message) (parameters m) = Rejects eB ->
        exists before,
          calls (fst (exec (sendMessageToModel getModel g message [] modelId) w))
          = (calls w ++ before ++ [call_of modelId m (turns_of m message) false;
                                   call_of modelId m (flat_of m message) false])%list)
  /\ (forall v content,
        streaming_gave_nothing g m message ->
        chat_direct g (turns_of m message) (parameters m) = Resolves v
        \/ (exists eB, chat_direct g (turns_of m message) (parameters m) = Rejects eB
            /\ chat_direct g (flat_of m message) (parameters m) = Resolves v) ->
        extractContentFromResponse v = Ok content ->
        inert_panel modelId w ->
        exists w',
          exec (sendMessageToModel getModel g message [] modelId) w = (w', Some (Ok tt))
          /\ chatWindows w' !! modelId
             = (show_message content ∘ remove_typing ∘ show_typing)
                 <$> chatWindows w !! modelId
          /\ (forall other, other <> modelId ->
                chatWindows w' !! other = chatWindows w !! other)).
Proof.
  intros Hm. split; [|split; [|split]].
  - intros v HA. grid_cases; calls_tail.
  - intros eA HA. grid_cases.
    all: cbn [fst calls on_window log_call]; rewrite <- ?app_assoc; cbn [app];
      eexists; (split; [reflexivity|]).
    all: intros [[? ?] | [? ?]]; try discriminate; eauto.
  - intros eB Hs HB.
    destruct Hs as [[v HA] | (eA & HA & [[v HA'] | [eA' HA']])]; grid_cases.
    all: cbn [fst calls on_window log_call]; rewrite <- ?app_assoc; cbn [app].
    all: first [ exists [call_of modelId m (turns_of m message) true]; reflexivity
               | exists [call_of modelId m (turns_of m message) true;
                         call_of modelId m (flat_of m message) true]; reflexivity ].
  - intros v content Hs HBC Hx _.
    destruct Hs as [[v' HA] | (eA & HA & [[v' HA'] | [eA' HA']])];
      destruct HBC as [HB | (eB & HB & HC)];
      grid_exec; (eexists; split; [reflexivity|]);
      cbn [chatWindows on_window log_call]; rewrite alter3;
      (split; [apply lookup_alter_eq | intros other Ho; apply lookup_alter_ne; congruence]).
Qed.

End GridDispatch.


(** ** The focused chat: a send while another is in flight *)

Section SecondSend.
Import SingleChat.
Variable getModel : string -> option model.

(** C7 (amended).  While a send is in flight, a second send returns at once,
    leaves the conversation, the messages, the model and the flag as they
    are, and calls the gateway not at all; with a model selected and a
    message that is not blank it changes nothing whatever (otherwise the
    one thing it does is to show the validation notice). *)
Theorem second_send_while_in_flight g message s :
  isProcessing s = true ->
  exists s',
    sendMessage getModel g message s = Done s' (Ok tt)
    /\ chatHistory s' = chatHistory s
    /\ calls s' = calls s
    /\ messagesContainer s' = messagesContainer s
    /\ currentModel s' = currentModel s
    /\ isProcessing s' = true
    /\ (no_model (currentModel s) = false -> blank message = false -> s' = s).
Proof.
  intros Hbusy. unfold sendMessage, bind, gets. simpl.
  destruct (no_model (currentModel s)) eqn:Hm; simpl.
  { eexists. split; [reflexivity|]. simpl. repeat split; auto; discriminate. }
  destruct (blank message) eqn:Hb; simpl.
  { eexists. split; [reflexivity|]. simpl. repeat split; auto; discriminate. }
  rewrite Hbusy. simpl. exists s. repeat split; auto.
Qed.

End SecondSend.

(** C7 (counterexample).  With a send in flight, a second send of a blank
    message puts the notice "Please enter a message" on the page. *)
Lemma second_send_of_blank_message_shows_a_notice :
  let s1 := world_of (SingleChat.sendMessage Fixtures.registry Fixtures.down "hi"
                        (SingleChat.handleModelChange Fixtures.registry "gpt-4o" Fixtures.idle)) in
  SingleChat.isProcessing s1 = true
  /\ SingleChat.notices s1 = []
  /\ exists s2, SingleChat.sendMessage Fixtures.registry Fixtures.down " " s1 = Done s2 (Ok tt)
                /\ SingleChat.notices s2 = ["Please enter a message"].
Proof.
  cbv zeta. split; [reflexivity|]. split; [reflexivity|].
  eexists. split; reflexivity.
Qed.

Lemma second_send_while_in_flight_witness :
  SingleChat.isProcessing (world_of (SingleChat.sendMessage Fixtures.registry Fixtures.down "hi"
                            (SingleChat.handleModelChange Fixtures.registry "gpt-4o" Fixtures.idle)))
  = true
  /\ exists s',
       SingleChat.sendMessage Fixtures.registry Fixtures.down "again"
         (world_of (SingleChat.sendMessage Fixtures.registry Fixtures.down "hi"
                      (SingleChat.handleModelChange Fixtures.registry "gpt-4o" Fixtures.idle)))
       = Done s' (Ok tt)
       /\ SingleChat.chatHistory s' = [ {| turn_role := User; turn_content := VStr "hi" |} ]
       /\ SingleChat.calls s' = SingleChat.calls (world_of (SingleChat.sendMessage Fixtures.registry Fixtures.down "hi"
                      (SingleChat.handleModelChange Fixtures.registry "gpt-4o" Fixtures.idle))).
Proof.
  split; [reflexivity|].
  destruct (second_send_while_in_flight Fixtures.registry Fixtures.down "again"
              (world_of (SingleChat.sendMessage Fixtures.registry Fixtures.down "hi"
                           (SingleChat.handleModelChange Fixtures.registry "gpt-4o" Fixtures.idle)))
              eq_refl) as (s' & E & Hh & Hc & _).
  exists s'. split; [exact E|]. split; [rewrite Hh; reflexivity | exact Hc].
Defined.


(** ** Streams that throw *)

Lemma to_string_throws v e : to_string v = Throw e -> e = err_to_primitive.
Proof.
  intros H. pose proof (to_string_unconvertible v) as Hv.
  destruct (unconvertible v); [congruence|].
  destruct Hv as [s Hs]. congruence.
Qed.

(** A stream that throws makes the loop throw: the stream's own error when
    the text of every part can be appended, and else the error of the
    conversion, which has a message. *)
Lemma stream_text_throws ps e : forall fullContent,
  exists err, stream_text ps (StreamThrows e) fullContent = Some (Throw err)
              /\ (Forall convertible ps -> err = e)
              /\ (readable e -> readable err).
Proof.
  induction ps as [|part rest IH]; intros fullContent; simpl.
  - exists e. split; [reflexivity|auto].
  - destruct (truthy (opt part "text")) eqn:Ht.
    + destruct (to_string (opt part "text")) as [s|err] eqn:Hs.
      * destruct (IH (fullContent ++ s)) as (err & E & Hall & Hr).
        exists err. split; [exact E|]. split; [|exact Hr]. intros H. apply Hall.
        eapply Forall_inv_tail; eauto.
      * exists err. split; [reflexivity|]. split.
        -- intros H. apply Forall_inv in H. destruct (H Ht) as [s Hs']. congruence.
        -- intros _. apply to_string_throws in Hs as ->. apply readable_Error.
    + destruct (IH fullContent) as (err & E & Hall & Hr).
      exists err. split; [exact E|]. split; [|exact Hr]. intros H. apply Hall.
      eapply Forall_inv_tail; eauto.
Qed.

(** ** The focused chat, run on its own *)

Section FocusedChat.
Import SingleChat.
Variable getModel : string -> option model.

Lemma session_eta s : set_messagesContainer (messagesContainer s) s = s.
Proof. destruct s; reflexivity. Qed.

Lemma formatContent_string s :
  formatContent (VStr s) = Ok (if String.eqb s "" then Raw "" else Formatted (VStr s)).
Proof. unfold formatContent. simpl. destruct (String.eqb s ""); reflexivity. Qed.

Lemma exec_displayUserMessage message s :
  exec (displayUserMessage message) s =
  (set_messagesContainer
     (fst (appendChild
             (UserMessage (if String.eqb message "" then Raw "" else Formatted (VStr message)))
             (messagesContainer s))) s,
   Some (Ok tt)).
Proof.
  unfold displayUserMessage. rewrite exec_bind, exec_lift_result, formatContent_string.
  reflexivity.
Qed.

Lemma exec_displayAssistantMessage_single content s :
  exec (displayAssistantMessage content) s =
  match formatContent content with
  | Ok x =>
      (set_messagesContainer (fst (appendChild (AssistantMessage x) (messagesContainer s))) s,
       Some (Ok (length (heap (messagesContainer s)))))
  | Throw e => (s, Some (Throw e))
  end.
Proof.
  unfold displayAssistantMessage. rewrite exec_bind, exec_lift_result.
  destruct (formatContent content); reflexivity.
Qed.

Lemma exec_showTypingIndicator_single s :
  exec showTypingIndicator s =
  (set_messagesContainer (fst (appendChild TypingIndicator (messagesContainer s))) s,
   Some (Ok (length (heap (messagesContainer s))))).
Proof. reflexivity. Qed.

Lemma exec_consume_part_single d fullContent part s :
  exists F, loop_effect (Some d) F /\
    exec (consume_part d fullContent part) s =
    (set_messagesContainer (F (messagesContainer s)) s,
     Some (if truthy (opt part "text")
           then t <-! to_string (opt part "text") ; Ok (fullContent ++ t)
           else Ok fullContent)).
Proof.
  unfold consume_part.
  destruct (truthy (opt part "text")) eqn:Ht.
  - rewrite exec_bind, exec_lift_result, dot_guarded by eauto with guards.
    rewrite exec_bind, exec_lift_result.
    destruct (to_string (opt part "text")) as [t|err]; simpl.
    + rewrite exec_bind, exec_lift_result, formatContent_string.
      eexists (set_content d _). split; [right; eauto|].
      unfold set_message, scrollToBottom. exec_steps. reflexivity.
    + exists (fun c => c). split; [left; reflexivity|].
      rewrite session_eta. reflexivity.
  - exists (fun c => c). split; [left; reflexivity|].
    rewrite session_eta. reflexivity.
Qed.

Lemma exec_consume_loop_single d ps e : forall fullContent s,
  exists F, loop_effect (Some d) F /\
    exec (for_await ps e (consume_part d) fullContent) s =
    (set_messagesContainer (F (messagesContainer s)) s, stream_text ps e fullContent).
Proof.
  induction ps as [|part rest IH]; intros fullContent s.
  - exists (fun c => c). split; [left; reflexivity|].
    rewrite session_eta. simpl. destruct e; reflexivity.
  - simpl for_await. rewrite exec_bind, exec_await, exec_bind.
    destruct (exec_consume_part_single d fullContent part s) as (F & HF & ->).
    simpl stream_text.
    destruct (truthy (opt part "text")).
    + destruct (to_string (opt part "text")) as [t|err]; simpl.
      * destruct (IH (fullContent ++ t) (set_messagesContainer (F (messagesContainer s)) s))
          as (G & HG & ->).
        exists (G ∘ F). split; [apply loop_effect_compose; assumption|]. reflexivity.
      * exists F. split; [assumption|reflexivity].
    + destruct (IH fullContent (set_messagesContainer (F (messagesContainer s)) s))
        as (G & HG & ->).
      exists (G ∘ F). split; [apply loop_effect_compose; assumption|]. reflexivity.
Qed.

(** [handleStreamingResponse], run on its own: an empty message is appended
    and the loop sets its content; when the stream ends, the text becomes an
    assistant turn; an error whose message the handler can read ends up as
    the content of the message, no turn is pushed, and the call returns
    normally; reading the message of any other error, the handler throws. *)
Lemma exec_handleStreamingResponse (response : stream) (s : session) :
  exists F,
    loop_effect (Some (length (heap (messagesContainer s)))) F /\
    exec (handleStreamingResponse response) s =
    match stream_text (parts response) (ending response) "" with
    | Some (Ok text) =>
        (push_turn {| turn_role := Assistant; turn_content := VStr text |}
           (set_messagesContainer
              (F (fst (appendChild (AssistantMessage (Raw "")) (messagesContainer s)))) s),
         Some (Ok tt))
    | Some (Throw err) =>
        match error_text err with
        | Ok text =>
            (set_messagesContainer
               (set_content (length (heap (messagesContainer s))) (Raw text)
                  (fst (appendChild (AssistantMessage (Raw "")) (messagesContainer s)))) s,
             Some (Ok tt))
        | Throw t =>
            (set_messagesContainer
               (F (fst (appendChild (AssistantMessage (Raw "")) (messagesContainer s)))) s,
             Some (Throw t))
        end
    | None =>
        (set_messagesContainer
           (F (fst (appendChild (AssistantMessage (Raw "")) (messagesContainer s)))) s,
         None)
    end.
Proof.
  unfold handleStreamingResponse.
  rewrite exec_bind, exec_displayAssistantMessage_single. cbn [formatContent truthy negb String.eqb].
  cbv beta iota.
  rewrite exec_try_catch, exec_bind.
  destruct (exec_consume_loop_single (length (heap (messagesContainer s)))
              (parts response) (ending response) ""
              (set_messagesContainer
                 (fst (appendChild (AssistantMessage (Raw "")) (messagesContainer s))) s))
    as (F & HF & ->).
  exists F. split; [exact HF|].
  destruct (stream_text (parts response) (ending response) "") as [[text|err]|];
    try reflexivity.
  rewrite exec_bind, exec_lift_result.
  destruct (error_text err) as [text|t]; [|reflexivity].
  unfold set_message. rewrite exec_modify. f_equal.
  unfold set_messagesContainer. simpl. f_equal.
  destruct HF as [HF | (d & x & Hd & HF)]; rewrite HF; [reflexivity|].
  injection Hd as <-. apply set_content_twice.
Qed.

End FocusedChat.

Lemma fallback_order_in_the_grid_witness :
  Fixtures.registry "gpt-4o" = Some Fixtures.gpt4o
  /\ exists rest,
       UI.calls (fst (exec (Chat.sendMessageToModel Fixtures.registry
                              (Fixtures.direct_only "hello") "hi" [] "gpt-4o") Fixtures.grid))
       = Chat.call_of "gpt-4o" Fixtures.gpt4o (Chat.turns_of Fixtures.gpt4o "hi") true
           :: Chat.call_of "gpt-4o" Fixtures.gpt4o (Chat.flat_of Fixtures.gpt4o "hi") true
           :: rest.
Proof.
  split; [reflexivity|].
  destruct (fallback_order_in_the_grid Fixtures.registry (Fixtures.direct_only "hello")
              "hi" "gpt-4o" Fixtures.gpt4o Fixtures.grid eq_refl) as (_ & H & _).
  destruct (H "streaming not supported" eq_refl) as (rest & E & _).
  exists rest. exact E.
Defined.

(** ** More on dispatches of the grid *)

Section GridMore.
Import UI Chat.
Variable getModel : string -> option model.

Lemma last_child_of_show_message content x c :
  let c' := set_content (last_created (show_message content c)) x (show_message content c) in
  last (children c') = Some (last_created c')
  /\ heap c' !! last_created c' = Some (AssistantMessage x).
Proof.
  cbv zeta. rewrite last_created_show_message.
  unfold show_message, append_message.
  rewrite (set_content_assistant _ _ (Formatted content)) by apply appendChild_lookup.
  unfold last_created. simpl. rewrite length_insert, length_app. simpl.
  replace (length (heap (remove_placeholder c)) + 1 - 1)
    with (length (heap (remove_placeholder c))) by lia.
  split.
  - rewrite last_snoc. reflexivity.
  - apply list_lookup_insert_eq. rewrite length_app. simpl. lia.
Qed.

(** X2.  When the first streaming call of a dispatch gives a stream and the
    stream throws, while it is consumed, an error whose message the handler
    can read, the dispatch makes no further call and returns normally; in
    the window of its model (none of whose messages holds markup) the
    typing indicator is removed and the message that was being filled is
    the last child, its content replaced by ["Error: "] and the message of
    an error (the stream's own, when the text of every part could be
    appended); no other window changes. *)
Theorem stream_failure_stays_in_the_message g message modelId m w r e :
  getModel modelId = Some m ->
  chat_stream g (turns_of m message) (parameters m) = Resolves (Iterable r) ->
  ending r = StreamThrows e ->
  readable e ->
  exists w' text,
    exec (sendMessageToModel getModel g message [] modelId) w = (w', Some (Ok tt))
    /\ calls w' = (calls w ++ [call_of modelId m (turns_of m message) true])%list
    /\ (Forall convertible (parts r) -> error_text e = Ok text)
    /\ (forall other, other <> modelId -> chatWindows w' !! other = chatWindows w !! other)
    /\ (forall c, chatWindows w !! modelId = Some c ->
          inert_window c ->
          exists c',
            chatWindows w' !! modelId = Some c'
            /\ c' = set_content (last_created (show_message (VStr "")
                                                 (remove_typing (show_typing c))))
                      (Raw text)
                      (show_message (VStr "") (remove_typing (show_typing c)))
            /\ last (children c') = Some (last_created c')
            /\ heap c' !! last_created c' = Some (AssistantMessage (Raw text))).
Proof.
  intros Hm HA He Hread.
  destruct (stream_text_throws (parts r) e "") as (err & Htext & Hconv & Herr).
  destruct (Herr Hread) as [text Hshown].
  rewrite <- He in Htext.
  grid_exec.
  match goal with
  | |- context [exec (handleStreamingResponseForModel ?s ?i) ?w0] =>
      destruct (exec_handleStreamingResponseForModel s i w0) as (F & _ & ->)
  end.
  rewrite Htext, Hshown. grid_exec.
  eexists. exists text. split; [reflexivity|].
  cbn [chatWindows calls on_window log_call].
  split; [reflexivity|]. split; [intros H; rewrite <- (Hconv H); exact Hshown|]. split.
  - intros other Ho. rewrite !lookup_alter_ne by congruence. reflexivity.
  - intros c Hc _. eexists. split.
    + rewrite !lookup_alter_eq, Hc. reflexivity.
    + split; [reflexivity|]. apply last_child_of_show_message.
Qed.

Lemma exec_with_attachments g message images modelId m w :
  getModel modelId = Some m ->
  images <> [] ->
  exec (sendMessageToModel getModel g message images modelId) w
  = (on_window modelId
       (show_message (VStr image_notice) ∘ remove_typing ∘ show_typing) w,
     Some (Ok tt)).
Proof.
  intros Hm Hi. destruct images as [|image images]; [congruence|].
  unfold sendMessageToModel, displayResponseForModel.
  exec_steps. rewrite Hm. cbn [length Nat.ltb Nat.leb]. exec_steps.
  cbn [extractContentFromResponse typeof strict_eq_str String.eqb Ascii.eqb Bool.eqb].
  exec_steps. rewrite !on_window_compose. reflexivity.
Qed.

(** X3.  With attachments, a dispatch to a registered model makes no call
    to the gateway and does not even suspend: in its first turn it shows and
    removes the typing indicator and appends the fixed notice that image
    analysis is not supported (this in a window none of whose messages
    holds markup). *)
Theorem attachments_are_answered_with_a_notice g message images modelId m w :
  getModel modelId = Some m ->
  images <> [] ->
  inert_panel modelId w ->
  sendMessageToModel getModel g message images modelId w
  = Done (on_window modelId
            (show_message (VStr image_notice) ∘ remove_typing ∘ show_typing) w)
         (Ok tt).
Proof.
  intros Hm Hi _. destruct images as [|image images]; [congruence|].
  unfold sendMessageToModel, try_catch, bind, displayResponseForModel, bind, lift_result.
  rewrite showTypingIndicator_eq. cbn [bind_res catch_res]. rewrite Hm.
  cbn [length Nat.ltb Nat.leb ret bind_res catch_res].
  rewrite removeTypingIndicator_eq. cbn [bind_res catch_res].
  cbn [extractContentFromResponse typeof strict_eq_str String.eqb Ascii.eqb Bool.eqb].
  cbn [bind_res catch_res].
  rewrite displayAssistantMessage_eq. cbn [bind_res catch_res scrollToBottom ret].
  rewrite !on_window_compose. reflexivity.
Qed.

(** X4.  Whatever the gateway does, a dispatch run on its own makes at most
    four calls, every one for its own model and with that model's
    parameters, and every one carries either exactly the two turns (the
    system instruction for the model's name, then the message) or the two
    flattened into one text. *)
Theorem dispatch_calls_carry_the_message_only g message images modelId w :
  exists new,
    calls (fst (exec (sendMessageToModel getModel g message images modelId) w))
    = (calls w ++ new)%list
    /\ length new <= 4
    /\ Forall (fun c =>
                 exists m streaming,
                   getModel modelId = Some m
                   /\ (c = call_of modelId m
                             (Turns [ {| turn_role := System;
                                         turn_content := VStr (system_instruction (name m)) |};
                                      {| turn_role := User; turn_content := VStr message |} ])
                             streaming
                       \/ c = call_of modelId m
                                (Flat (system_instruction (name m) ++ nl ++ nl
                                       ++ "User: " ++ message))
                                streaming)) new.
Proof.
  destruct (getModel modelId) as [m|] eqn:Hm.
  2:{ grid_exec. exists []. cbn [fst calls on_window log_call].
      rewrite app_nil_r. repeat split; [simpl; lia | constructor]. }
  destruct images as [|image images].
  2:{ rewrite (exec_with_attachments g message _ modelId m w Hm) by discriminate.
      exists []. cbn [fst calls on_window]. rewrite app_nil_r.
      repeat split; [simpl; lia | constructor]. }
  grid_cases.
  all: cbn [fst calls on_window log_call]; rewrite <- ?app_assoc; cbn [app];
    eexists; (split; [reflexivity|]); (split; [simpl; lia|]).
  all: repeat (apply Forall_cons; split; [eexists _, _; split; [reflexivity|]; eauto|]).
  all: apply Forall_nil_2.
Qed.

End GridMore.

(** ** Sends of the focused chat, run on their own *)

Lemma exec_remove_first sel (s : SingleChat.session) :
  exec (SingleChat.remove_first sel) s
  = (SingleChat.set_messagesContainer (remove_matching sel (SingleChat.messagesContainer s)) s,
     Some (Ok tt)).
Proof.
  unfold SingleChat.remove_first, remove_matching. rewrite exec_modify.
  destruct (querySelector sel (SingleChat.messagesContainer s)); [reflexivity|].
  destruct s; reflexivity.
Qed.

Lemma remove_first_eq sel (s : SingleChat.session) :
  SingleChat.remove_first sel s
  = Done (SingleChat.set_messagesContainer
            (remove_matching sel (SingleChat.messagesContainer s)) s) (Ok tt).
Proof.
  unfold SingleChat.remove_first, remove_matching, modify.
  destruct (querySelector sel (SingleChat.messagesContainer s)); [reflexivity|].
  destruct s; reflexivity.
Qed.

Lemma displayUserMessage_eq message (s : SingleChat.session) :
  String.eqb message "" = false ->
  SingleChat.displayUserMessage message s
  = Done (SingleChat.set_messagesContainer
            (fst (appendChild (UserMessage (Formatted (VStr message)))
                    (SingleChat.messagesContainer s))) s) (Ok tt).
Proof.
  intros H. unfold SingleChat.displayUserMessage, bind, lift_result.
  rewrite formatContent_string, H. reflexivity.
Qed.

Lemma displayAssistantMessage_eq_single content x (s : SingleChat.session) :
  SingleChat.formatContent content = Ok x ->
  SingleChat.displayAssistantMessage content s
  = Done (SingleChat.set_messagesContainer
            (fst (appendChild (AssistantMessage x) (SingleChat.messagesContainer s))) s)
         (Ok (length (heap (SingleChat.messagesContainer s)))).
Proof.
  intros H. unfold SingleChat.displayAssistantMessage, bind, lift_result.
  rewrite H. reflexivity.
Qed.

Lemma error_text_nonempty e : String.eqb ("Error: " ++ e) "" = false.
Proof. reflexivity. Qed.

Lemma error_text_shown e text : error_text e = Ok text -> String.eqb text "" = false.
Proof.
  unfold error_text. destruct (message_of e) as [m|]; [|discriminate].
  simpl. destruct (to_string m) as [s|]; [|discriminate].
  simpl. intros [= <-]. reflexivity.
Qed.

Lemma appended_stands_last x c :
  last (children (fst (appendChild x c))) = Some (length (heap c))
  /\ heap (fst (appendChild x c)) !! length (heap c) = Some x.
Proof.
  simpl. rewrite last_snoc. split; [reflexivity|].
  rewrite lookup_app_r by lia. rewrite Nat.sub_diag. reflexivity.
Qed.

Lemma blank_nonempty message : SingleChat.blank message = false -> String.eqb message "" = false.
Proof. destruct message; [discriminate|reflexivity]. Qed.

Lemma remove_matching_heap sel c : heap (remove_matching sel c) = heap c.
Proof. unfold remove_matching. destruct (querySelector sel c); reflexivity. Qed.

Ltac single_simpl :=
  cbn [SingleChat.currentModel SingleChat.chatHistory SingleChat.isProcessing
       SingleChat.messagesContainer SingleChat.notices SingleChat.calls
       SingleChat.set_currentModel SingleChat.set_chatHistory SingleChat.set_isProcessing
       SingleChat.set_messagesContainer SingleChat.set_notices SingleChat.log_call
       SingleChat.push_turn asyncIterable fst snd] in *.

Ltac use_session :=
  repeat match goal with
         | H : SingleChat.no_model _ = _ |- _ => progress (rewrite H)
         | H : SingleChat.blank _ = _ |- _ => progress (rewrite H)
         | H : String.eqb _ "" = _ |- _ => progress (rewrite H)
         | H : SingleChat.isProcessing _ = _ |- _ => progress (rewrite H)
         | H : match SingleChat.currentModel _ with _ => _ end = _ |- _ => progress (rewrite H)
         | H : SingleChat.formatContent _ = _ |- _ => progress (rewrite H)
         | H : stream_text _ _ _ = _ |- _ => progress (rewrite H)
         end.

Ltac single_exec :=
  unfold SingleChat.sendMessage, SingleChat.chat_streaming, SingleChat.chat_blocking,
    SingleChat.remove_element, SingleChat.showError,
    SingleChat.current_model, not_streamed, answered, outgoing, last_resort,
    focused_call, user_turn, assistant_turn in *;
  repeat (progress (use_session; use_answers; exec_steps;
                    rewrite ?exec_remove_first,
                      ?exec_displayUserMessage, ?exec_showTypingIndicator_single,
                      ?exec_displayAssistantMessage_single, ?formatContent_string,
                      ?error_text_nonempty;
                    single_simpl; cbv beta iota)).

Ltac single_cases :=
  repeat (single_exec;
    match goal with
    | |- context [match chat_stream ?g ?r ?p with _ => _ end] =>
        let E := fresh "E" in destruct (chat_stream g r p) as [[?|?]|?|] eqn:E
    | |- context [match chat_direct ?g ?r ?p with _ => _ end] =>
        let E := fresh "E" in destruct (chat_direct g r p) as [?|?|] eqn:E
    | |- context [match extractContentFromResponse ?v with _ => _ end] =>
        let E := fresh "E" in destruct (extractContentFromResponse v) as [?|?] eqn:E
    | |- context [match SingleChat.formatContent ?v with _ => _ end] =>
        let E := fresh "E" in destruct (SingleChat.formatContent v) as [?|?] eqn:E
    | |- context [match message_of ?e with _ => _ end] =>
        let E := fresh "E" in destruct (message_of e) as [?|?] eqn:E
    | |- context [match error_text ?e with _ => _ end] =>
        let E := fresh "E" in
        let N := fresh "N" in
        destruct (error_text e) as [?|?] eqn:E;
        [pose proof (error_text_shown _ _ E) as N|]
    | |- context [exec (SingleChat.handleStreamingResponse ?x) ?s0] =>
        let F := fresh "F" in
        destruct (exec_handleStreamingResponse x s0) as (F & _ & ->);
        destruct (stream_text (parts x) (ending x) "") as [[?|?]|]
    end);
  try single_exec.

Section FocusedSend.
Import SingleChat.
Variable getModel : string -> option model.

Lemma formatContent_throws content e : formatContent content = Throw e -> readable e.
Proof.
  unfold formatContent. destruct (negb (truthy content)); [discriminate|].
  destruct content; intros [= <-]; apply readable_Error.
Qed.

Lemma throws_displayAssistantMessage_single content :
  throws readable (displayAssistantMessage content).
Proof.
  intros w. unfold displayAssistantMessage, bind, lift_result.
  destruct (formatContent content) as [x|e] eqn:E; simpl; [exact I|].
  eapply formatContent_throws, E.
Qed.

Lemma throws_displayUserMessage P message : throws P (displayUserMessage message).
Proof.
  intros w. unfold displayUserMessage, bind, lift_result.
  rewrite formatContent_string. exact I.
Qed.

Lemma throws_showTypingIndicator_single P : throws P showTypingIndicator.
Proof. intros w. exact I. Qed.

(** Whatever the outer handler of a send catches has a message it can read,
    when what the gateway rejects direct calls with has: a rejected
    streaming call and a failed stream are caught by the inner handler,
    which throws a [TypeError] at most. *)
Lemma throws_send_body g message :
  rejects_readably g ->
  throws readable
    (remove_first welcome_message ;;;
     displayUserMessage message ;;;
     modify (push_turn {| turn_role := User; turn_content := VStr message |}) ;;;
     let* typingIndicator := showTypingIndicator in
     let* found := gets (current_model getModel) in
     match found with
     | None => raise "Selected model not found"
     | Some model =>
         let* history := gets chatHistory in
         let messages :=
           {| turn_role := System;
              turn_content := VStr (system_instruction (name model)) |} :: history in
         let* returned :=
           try_catch
             (let* response := chat_streaming g (Turns messages) model in
              match asyncIterable response with
              | Some s =>
                  remove_element typingIndicator ;;;
                  await_call (handleStreamingResponse s) ;;;
                  ret true
              | None => ret false
              end)
             (fun e => lift_result (message_of e) ;;; ret false) in
         if returned : bool then ret tt
         else
           let* response :=
             try_catch
               (chat_blocking g (Turns messages) model)
               (fun e =>
                  let systemMessage := identity_instruction (name model) in
                  let fullMessage := systemMessage ++ nl ++ nl ++ "User: " ++ message in
                  chat_blocking g (Flat fullMessage) model) in
           remove_element typingIndicator ;;;
           let* content := lift_result (extractContentFromResponse response) in
           displayAssistantMessage content ;;;
           modify (push_turn {| turn_role := Assistant; turn_content := content |})
     end).
Proof.
  intros Hg.
  unfold chat_blocking, remove_first, remove_element.
  repeat first
    [ apply throws_displayUserMessage
    | apply throws_showTypingIndicator_single
    | apply throws_displayAssistantMessage_single
    | apply throws_lift_result; apply extract_throws_readable
    | apply throws_lift_result; intros ? Ht;
      destruct (message_of_throws _ _ Ht) as [? ->]; apply readable_Error
    | apply throws_await; intros ? ?; eapply Hg; eassumption
    | throws_step ].
Qed.

(** X5.  A send of the focused chat never settles by rejection, however it
    is interleaved with the rest of the page, when whatever the gateway
    rejects a direct call with has a message the handler can read: what the
    handler catches is then shown as a message, and the checks ahead of the
    [try] only show a notice. *)
Theorem focused_send_never_rejects g message s :
  rejects_readably g ->
  never_rejects (sendMessage getModel g message s).
Proof.
  intros Hg.
  unfold sendMessage, bind, gets. cbn [bind_res].
  destruct (no_model (currentModel s)); [exact I|].
  destruct (blank message); [exact I|].
  cbn [bind_res]. destruct (isProcessing s); [exact I|].
  cbn [modify bind_res].
  apply rejects_only_never, throws_try_finally.
  eapply throws_try_catch with (Q := readable).
  - exact (throws_send_body g message Hg).
  - intros e [text He] w. unfold remove_first, modify, lift_result.
    cbn beta iota delta [bind_res]. rewrite He. cbn beta iota delta [bind_res].
    unfold displayAssistantMessage, bind, lift_result.
    rewrite formatContent_string. exact I.
Qed.

(** X6.  When the selected model is not in the registry, a send settles in
    its first turn without calling the gateway: the user's turn stays in
    the conversation, the message ["Error: Selected model not found"] is
    appended in place of the typing indicator, and the session is free for
    the next send.  (Of a message and a container without markup: the
    handler looks the typing indicator up by its class.) *)
Theorem send_to_unregistered_model g message s :
  sendable message s ->
  current_model getModel s = None ->
  plain message = true ->
  inert_window (messagesContainer s) ->
  exists s',
    sendMessage getModel g message s = Done s' (Ok tt)
    /\ chatHistory s' = (chatHistory s ++ [user_turn message])%list
    /\ calls s' = calls s
    /\ isProcessing s' = false
    /\ currentModel s' = currentModel s
    /\ notices s' = notices s
    /\ messagesContainer s'
       = fst (appendChild
                (AssistantMessage (Formatted (VStr "Error: Selected model not found")))
                (remove_matching typing_indicator (in_flight message (messagesContainer s)))).
Proof.
  intros (Hsel & Hmsg & Hidle) Hm _ _.
  pose proof (blank_nonempty _ Hmsg) as Hne.
  unfold sendMessage, bind, gets. cbn [bind_res]. rewrite Hsel, Hmsg.
  cbn [bind_res]. rewrite Hidle. cbn [modify bind_res].
  unfold try_finally, try_catch, bind.
  rewrite remove_first_eq. cbn [bind_res].
  rewrite displayUserMessage_eq by exact Hne. cbn [bind_res modify].
  unfold showTypingIndicator. cbn [appendChild fst snd bind_res gets].
  unfold current_model in *. single_simpl. rewrite Hm.
  cbn [raise bind_res catch_res].
  rewrite remove_first_eq. cbn [bind_res lift_result].
  rewrite error_text_Error. cbn [bind_res].
  rewrite (displayAssistantMessage_eq_single _
             (Formatted (VStr "Error: Selected model not found"))) by reflexivity.
  cbn [bind_res ret catch_res finally_res].
  eexists. split; [reflexivity|]. single_simpl.
  repeat (split; [reflexivity|]). reflexivity.
Qed.

(** X7.  When the streaming call of a send gives a stream and the stream
    throws, while it is consumed, an error whose message the handler can
    read, the send makes no other call and returns normally; the user's
    turn stays in the conversation and no assistant turn is added; the
    message that was being filled stands last in the container (one
    without markup, when the send began), its content replaced by
    ["Error: "] and the message of an error (the stream's own, when the
    text of every part could be appended); the session is free for the next
    send. *)
Theorem focused_stream_failure g message s m r e :
  sendable message s ->
  current_model getModel s = Some m ->
  chat_stream g (Turns (outgoing m (chatHistory s) message)) (parameters m)
    = Resolves (Iterable r) ->
  ending r = StreamThrows e ->
  readable e ->
  inert_window (messagesContainer s) ->
  exists s' text,
    exec (sendMessage getModel g message) s = (s', Some (Ok tt))
    /\ chatHistory s' = (chatHistory s ++ [user_turn message])%list
    /\ calls s' = (calls s ++ [focused_call m (Turns (outgoing m (chatHistory s) message)) true])%list
    /\ isProcessing s' = false
    /\ currentModel s' = currentModel s
    /\ notices s' = notices s
    /\ (Forall convertible (parts r) -> error_text e = Ok text)
    /\ messagesContainer s'
       = set_content (S (typing_of (messagesContainer s))) (Raw text)
           (fst (appendChild (AssistantMessage (Raw ""))
                   (remove (typing_of (messagesContainer s))
                      (in_flight message (messagesContainer s))))).
Proof.
  intros (Hsel & Hmsg & Hidle) Hm HA He Hread _.
  pose proof (blank_nonempty _ Hmsg) as Hne.
  destruct (stream_text_throws (parts r) e "") as (err & Htext & Hconv & Herr).
  destruct (Herr Hread) as [text Hshown].
  rewrite <- He in Htext.
  single_exec.
  match goal with
  | |- context [exec (handleStreamingResponse ?x) ?s0] =>
      destruct (exec_handleStreamingResponse x s0) as (F & _ & ->)
  end.
  rewrite Htext, Hshown. single_exec.
  eexists. exists text. split; [reflexivity|]. single_simpl.
  repeat (split; [reflexivity || (intros H; rewrite <- (Hconv H); exact Hshown)|]).
  unfold in_flight, typing_of. cbn [appendChild fst snd heap remove].
  rewrite !length_app, !remove_matching_heap. cbn [length].
  replace (length (heap (messagesContainer s)) + 1 + 1)
    with (S (S (length (heap (messagesContainer s))))) by lia.
  replace (length (heap (messagesContainer s)) + 1)
    with (S (length (heap (messagesContainer s)))) by lia.
  reflexivity.
Qed.

(** X8.  A send that passes the checks makes its first call in its first
    turn, a streaming call whose turns are the system instruction for the
    model, the whole stored conversation, and the new message (two more
    turns than the conversation held).  Run on its own it makes at most two
    calls more, both direct: one with the same turns and, last, one with a
    flattened text made of a shorter instruction and the new message only,
    without the conversation. *)
Theorem focused_send_transmits_the_conversation g message s m :
  sendable message s ->
  current_model getModel s = Some m ->
  calls (world_of (sendMessage getModel g message s))
  = (calls s ++ [focused_call m (Turns (outgoing m (chatHistory s) message)) true])%list
  /\ length (outgoing m (chatHistory s) message) = length (chatHistory s) + 2
  /\ exists more,
       calls (fst (exec (sendMessage getModel g message) s))
       = (calls s ++ focused_call m (Turns (outgoing m (chatHistory s) message)) true
                  :: more)%list
       /\ length more <= 2
       /\ Forall (fun c =>
                    c = focused_call m (Turns (outgoing m (chatHistory s) message)) false
                    \/ c = focused_call m (last_resort m message) false) more.
Proof.
  intros (Hsel & Hmsg & Hidle) Hm.
  pose proof (blank_nonempty _ Hmsg) as Hne.
  split; [|split].
  - unfold sendMessage, bind, gets. cbn [bind_res]. rewrite Hsel, Hmsg.
    cbn [bind_res]. rewrite Hidle. cbn [modify bind_res].
    unfold try_finally, try_catch, bind.
    rewrite remove_first_eq. cbn [bind_res].
    rewrite displayUserMessage_eq by exact Hne. cbn [bind_res modify].
    unfold showTypingIndicator. cbn [appendChild fst snd bind_res gets].
    unfold current_model in *. single_simpl. rewrite Hm.
    cbn [bind_res catch_res]. unfold chat_streaming, bind, modify. cbn [bind_res].
    destruct (chat_stream g _ (parameters m)) as [[r|v]|e|]; reflexivity.
  - unfold outgoing. cbn [length]. rewrite length_app. simpl. lia.
  - single_cases.
    all: single_simpl; rewrite <- ?app_assoc; cbn [app].
    all: eexists; (split; [reflexivity|]); (split; [simpl; lia|]).
    all: repeat (apply Forall_cons; split; [auto|]).
    all: apply Forall_nil_2.
Qed.


(** X10.  When the streaming call of a send gave nothing to iterate and the
    direct path fails (both direct calls reject, or the normaliser throws
    on the payload, or the content it returns is truthy but not a string,
    so that formatting it throws ["content.replace is not a function"])
    with an error whose message the handler can read, the send returns
    normally; the user's turn stays in the conversation and no assistant
    turn is added; the message ["Error: "] with the message of the error
    stands last in the container; the session is free for the next send.
    (Of a message and a container without markup.) *)
Theorem focused_failure_is_shown_not_recorded g message s m e text :
  sendable message s ->
  current_model getModel s = Some m ->
  plain message = true ->
  inert_window (messagesContainer s) ->
  error_text e = Ok text ->
  not_streamed g m (chatHistory s) message ->
  (exists eB,
     chat_direct g (Turns (outgoing m (chatHistory s) message)) (parameters m) = Rejects eB
     /\ chat_direct g (last_resort m message) (parameters m) = Rejects e)
  \/ (exists v, answered g m (chatHistory s) message v
                /\ extractContentFromResponse v = Throw e)
  \/ (exists v c, answered g m (chatHistory s) message v
                  /\ extractContentFromResponse v = Ok c
                  /\ truthy c = true
                  /\ (forall text, c <> VStr text)
                  /\ e = "content.replace is not a function") ->
  exists s' d,
    exec (sendMessage getModel g message) s = (s', Some (Ok tt))
    /\ chatHistory s' = (chatHistory s ++ [user_turn message])%list
    /\ isProcessing s' = false
    /\ currentModel s' = currentModel s
    /\ last (children (messagesContainer s')) = Some d
    /\ heap (messagesContainer s') !! d
       = Some (AssistantMessage (Formatted (VStr text))).
Proof.
  intros (Hsel & Hmsg & Hidle) Hm _ _ Htext Hns Hfail.
  pose proof (blank_nonempty _ Hmsg) as Hne.
  pose proof (error_text_shown _ _ Htext) as Hshown.
  assert (Hfmt : forall c, truthy c = true -> (forall text, c <> VStr text) ->
                   formatContent c = Throw "content.replace is not a function").
  { intros c Ht Hc. unfold formatContent. rewrite Ht. simpl.
    destruct c; try reflexivity. exfalso. eapply Hc. reflexivity. }
  destruct Hns as [(eA & logged & HA & Hlog) | [vA HA]];
    destruct Hfail as [(eB & HB & HC)
                      | [(v & [HB | (eB & HB & HC)] & Hx)
                        | (v & c & [HB | (eB & HB & HC)] & Hx & Ht & Hc & ->)]];
    try (pose proof (Hfmt c Ht Hc) as Hf);
    single_exec.
  all: eexists; eexists; (split; [reflexivity|]); single_simpl.
  all: repeat (split; [reflexivity|]); apply appended_stands_last.
Qed.

End FocusedSend.

(** ** Stretches between suspensions *)

Section Stretches.
Context {W : Type} (R : W -> W -> Prop) `{!PreOrder R}.

Lemma R_refl w : R w w.
Proof. reflexivity. Qed.

Lemma R_trans a b c : R a b -> R b c -> R a c.
Proof. intros. etransitivity; eauto. Qed.

#[local] Hint Resolve R_refl R_trans : core.

Lemma segments_lead {A} (r : res W A) w0 w1 :
  R w0 w1 -> segments R w1 r -> segments R w0 r.
Proof.
  destruct r as [w x | w k | w]; simpl; intros H01 H.
  - eapply R_trans; eauto.
  - destruct H as [H1 Hk]. split; [eapply R_trans|]; eauto.
  - eapply R_trans; eauto.
Qed.

Lemma segments_bind_res {A B} (r : res W A) (f : A -> M W B) w0 :
  segments R w0 r -> (forall a, steady R (f a)) -> segments R w0 (bind_res r f).
Proof.
  intros Hr Hf. revert w0 Hr.
  induction r as [w [a|e] | w k IH | w]; simpl; intros w0 Hr; auto.
  - eapply segments_lead; [exact Hr | apply Hf].
  - destruct Hr as [H0 Hk]. split; auto.
Qed.

Lemma segments_catch_res {A} (r : res W A) (h : error -> M W A) w0 :
  segments R w0 r -> (forall e, steady R (h e)) -> segments R w0 (catch_res r h).
Proof.
  intros Hr Hh. revert w0 Hr.
  induction r as [w [a|e] | w k IH | w]; simpl; intros w0 Hr; auto.
  - eapply segments_lead; [exact Hr | apply Hh].
  - destruct Hr as [H0 Hk]. split; auto.
Qed.

Lemma segments_finally_res {A} (r : res W A) (fin : W -> W) w0 :
  segments R w0 r -> (forall w, R w (fin w)) -> segments R w0 (finally_res r fin).
Proof.
  intros Hr Hfin. revert w0 Hr.
  induction r as [w x | w k IH | w]; simpl; intros w0 Hr; auto.
  - eapply R_trans; eauto.
  - destruct Hr as [H0 Hk]. split; auto.
Qed.

Lemma segments_later {A} (r : res W A) w0 : segments R w0 r -> segments R w0 (later r).
Proof.
  revert w0. induction r as [w x | w k IH | w]; simpl; intros w0 Hr; auto.
  destruct Hr as [H0 Hk]. split; auto.
Qed.

Lemma steady_ret {A} (a : A) : steady R (ret a).
Proof. intros w. simpl. auto. Qed.

Lemma steady_raise {A} e : steady R (raise (A := A) e).
Proof. intros w. simpl. auto. Qed.

Lemma steady_gets {A} (f : W -> A) : steady R (gets f).
Proof. intros w. simpl. auto. Qed.

Lemma steady_lift_result {A} (r : result A) : steady R (lift_result r).
Proof. intros w. simpl. auto. Qed.

Lemma steady_modify (f : W -> W) : (forall w, R w (f w)) -> steady R (modify f).
Proof. intros H w. simpl. auto. Qed.

Lemma steady_await {A} (p : settle A) : steady R (await p).
Proof. intros w. destruct p; simpl; auto. Qed.

Lemma steady_bind {A B} (m : M W A) (f : A -> M W B) :
  steady R m -> (forall a, steady R (f a)) -> steady R (bind m f).
Proof. intros Hm Hf w. apply segments_bind_res; auto. Qed.

Lemma steady_try_catch {A} (m : M W A) (h : error -> M W A) :
  steady R m -> (forall e, steady R (h e)) -> steady R (try_catch m h).
Proof. intros Hm Hh w. apply segments_catch_res; auto. Qed.

Lemma steady_try_finally {A} (m : M W A) (fin : W -> W) :
  steady R m -> (forall w, R w (fin w)) -> steady R (try_finally m fin).
Proof. intros Hm Hfin w. apply segments_finally_res; auto. Qed.

Lemma steady_await_call {A} (m : M W A) : steady R m -> steady R (await_call m).
Proof. intros Hm w. apply segments_later; auto. Qed.

Lemma steady_for_await ps e (body : string -> value -> M W string) :
  (forall fullContent part, steady R (body fullContent part)) ->
  forall fullContent, steady R (for_await ps e body fullContent).
Proof.
  intros Hbody. induction ps as [|part rest IH]; intros fullContent; simpl.
  - destruct e.
    + apply steady_bind; [apply steady_await | intros; apply steady_ret].
    + apply steady_await.
    + apply steady_await.
  - apply steady_bind; [apply steady_await|]. intros _.
    apply steady_bind; [apply Hbody|]. intros fullContent'. apply IH.
Qed.

End Stretches.

Ltac steady_step :=
  match goal with
  | |- steady _ (bind _ _) =>
      apply steady_bind; try (typeclasses eauto); [|intros ?]
  | |- steady _ (try_catch _ _) =>
      apply steady_try_catch; try (typeclasses eauto); [|intros ?]
  | |- steady _ (try_finally _ _) => apply steady_try_finally; try (typeclasses eauto)
  | |- steady _ (await_call _) => apply steady_await_call; try (typeclasses eauto)
  | |- steady _ (ret _) => apply steady_ret; try (typeclasses eauto)
  | |- steady _ (raise _) => apply steady_raise; try (typeclasses eauto)
  | |- steady _ (gets _) => apply steady_gets; try (typeclasses eauto)
  | |- steady _ (lift_result _) => apply steady_lift_result; try (typeclasses eauto)
  | |- steady _ (await _) => apply steady_await; try (typeclasses eauto)
  | |- steady _ (modify _) => apply steady_modify; try (typeclasses eauto)
  | |- steady _ (for_await _ _ _ _) =>
      apply steady_for_await; try (typeclasses eauto); intros ? ?
  | |- steady _ (if ?b then _ else _) => destruct b
  | |- steady _ (match ?x with _ => _ end) => destruct x
  end.

(** ** The conversation under interleaving *)

Section Conversation.
Import SingleChat.
Variable getModel : string -> option model.

Lemma grows_refl : Reflexive grows.
Proof.
  intros s. split; [|split].
  - exists []. rewrite app_nil_r. auto.
  - exists []. rewrite app_nil_r. auto.
  - reflexivity.
Qed.

Lemma grows_trans : Transitive grows.
Proof.
  intros a b c ((x & Hx & Fx) & (p & Hp) & Hm) ((y & Hy & Fy) & (q & Hq) & Hm').
  split; [|split].
  - exists (x ++ y)%list. split; [rewrite Hy, Hx, app_assoc; reflexivity|].
    apply Forall_app; auto.
  - exists (p ++ q)%list. rewrite Hq, Hp, app_assoc. reflexivity.
  - congruence.
Qed.

#[local] Instance grows_preorder : PreOrder grows :=
  {| PreOrder_Reflexive := grows_refl; PreOrder_Transitive := grows_trans |}.

Lemma grows_page f s :
  chatHistory (f s) = chatHistory s -> calls (f s) = calls s ->
  currentModel (f s) = currentModel s -> grows s (f s).
Proof.
  intros H1 H2 H3. split; [|split]; [exists [] | exists [] |]; rewrite ?app_nil_r; auto.
Qed.

Lemma grows_push t s : turn_role t <> System -> grows s (push_turn t s).
Proof.
  intros H. split; [|split]; [exists [t] | exists [] |]; simpl; rewrite ?app_nil_r; auto.
Qed.

Lemma grows_log c s : grows s (log_call c s).
Proof.
  split; [|split]; [exists [] | exists [c] |]; simpl; rewrite ?app_nil_r; auto.
Qed.

(** X11.  However a send is interleaved with the rest of the page, each of
    its stretches between two suspensions only appends to the stored
    conversation, and what it appends are user and assistant turns, never a
    system turn; it only appends to the record of calls; and it never
    changes the selected model. *)
Theorem send_only_appends_turns g message :
  steady grows (sendMessage getModel g message).
Proof.
  unfold sendMessage, showError, remove_first, displayUserMessage, showTypingIndicator,
    chat_streaming, chat_blocking, remove_element, handleStreamingResponse,
    displayAssistantMessage, consume_part, set_message, scrollToBottom.
  repeat (steady_step; try assumption).
  all: try (intros w; apply grows_page; reflexivity).
  all: try (intros w; apply grows_log).
  all: try (intros w; apply grows_push; discriminate).
  all: try (intros w; simpl; apply grows_page; reflexivity).
  all: intros w; destruct (querySelector _ _);
    [apply grows_page; reflexivity | apply grows_refl].
Qed.

End Conversation.

(** ** Picking a model *)

Lemma view_set_innerHTML ns c : view (set_innerHTML ns c) = ns.
Proof.
  unfold view, set_innerHTML. simpl.
  generalize (heap c) as pre. induction ns as [|n rest IH]; intros pre; [reflexivity|].
  cbn [length seq]. csimpl.
  rewrite lookup_app_r by lia. rewrite Nat.sub_diag. cbn [lookup list_lookup].
  f_equal.
  replace (pre ++ n :: rest)%list with ((pre ++ [n]) ++ rest)%list
    by (rewrite <- app_assoc; reflexivity).
  replace (S (length pre)) with (length (pre ++ [n])%list)
    by (rewrite length_app; simpl; lia).
  apply IH.
Qed.

Section ModelPick.
Import SingleChat.
Variable getModel : string -> option model.

(** X12.  Picking a model empties the stored conversation and replaces what
    the container shows by the model's greeting (by nothing, when the model
    is not registered); picking the empty entry only unselects the model
    and shows the welcome message, the conversation stays.  Neither touches
    the in-flight flag, the notices or the record of calls. *)
Theorem model_pick_clears_the_conversation modelId s :
  (modelId <> "" ->
     currentModel (handleModelChange getModel modelId s) = Some modelId
     /\ chatHistory (handleModelChange getModel modelId s) = []
     /\ view (messagesContainer (handleModelChange getModel modelId s))
        = match getModel modelId with Some _ => [WelcomeMessage] | None => [] end)
  /\ currentModel (handleModelChange getModel "" s) = None
  /\ chatHistory (handleModelChange getModel "" s) = chatHistory s
  /\ view (messagesContainer (handleModelChange getModel "" s)) = [WelcomeMessage]
  /\ isProcessing (handleModelChange getModel modelId s) = isProcessing s
  /\ notices (handleModelChange getModel modelId s) = notices s
  /\ calls (handleModelChange getModel modelId s) = calls s.
Proof.
  split; [|split; [|split; [|split; [|split; [|split]]]]]; try reflexivity.
  - intros Hne. apply String.eqb_neq in Hne.
    unfold handleModelChange, no_model. rewrite Hne.
    unfold showModelSelectedMessage. destruct (getModel modelId).
    + repeat split; apply (view_set_innerHTML [WelcomeMessage]).
    + repeat split; apply (view_set_innerHTML []).
  - apply (view_set_innerHTML [WelcomeMessage]).
  - unfold handleModelChange, showModelSelectedMessage.
    destruct (no_model (Some modelId)); [reflexivity|]. destruct (getModel modelId); reflexivity.
  - unfold handleModelChange, showModelSelectedMessage.
    destruct (no_model (Some modelId)); [reflexivity|]. destruct (getModel modelId); reflexivity.
  - unfold handleModelChange, showModelSelectedMessage.
    destruct (no_model (Some modelId)); [reflexivity|]. destruct (getModel modelId); reflexivity.
Qed.

End ModelPick.

(** ** A model picked while a send is in flight *)

Lemma bind_applied {W A B} (m : M W A) (f : A -> M W B) w : bind m f w = bind_res (m w) f.
Proof. reflexivity. Qed.

Lemma try_catch_applied {W A} (m : M W A) (h : error -> M W A) w :
  try_catch m h w = catch_res (m w) h.
Proof. reflexivity. Qed.

Lemma try_finally_applied {W A} (m : M W A) (fin : W -> W) w :
  try_finally m fin w = finally_res (m w) fin.
Proof. reflexivity. Qed.

Section LateReply.
Import SingleChat.
Variable getModel : string -> option model.

Lemma picked newId s :
  String.eqb newId "" = false ->
  chatHistory (handleModelChange getModel newId s) = []
  /\ currentModel (handleModelChange getModel newId s) = Some newId
  /\ calls (handleModelChange getModel newId s) = calls s.
Proof.
  intros H. unfold handleModelChange, no_model, showModelSelectedMessage. rewrite H.
  destruct (getModel newId); auto.
Qed.

(** X13.  Picking another model while a send waits for its streaming call
    does not cancel the send.  When that call then gives nothing to iterate
    and a direct call resolves with text, the send goes on in the session
    of the new model: it returns normally, and the conversation, emptied by
    the pick, holds the assistant's reply as its only turn, without the
    user's message that asked for it. *)
Theorem reply_lands_in_the_new_conversation g message s m newId v text :
  sendable message s ->
  current_model getModel s = Some m ->
  newId <> "" ->
  not_streamed g m (chatHistory s) message ->
  answered g m (chatHistory s) message v ->
  extractContentFromResponse v = Ok (VStr text) ->
  exists s',
    run (resumed_after (handleModelChange getModel newId)
           (sendMessage getModel g message s)) = (s', Some (Ok tt))
    /\ chatHistory s' = [assistant_turn (VStr text)]
    /\ currentModel s' = Some newId
    /\ isProcessing s' = false.
Proof.
  intros (Hsel & Hmsg & Hidle) Hm Hnew Hns Hans Hx.
  pose proof (blank_nonempty _ Hmsg) as Hne.
  apply String.eqb_neq in Hnew.
  unfold sendMessage.
  rewrite bind_applied. cbn [gets bind_res]. rewrite Hsel, Hmsg.
  rewrite bind_applied. cbn [gets bind_res]. rewrite Hidle.
  rewrite bind_applied. cbn [modify bind_res].
  rewrite try_finally_applied, try_catch_applied.
  rewrite bind_applied, remove_first_eq. cbn [bind_res].
  rewrite bind_applied, displayUserMessage_eq by exact Hne. cbn [bind_res].
  rewrite bind_applied. cbn [modify bind_res].
  rewrite bind_applied. unfold showTypingIndicator at 1. cbn [appendChild fst snd bind_res].
  rewrite bind_applied. cbn [gets bind_res].
  unfold current_model in *. single_simpl. rewrite Hm.
  rewrite bind_applied. cbn [gets bind_res]. single_simpl.
  rewrite bind_applied, try_catch_applied, bind_applied.
  unfold chat_streaming at 1. rewrite bind_applied. cbn [modify bind_res].
  unfold not_streamed, answered, outgoing, last_resort, user_turn, assistant_turn in *.
  destruct Hns as [(eA & logged & HA & Hlog) | [vA HA]]; rewrite HA;
    cbn [await bind_res catch_res finally_res resumed_after asyncIterable ret];
    [rewrite Hlog, bind_applied; cbn [lift_result bind_res ret]|];
    rewrite run_finally_res, run_catch_res;
    match goal with
    | |- context [run (bind ?p ?f ?w)] => change (run (bind p f w)) with (exec (bind p f) w)
    end;
    match goal with
    | |- context [handleModelChange getModel newId ?x] =>
        destruct (picked newId x Hnew) as (Hh & Hc & _);
        generalize dependent (handleModelChange getModel newId x); intros picked_in Hh Hc
    end;
    destruct Hans as [HB | (eB & HB & HC)]; single_exec;
    (eexists; split; [reflexivity|]); single_simpl;
    rewrite Hh, Hc; auto.
Qed.

End LateReply.

(** ** The properties above on the scenes *)

Lemma grid_is_inert modelId : inert_panel modelId Fixtures.grid.
Proof.
  intros c Hc. unfold Fixtures.grid in Hc. simpl in Hc.
  repeat (apply lookup_insert_Some in Hc as [[_ <-] | [_ Hc]];
          [repeat constructor|]).
  rewrite lookup_empty in Hc. discriminate.
Qed.

Lemma ready_is_inert : inert_window (SingleChat.messagesContainer Scenes.ready).
Proof. repeat constructor. Qed.

Lemma unlisted_is_inert : inert_window (SingleChat.messagesContainer Scenes.unlisted).
Proof. repeat constructor. Qed.

Lemma down_rejects_readably : rejects_readably Fixtures.down.
Proof. intros req p e H. injection H as <-. apply readable_Error. Qed.

Lemma stream_failure_stays_in_the_message_witness :
  Fixtures.registry "gpt-4o" = Some Fixtures.gpt4o
  /\ exists w',
       exec (Chat.sendMessageToModel Fixtures.registry Scenes.broken_stream "hi" [] "gpt-4o")
         Fixtures.grid = (w', Some (Ok tt))
       /\ UI.calls w'
          = [Chat.call_of "gpt-4o" Fixtures.gpt4o (Chat.turns_of Fixtures.gpt4o "hi") true]
       /\ UI.chatWindows w' !! "claude" = UI.chatWindows Fixtures.grid !! "claude".
Proof.
  split; [reflexivity|].
  destruct (stream_failure_stays_in_the_message Fixtures.registry Scenes.broken_stream
              "hi" "gpt-4o" Fixtures.gpt4o Fixtures.grid
              {| parts := [Fixtures.text_part "Hel"]; ending := StreamThrows "connection lost" |}
              "connection lost" eq_refl eq_refl eq_refl
              (ex_intro _ "Error: connection lost" eq_refl))
    as (w' & text & E & Hc & _ & Ho & _).
  exists w'. split; [exact E|]. split; [exact Hc|]. apply Ho. discriminate.
Defined.

Lemma attachments_are_answered_with_a_notice_witness :
  Fixtures.registry "gpt-4o" = Some Fixtures.gpt4o
  /\ [VStr "cat.png"] <> []
  /\ inert_panel "gpt-4o" Fixtures.grid
  /\ Chat.sendMessageToModel Fixtures.registry Fixtures.down "hi" [VStr "cat.png"] "gpt-4o"
       Fixtures.grid
     = Done (UI.on_window "gpt-4o"
               (UI.show_message (VStr Chat.image_notice) ∘ UI.remove_typing ∘ UI.show_typing)
               Fixtures.grid)
            (Ok tt).
Proof.
  split; [reflexivity|]. split; [discriminate|]. split; [apply grid_is_inert|].
  apply (attachments_are_answered_with_a_notice Fixtures.registry Fixtures.down "hi"
           [VStr "cat.png"] "gpt-4o" Fixtures.gpt4o Fixtures.grid);
    [reflexivity | discriminate | apply grid_is_inert].
Defined.

Lemma focused_send_never_rejects_witness :
  rejects_readably Fixtures.down
  /\ never_rejects (SingleChat.sendMessage Fixtures.registry Fixtures.down "hi" Scenes.ready).
Proof.
  split; [apply down_rejects_readably|].
  apply (focused_send_never_rejects Fixtures.registry Fixtures.down "hi" Scenes.ready).
  apply down_rejects_readably.
Defined.

Lemma send_to_unregistered_model_witness :
  sendable "hi" Scenes.unlisted
  /\ SingleChat.current_model Fixtures.registry Scenes.unlisted = None
  /\ plain "hi" = true
  /\ inert_window (SingleChat.messagesContainer Scenes.unlisted)
  /\ exists s',
       SingleChat.sendMessage Fixtures.registry Fixtures.down "hi" Scenes.unlisted
       = Done s' (Ok tt)
       /\ SingleChat.chatHistory s' = [user_turn "hi"]
       /\ SingleChat.calls s' = []
       /\ SingleChat.isProcessing s' = false.
Proof.
  split; [repeat split|]. split; [reflexivity|]. split; [reflexivity|].
  split; [apply unlisted_is_inert|].
  destruct (send_to_unregistered_model Fixtures.registry Fixtures.down "hi" Scenes.unlisted)
    as (s' & E & Hh & Hc & Hp & _);
    [repeat split | reflexivity | reflexivity | apply unlisted_is_inert |].
  exists s'. split; [exact E|]. split; [exact Hh|]. split; [exact Hc | exact Hp].
Defined.

Lemma focused_stream_failure_witness :
  sendable "hi" Scenes.ready
  /\ SingleChat.current_model Fixtures.registry Scenes.ready = Some Fixtures.gpt4o
  /\ readable (Error "connection lost")
  /\ inert_window (SingleChat.messagesContainer Scenes.ready)
  /\ exists s' text,
       exec (SingleChat.sendMessage Fixtures.registry Scenes.broken_stream "hi") Scenes.ready
       = (s', Some (Ok tt))
       /\ text = "Error: connection lost"
       /\ SingleChat.chatHistory s' = [user_turn "hi"]
       /\ SingleChat.isProcessing s' = false.
Proof.
  split; [repeat split|]. split; [reflexivity|].
  split; [eexists; reflexivity|]. split; [apply ready_is_inert|].
  destruct (focused_stream_failure Fixtures.registry Scenes.broken_stream "hi" Scenes.ready
              Fixtures.gpt4o
              {| parts := [Fixtures.text_part "Hel"]; ending := StreamThrows "connection lost" |}
              "connection lost")
    as (s' & text & E & Hh & _ & Hp & _ & _ & Herr & _);
    [repeat split | reflexivity | reflexivity | reflexivity
     | eexists; reflexivity | apply ready_is_inert |].
  exists s', text. split; [exact E|]. split; [|split; [exact Hh | exact Hp]].
  assert (H : error_text (Error "connection lost") = Ok text).
  { apply Herr. repeat constructor. intros _. eexists. reflexivity. }
  injection H as <-. reflexivity.
Defined.

Lemma focused_send_transmits_the_conversation_witness :
  sendable "and you?" Scenes.after_one_exchange
  /\ SingleChat.current_model Fixtures.registry Scenes.after_one_exchange = Some Fixtures.gpt4o
  /\ SingleChat.chatHistory Scenes.after_one_exchange
     = [user_turn "hi"; assistant_turn (VStr "hello")]
  /\ length (outgoing Fixtures.gpt4o (SingleChat.chatHistory Scenes.after_one_exchange)
               "and you?") = 4.
Proof.
  split; [repeat split|]. split; [reflexivity|]. split; [reflexivity|].
  destruct (focused_send_transmits_the_conversation Fixtures.registry Fixtures.down "and you?"
              Scenes.after_one_exchange Fixtures.gpt4o) as (_ & Hl & _);
    [repeat split | reflexivity |].
  exact Hl.
Defined.


Lemma focused_failure_is_shown_not_recorded_witness :
  sendable "hi" Scenes.ready
  /\ SingleChat.current_model Fixtures.registry Scenes.ready = Some Fixtures.gpt4o
  /\ exists s' d,
       exec (SingleChat.sendMessage Fixtures.registry Fixtures.down "hi") Scenes.ready
       = (s', Some (Ok tt))
       /\ SingleChat.chatHistory s' = [user_turn "hi"]
       /\ heap (SingleChat.messagesContainer s') !! d
          = Some (AssistantMessage (Formatted (VStr "Error: service unavailable"))).
Proof.
  split; [repeat split|]. split; [reflexivity|].
  destruct (focused_failure_is_shown_not_recorded Fixtures.registry Fixtures.down "hi"
              Scenes.ready Fixtures.gpt4o "service unavailable" "Error: service unavailable")
    as (s' & d & E & Hh & _ & _ & _ & Hd).
  - repeat split.
  - reflexivity.
  - reflexivity.
  - apply ready_is_inert.
  - reflexivity.
  - left. eexists. eexists. split; reflexivity.
  - left. eexists. split; reflexivity.
  - exists s', d. split; [exact E|]. split; [exact Hh | exact Hd].
Defined.

Lemma reply_lands_in_the_new_conversation_witness :
  sendable "hi" Scenes.ready
  /\ SingleChat.current_model Fixtures.registry Scenes.ready = Some Fixtures.gpt4o
  /\ exists s',
       run (resumed_after (SingleChat.handleModelChange Fixtures.registry "claude")
              (SingleChat.sendMessage Fixtures.registry (Fixtures.direct_only "hello") "hi"
                 Scenes.ready))
       = (s', Some (Ok tt))
       /\ SingleChat.chatHistory s' = [assistant_turn (VStr "hello")]
       /\ SingleChat.currentModel s' = Some "claude".
Proof.
  split; [repeat split|]. split; [reflexivity|].
  destruct (reply_lands_in_the_new_conversation Fixtures.registry (Fixtures.direct_only "hello")
              "hi" Scenes.ready Fixtures.gpt4o "claude" (VStr "hello") "hello")
    as (s' & E & Hh & Hc & _).
  - repeat split.
  - reflexivity.
  - discriminate.
  - left. eexists. eexists. split; reflexivity.
  - left. reflexivity.
  - reflexivity.
  - exists s'. split; [exact E|]. split; [exact Hh | exact Hc].
Defined.

(** ** Calls that cannot be told apart *)

Section Matching.
Context {W : Type} (E : W -> W -> Prop).

Lemma matching_bind_res {A B} (r1 r2 : res W A) (f : A -> M W B) :
  matching E r1 r2 -> (forall a, determined_by E (f a)) ->
  matching E (bind_res r1 f) (bind_res r2 f).
Proof.
  intros Hr Hf. revert r2 Hr.
  induction r1 as [w1 [a|e] | w1 k1 IH | w1]; intros [w2 x2 | w2 k2 | w2]; simpl;
    try contradiction.
  - intros [HE <-]. apply Hf. exact HE.
  - intros [HE <-]. simpl. auto.
  - intros [HE Hk]. split; [exact HE|]. intros w1' w2' HE'. apply IH, Hk, HE'.
  - auto.
Qed.

Lemma matching_catch_res {A} (r1 r2 : res W A) (h : error -> M W A) :
  matching E r1 r2 -> (forall e, determined_by E (h e)) ->
  matching E (catch_res r1 h) (catch_res r2 h).
Proof.
  intros Hr Hh. revert r2 Hr.
  induction r1 as [w1 [a|e] | w1 k1 IH | w1]; intros [w2 x2 | w2 k2 | w2]; simpl;
    try contradiction.
  - intros [HE <-]. simpl. auto.
  - intros [HE <-]. apply Hh. exact HE.
  - intros [HE Hk]. split; [exact HE|]. intros w1' w2' HE'. apply IH, Hk, HE'.
  - auto.
Qed.

Lemma matching_later {A} (r1 r2 : res W A) :
  matching E r1 r2 -> matching E (later r1) (later r2).
Proof.
  revert r2.
  induction r1 as [w1 x1 | w1 k1 IH | w1]; intros [w2 x2 | w2 k2 | w2]; simpl;
    try contradiction.
  - intros [HE <-]. split; [exact HE|]. intros w1' w2' HE'. simpl. auto.
  - intros [HE Hk]. split; [exact HE|]. intros w1' w2' HE'. apply IH, Hk, HE'.
  - auto.
Qed.

Lemma determined_ret {A} (a : A) : determined_by E (ret a).
Proof. intros w1 w2 HE. simpl. auto. Qed.

Lemma determined_raise {A} e : determined_by E (raise (A := A) e).
Proof. intros w1 w2 HE. simpl. auto. Qed.

Lemma determined_lift_result {A} (r : result A) : determined_by E (lift_result r).
Proof. intros w1 w2 HE. simpl. auto. Qed.

Lemma determined_modify (f : W -> W) :
  (forall w1 w2, E w1 w2 -> E (f w1) (f w2)) -> determined_by E (modify f).
Proof. intros H w1 w2 HE. simpl. auto. Qed.

Lemma determined_await {A} (p : settle A) : determined_by E (await p).
Proof. intros w1 w2 HE. destruct p; simpl; auto. Qed.

Lemma determined_bind {A B} (m : M W A) (f : A -> M W B) :
  determined_by E m -> (forall a, determined_by E (f a)) -> determined_by E (bind m f).
Proof. intros Hm Hf w1 w2 HE. apply matching_bind_res; auto. Qed.

Lemma determined_try_catch {A} (m : M W A) (h : error -> M W A) :
  determined_by E m -> (forall e, determined_by E (h e)) -> determined_by E (try_catch m h).
Proof. intros Hm Hh w1 w2 HE. apply matching_catch_res; auto. Qed.

Lemma determined_await_call {A} (m : M W A) :
  determined_by E m -> determined_by E (await_call m).
Proof. intros Hm w1 w2 HE. apply matching_later; auto. Qed.

Lemma determined_for_await ps e (body : string -> value -> M W string) :
  (forall fullContent part, determined_by E (body fullContent part)) ->
  forall fullContent, determined_by E (for_await ps e body fullContent).
Proof.
  intros Hbody. induction ps as [|part rest IH]; intros fullContent; simpl.
  - destruct e.
    + apply determined_bind; [apply determined_await | intros; apply determined_ret].
    + apply determined_await.
    + apply determined_await.
  - apply determined_bind; [apply determined_await|]. intros _.
    apply determined_bind; [apply Hbody|]. intros fullContent'. apply IH.
Qed.

(** Calls that match stand alike, and go on alike when resumed. *)
Lemma matching_follows {A} (R : W -> W -> Prop) (r1 r2 : res W A) w :
  matching E r1 r2 -> segments R w r2 ->
  follows E R r1 (task_of r2) /\ E (world_of r1) (world_of r2).
Proof.
  destruct r1 as [w1 x1 | w1 k1 | w1], r2 as [w2 x2 | w2 k2 | w2]; simpl;
    try contradiction.
  - intros [HE <-] _. auto.
  - intros [HE Hk] [_ Hs]. auto.
  - auto.
Qed.

Lemma matching_resumptions {A} (r1 r2 : res W A) :
  matching E r1 r2 -> resumptions r1 = resumptions r2.
Proof.
  revert r2.
  induction r1 as [w1 x1 | w1 k1 IH | w1]; intros [w2 x2 | w2 k2 | w2]; simpl;
    try contradiction; auto.
  intros [HE Hk]. f_equal. apply IH, Hk, HE.
Qed.

End Matching.

Section Solo.
Context {W A : Type}.

Lemma run_resume (r : res W A) : run (resume r) = run r.
Proof. destruct r; reflexivity. Qed.

Lemma run_ahead n (r : res W A) : run (ahead n r) = run r.
Proof.
  induction n as [|n IH]; [reflexivity|].
  unfold ahead in *. simpl. rewrite run_resume. exact IH.
Qed.

Lemma resumptions_ahead n (r : res W A) :
  resumptions (ahead n r) = resumptions r - n.
Proof.
  induction n as [|n IH]; [simpl; lia|].
  unfold ahead in *. simpl.
  destruct (Nat.iter n resume r) as [w x | w k | w]; simpl in *; lia.
Qed.

Lemma segments_world (R : W -> W -> Prop) w0 (r : res W A) :
  segments R w0 r -> R w0 (world_of r).
Proof. destruct r; simpl; tauto. Qed.

End Solo.

(** ** Calls started together *)

#[global] Instance other_views_preorder {W V I : Type} (view : I -> W -> V) i :
  PreOrder (other_views view i).
Proof.
  split.
  - intros w j Hj. reflexivity.
  - intros a b c Hab Hbc j Hj. rewrite (Hbc j Hj). apply Hab, Hj.
Qed.

Section Pool.
Context {W V I A : Type} (view : I -> W -> V) (prog : I -> M W A).

Hypothesis reads : forall i, determined_by (same_view view i) (prog i).
Hypothesis writes : forall i, steady (other_views view i) (prog i).

Lemma start_all_confined w0 : forall ids ws w1 ts1,
  NoDup ids ->
  (forall i, i ∈ ids -> same_view view i w0 ws) ->
  start_all (prog <$> ids) ws = (w1, ts1) ->
  length ts1 = length ids
  /\ (forall j, j ∉ ids -> view j w1 = view j ws)
  /\ (forall n i t, ids !! n = Some i -> ts1 !! n = Some t ->
        follows (same_view view i) (other_views view i) (prog i w0) t
        /\ same_view view i (world_of (prog i w0)) w1).
Proof.
  induction ids as [|i rest IH]; intros ws w1 ts1 Hnd Hsame Hstart.
  - simpl in Hstart. injection Hstart as <- <-.
    split; [reflexivity|]. split; [reflexivity|].
    intros n i t Hn. rewrite lookup_nil in Hn. discriminate.
  - rewrite fmap_cons in Hstart. cbn [start_all] in Hstart.
    destruct (start_all (prog <$> rest) (world_of (prog i ws))) as [w' ts'] eqn:Hrest.
    injection Hstart as <- <-.
    apply NoDup_cons in Hnd as [Hi Hnd].
    pose proof (segments_world _ _ _ (writes i ws)) as Hfirst.
    destruct (IH (world_of (prog i ws)) w' ts' Hnd) as (Hlen & Hout & Hin); [|exact Hrest|].
    { intros j Hj. unfold same_view. rewrite (Hsame j) by (right; exact Hj).
      symmetry. apply Hfirst. intros ->. contradiction. }
    split; [simpl; congruence|]. split.
    + intros j Hj. apply not_elem_of_cons in Hj as [Hne Hj].
      rewrite (Hout j Hj). apply Hfirst, Hne.
    + intros [|n] j t Hn Ht; simpl in Hn, Ht.
      * injection Hn as <-. injection Ht as <-.
        destruct (matching_follows (same_view view i) (other_views view i) (prog i w0) (prog i ws) ws)
          as [Hf Hw]; [apply reads, Hsame; left | apply writes |].
        split; [exact Hf|]. unfold same_view in *. rewrite Hw. symmetry. apply Hout, Hi.
      * apply (Hin n j t Hn Ht).
Qed.

Lemma sum_list_insert (ks : list nat) n k k' :
  ks !! n = Some k -> sum_list (<[n := k']> ks) + k = sum_list ks + k'.
Proof.
  revert n. induction ks as [|x ks IH]; intros [|n] H; simpl in *; try discriminate.
  - injection H as ->. lia.
  - specialize (IH n H). lia.
Qed.

Lemma step_confined ids w0 w ks ts w' ts' :
  NoDup ids ->
  pool_inv view prog ids w0 w ks ts ->
  step (w, ts) (w', ts') ->
  exists ks', pool_inv view prog ids w0 w' ks' ts' /\ sum_list ks' = S (sum_list ks).
Proof.
  intros Hnd (Hlk & Hlt & Hin & Hout) Hstep.
  inversion Hstep as [w_ ts_ n k2 Hn]; subst.
  assert (Hlt' : n < length ids) by (rewrite <- Hlt; eapply lookup_lt_Some; eauto).
  destruct (lookup_lt_is_Some_2 ids n Hlt') as [i Hi].
  destruct (lookup_lt_is_Some_2 ks n) as [k Hk]; [lia|].
  destruct (Hin n i k _ Hi Hk Hn) as (Hf & Hw & Hle).
  destruct (ahead k (prog i w0)) as [w1 x1 | w1 k1 | w1] eqn:Hr; simpl in Hf;
    try contradiction.
  destruct Hf as [Hmatch Hseg]. simpl in Hw.
  assert (Hnext : ahead (S k) (prog i w0) = k1 w1).
  { unfold ahead in *. simpl. rewrite Hr. reflexivity. }
  destruct (matching_follows (same_view view i) (other_views view i) (k1 w1) (k2 w) w)
    as [Hf' Hw']; [apply Hmatch, Hw | apply Hseg |].
  pose proof (segments_world _ _ _ (Hseg w)) as Hmove.
  exists (<[n := S k]> ks). split.
  - split; [rewrite length_insert; exact Hlk|].
    split; [rewrite length_insert; exact Hlt|]. split.
    + intros n' i' k' t' Hi' Hk' Ht'.
      destruct (decide (n' = n)) as [->|Hne].
      * assert (i' = i) as -> by congruence.
        rewrite list_lookup_insert_eq in Hk' by lia.
        rewrite list_lookup_insert_eq in Ht' by lia.
        injection Hk' as <-. injection Ht' as <-.
        rewrite Hnext. split; [exact Hf'|]. split; [exact Hw'|].
        pose proof (resumptions_ahead k (prog i w0)) as Hres.
        rewrite Hr in Hres. simpl in Hres. lia.
      * rewrite list_lookup_insert_ne in Hk' by congruence.
        rewrite list_lookup_insert_ne in Ht' by congruence.
        destruct (Hin n' i' k' t' Hi' Hk' Ht') as (Hf0 & Hw0 & Hle0).
        split; [exact Hf0|]. split; [|exact Hle0].
        unfold same_view in *. rewrite Hw0. symmetry. apply Hmove.
        intros ->. apply Hne. eapply NoDup_lookup; eauto.
    + intros j Hj. rewrite <- (Hout j Hj). apply Hmove.
      intros ->. apply Hj. eapply list_elem_of_lookup_2; eauto.
  - pose proof (sum_list_insert ks n k (S k) Hk). lia.
Qed.

Lemma steps_confined ids w0 n (st st' : W * list (task W A)) :
  NoDup ids ->
  nsteps step n st st' ->
  forall ks,
    pool_inv view prog ids w0 (fst st) ks (snd st) ->
    exists ks', pool_inv view prog ids w0 (fst st') ks' (snd st')
                /\ sum_list ks' = n + sum_list ks.
Proof.
  intros Hnd Hsteps.
  induction Hsteps as [st | n st st1 st2 Hstep Hsteps IH]; intros ks Hinv.
  - exists ks. auto.
  - destruct st as [w1 ts1], st1 as [w2 ts2].
    destruct (step_confined ids w0 w1 ks ts1 w2 ts2 Hnd Hinv Hstep) as (ks' & Hinv' & Hsum').
    destruct (IH ks' Hinv') as (ks'' & Hinv'' & Hsum'').
    exists ks''. split; [exact Hinv''|]. lia.
Qed.

Lemma pool_confined ids w0 n w ts :
  NoDup ids ->
  nsteps step n (start_all (prog <$> ids) w0) (w, ts) ->
  exists ks, pool_inv view prog ids w0 w ks ts /\ sum_list ks = n.
Proof.
  intros Hnd Hsteps.
  destruct (start_all (prog <$> ids) w0) as [w1 ts1] eqn:Hstart.
  destruct (start_all_confined w0 ids w0 w1 ts1 Hnd) as (Hlen & Hout & Hin);
    [intros; reflexivity | exact Hstart |].
  assert (Hinv : pool_inv view prog ids w0 w1 (replicate (length ids) 0) ts1).
  { split; [apply length_replicate|]. split; [exact Hlen|]. split; [|exact Hout].
    intros p i k t Hi Hk Ht. apply lookup_replicate in Hk as [-> _].
    destruct (Hin p i t Hi Ht). split; [assumption|]. split; [assumption|lia]. }
  assert (Hsum : sum_list (replicate (length ids) 0) = 0).
  { clear. induction (length ids); simpl; auto. }
  destruct (steps_confined ids w0 n _ _ Hnd Hsteps _ Hinv) as (ks & Hinv' & Hsum').
  exists ks. split; [exact Hinv'|]. lia.
Qed.

End Pool.

Lemma pool_settled {W V I A : Type} (view : I -> W -> V) (prog : I -> M W A)
    ids w0 w ks ts n i x :
  pool_inv view prog ids w0 w ks ts ->
  ids !! n = Some i -> ts !! n = Some (Settled x) ->
  snd (exec (prog i) w0) = Some x /\ view i w = view i (fst (exec (prog i) w0)).
Proof.
  intros (Hlk & Hlt & Hin & _) Hi Ht.
  destruct (lookup_lt_is_Some_2 ks n) as [k Hk];
    [rewrite Hlk; eapply lookup_lt_Some; eauto|].
  destruct (Hin n i k _ Hi Hk Ht) as (Hf & Hw & _).
  unfold exec. rewrite <- (run_ahead k).
  destruct (ahead k (prog i w0)) as [w1 x1 | w1 k1 | w1]; simpl in *; try contradiction.
  subst. auto.
Qed.

Lemma pool_stuck {W V I A : Type} (view : I -> W -> V) (prog : I -> M W A)
    ids w0 w ks ts n i :
  pool_inv view prog ids w0 w ks ts ->
  ids !! n = Some i -> ts !! n = Some Stuck ->
  snd (exec (prog i) w0) = None /\ view i w = view i (fst (exec (prog i) w0)).
Proof.
  intros (Hlk & Hlt & Hin & _) Hi Ht.
  destruct (lookup_lt_is_Some_2 ks n) as [k Hk];
    [rewrite Hlk; eapply lookup_lt_Some; eauto|].
  destruct (Hin n i k _ Hi Hk Ht) as (Hf & Hw & _).
  unfold exec. rewrite <- (run_ahead k).
  destruct (ahead k (prog i w0)) as [w1 x1 | w1 k1 | w1]; simpl in *; try contradiction.
  auto.
Qed.

Lemma pool_waiting {W V I A : Type} (view : I -> W -> V) (prog : I -> M W A)
    ids w0 w ks ts n i k2 :
  pool_inv view prog ids w0 w ks ts ->
  ids !! n = Some i -> ts !! n = Some (Waiting k2) ->
  exists k, ks !! n = Some k /\ k < resumptions (prog i w0)
            /\ view i w = view i (world_of (ahead k (prog i w0))).
Proof.
  intros (Hlk & Hlt & Hin & _) Hi Ht.
  destruct (lookup_lt_is_Some_2 ks n) as [k Hk];
    [rewrite Hlk; eapply lookup_lt_Some; eauto|].
  destruct (Hin n i k _ Hi Hk Ht) as (Hf & Hw & _).
  exists k. split; [exact Hk|]. split; [|symmetry; exact Hw].
  pose proof (resumptions_ahead k (prog i w0)) as Hres.
  destruct (ahead k (prog i w0)) as [w1 x1 | w1 k1 | w1]; simpl in *; try contradiction.
  lia.
Qed.

Lemma pool_not_waiting {W V I A : Type} (view : I -> W -> V) (prog : I -> M W A)
    ids w0 w ks ts n i k t :
  pool_inv view prog ids w0 w ks ts ->
  ids !! n = Some i -> ks !! n = Some k -> ts !! n = Some t ->
  is_waiting t = false <-> k = resumptions (prog i w0).
Proof.
  intros (Hlk & Hlt & Hin & _) Hi Hk Ht.
  destruct (Hin n i k _ Hi Hk Ht) as (Hf & _ & Hle).
  pose proof (resumptions_ahead k (prog i w0)) as Hres.
  destruct (ahead k (prog i w0)) as [w1 x1 | w1 k1 | w1], t as [y | k2 |];
    simpl in *; try contradiction; split; intros; try discriminate; lia.
Qed.

Lemma sum_list_bound {I : Type} (f : I -> nat) (ids : list I) : forall ks,
  length ks = length ids ->
  (forall n i k, ids !! n = Some i -> ks !! n = Some k -> k <= f i) ->
  sum_list ks <= sum_list (f <$> ids)
  /\ (sum_list ks = sum_list (f <$> ids) <->
      forall n i k, ids !! n = Some i -> ks !! n = Some k -> k = f i).
Proof.
  induction ids as [|i rest IH]; intros [|k ks] Hlen Hle; csimpl in *; try discriminate.
  - split; [lia|]. split; [|reflexivity]. intros _ n i k H. rewrite lookup_nil in H.
    discriminate.
  - destruct (IH ks) as [Hb Heq]; [lia | intros n j x; apply (Hle (S n) j x) |].
    pose proof (Hle 0 i k eq_refl eq_refl) as H0.
    split; [lia|]. split.
    + intros Hs [|n] j x Hj Hx; csimpl in *.
      * injection Hj as <-. injection Hx as <-. lia.
      * apply (proj1 Heq ltac:(lia) n j x Hj Hx).
    + intros Hall. rewrite (Hall 0 i k eq_refl eq_refl).
      f_equal. apply Heq. intros n j x. apply (Hall (S n) j x).
Qed.

(** ** The dispatches of the grid, started together *)

Section GridPanels.
Import UI Chat.

Lemma same_panel_window modelId w1 w2 :
  same_view panel modelId w1 w2 -> chatWindows w1 !! modelId = chatWindows w2 !! modelId.
Proof. intros H. injection H as H _. exact H. Qed.

Lemma same_panel_on_window modelId f w1 w2 :
  same_view panel modelId w1 w2 ->
  same_view panel modelId (on_window modelId f w1) (on_window modelId f w2).
Proof.
  unfold same_view, panel. intros H. injection H as H1 H2.
  cbn [chatWindows calls on_window]. rewrite !lookup_alter_eq, H1, H2. reflexivity.
Qed.

Lemma same_panel_log modelId c w1 w2 :
  same_view panel modelId w1 w2 ->
  same_view panel modelId (log_call modelId c w1) (log_call modelId c w2).
Proof.
  unfold same_view, panel. intros H. injection H as H1 H2.
  cbn [chatWindows calls log_call]. rewrite !omap_app, H1, H2. reflexivity.
Qed.

Lemma other_panels_on_window modelId f w :
  other_views panel modelId w (on_window modelId f w).
Proof.
  intros other Ho. unfold panel. cbn [chatWindows calls on_window].
  rewrite lookup_alter_ne by congruence. reflexivity.
Qed.

Lemma other_panels_log modelId c w :
  other_views panel modelId w (log_call modelId c w).
Proof.
  intros other Ho. unfold panel. cbn [chatWindows calls log_call].
  rewrite omap_app. simpl.
  destruct (String.eqb_spec modelId other) as [->|_]; [contradiction|].
  rewrite app_nil_r. reflexivity.
Qed.

Lemma determined_showTypingIndicator modelId :
  determined_by (same_view panel modelId) (showTypingIndicator modelId).
Proof.
  intros w1 w2 H. rewrite !showTypingIndicator_eq. simpl.
  rewrite (same_panel_window _ _ _ H). split; [apply same_panel_on_window, H | reflexivity].
Qed.

Lemma determined_removeTypingIndicator modelId :
  determined_by (same_view panel modelId) (removeTypingIndicator modelId).
Proof.
  intros w1 w2 H. rewrite !removeTypingIndicator_eq. simpl.
  split; [apply same_panel_on_window, H | reflexivity].
Qed.

Lemma determined_displayAssistantMessage modelId content :
  determined_by (same_view panel modelId) (displayAssistantMessage modelId content).
Proof.
  intros w1 w2 H. rewrite !displayAssistantMessage_eq. simpl.
  rewrite (same_panel_window _ _ _ H). split; [apply same_panel_on_window, H | reflexivity].
Qed.

Lemma determined_set_message modelId messageDiv x :
  determined_by (same_view panel modelId) (set_message modelId messageDiv x).
Proof.
  intros w1 w2 H. destruct messageDiv as [e|].
  - rewrite !set_message_eq. simpl. split; [apply same_panel_on_window, H | reflexivity].
  - rewrite !set_message_null. simpl. auto.
Qed.

Lemma steady_showTypingIndicator modelId :
  steady (other_views panel modelId) (showTypingIndicator modelId).
Proof. intros w. rewrite showTypingIndicator_eq. apply other_panels_on_window. Qed.

Lemma steady_removeTypingIndicator modelId :
  steady (other_views panel modelId) (removeTypingIndicator modelId).
Proof. intros w. rewrite removeTypingIndicator_eq. apply other_panels_on_window. Qed.

Lemma steady_displayAssistantMessage modelId content :
  steady (other_views panel modelId) (displayAssistantMessage modelId content).
Proof. intros w. rewrite displayAssistantMessage_eq. apply other_panels_on_window. Qed.

Lemma steady_set_message modelId messageDiv x :
  steady (other_views panel modelId) (set_message modelId messageDiv x).
Proof.
  intros w. destruct messageDiv as [e|].
  - rewrite set_message_eq. apply other_panels_on_window.
  - rewrite set_message_null. simpl. reflexivity.
Qed.

End GridPanels.

Ltac determined_step :=
  match goal with
  | |- determined_by _ (bind _ _) => apply determined_bind; [|intros ?]
  | |- determined_by _ (try_catch _ _) => apply determined_try_catch; [|intros ?]
  | |- determined_by _ (await_call _) => apply determined_await_call
  | |- determined_by _ (ret _) => apply determined_ret
  | |- determined_by _ (raise _) => apply determined_raise
  | |- determined_by _ (lift_result _) => apply determined_lift_result
  | |- determined_by _ (await _) => apply determined_await
  | |- determined_by _ (modify _) => apply determined_modify
  | |- determined_by _ (for_await _ _ _ _) => apply determined_for_await; intros ? ?
  | |- determined_by _ (UI.showTypingIndicator _) => apply determined_showTypingIndicator
  | |- determined_by _ (UI.removeTypingIndicator _) => apply determined_removeTypingIndicator
  | |- determined_by _ (UI.displayAssistantMessage _ _) =>
      apply determined_displayAssistantMessage
  | |- determined_by _ (UI.set_message _ _ _) => apply determined_set_message
  | |- determined_by _ (UI.scrollToBottom _) => apply determined_ret
  | |- determined_by _ (if ?b then _ else _) => destruct b
  | |- determined_by _ (match ?x with _ => _ end) => destruct x
  end.

Ltac confined_step :=
  match goal with
  | |- steady _ (UI.showTypingIndicator _) => apply steady_showTypingIndicator
  | |- steady _ (UI.removeTypingIndicator _) => apply steady_removeTypingIndicator
  | |- steady _ (UI.displayAssistantMessage _ _) => apply steady_displayAssistantMessage
  | |- steady _ (UI.set_message _ _ _) => apply steady_set_message
  | |- steady _ (UI.scrollToBottom _) => apply steady_ret; try (typeclasses eauto)
  | _ => steady_step
  end.

Section GridFanOut.
Import UI Chat.
Variable getModel : string -> option model.

Lemma determined_sendMessageToModel g message images modelId :
  determined_by (same_view panel modelId)
    (sendMessageToModel getModel g message images modelId).
Proof.
  unfold sendMessageToModel, chat_streaming, chat_blocking, displayResponseForModel,
    handleStreamingResponseForModel, consume_part.
  repeat determined_step.
  all: intros w1 w2 H; apply same_panel_log, H.
Qed.

Lemma confined_sendMessageToModel g message images modelId :
  steady (other_views panel modelId)
    (sendMessageToModel getModel g message images modelId).
Proof.
  unfold sendMessageToModel, chat_streaming, chat_blocking, displayResponseForModel,
    handleStreamingResponseForModel, consume_part.
  repeat confined_step.
  all: intros w; apply other_panels_log.
Qed.

Lemma forallb_lookup {T : Type} (P : T -> bool) (l : list T) :
  forallb P l = true <-> forall p t, l !! p = Some t -> P t = true.
Proof.
  induction l as [|x l IH]; simpl.
  - split; [|reflexivity]. intros _ p t H. rewrite lookup_nil in H. discriminate.
  - rewrite andb_true_iff, IH. split.
    + intros [Hx Hl] [|p] t H; simpl in H; [congruence | eauto].
    + intros H. split; [apply (H 0 x eq_refl) | intros p t Ht; apply (H (S p) t Ht)].
Qed.

(** X14.  The dispatches of a send to several different models, started one
    after the other and then resumed in any order, any number of turns
    [n]: each of them goes through the same steps, and makes of the window
    of its model and of the calls for its model the same, as when it is run
    on its own from the world the send started in.  A dispatch that has
    settled has settled as it does on its own (by returning normally, when
    what its gateway rejects direct calls with has a message the handler
    can read), and its window
    then is the one its own run ends with; a dispatch that waits for a
    promise that never settles does so on its own too; a dispatch that is
    parked has a window its own run goes through.  Windows of models that
    were not targeted are left as they were.  The count of turns taken is at
    most the sum of the resumptions each dispatch takes on its own, and is
    that sum exactly when no dispatch is left to resume; the coordinator has
    then settled, by fulfilment, if and only if every dispatch has
    settled. *)
Theorem dispatches_do_not_interfere G message images modelIds w0 n w promises :
  NoDup modelIds ->
  nsteps step n (start_dispatches getModel G message images modelIds w0) (w, promises) ->
  length promises = length modelIds
  /\ (forall p modelId x,
        modelIds !! p = Some modelId -> promises !! p = Some (Settled x) ->
        snd (exec (sendMessageToModel getModel (G modelId) message images modelId) w0)
        = Some x
        /\ (rejects_readably (G modelId) -> x = Ok tt)
        /\ panel modelId w
           = panel modelId
               (fst (exec (sendMessageToModel getModel (G modelId) message images modelId) w0)))
  /\ (forall p modelId,
        modelIds !! p = Some modelId -> promises !! p = Some Stuck ->
        snd (exec (sendMessageToModel getModel (G modelId) message images modelId) w0) = None
        /\ panel modelId w
           = panel modelId
               (fst (exec (sendMessageToModel getModel (G modelId) message images modelId) w0)))
  /\ (forall p modelId k,
        modelIds !! p = Some modelId -> promises !! p = Some (Waiting k) ->
        exists j,
          j < resumptions (sendMessageToModel getModel (G modelId) message images modelId w0)
          /\ panel modelId w
             = panel modelId
                 (world_of (ahead j (sendMessageToModel getModel (G modelId) message images
                                       modelId w0))))
  /\ (forall other, other ∉ modelIds -> panel other w = panel other w0)
  /\ n <= sum_list ((fun modelId =>
                       resumptions (sendMessageToModel getModel (G modelId) message images
                                      modelId w0)) <$> modelIds)
  /\ (n = sum_list ((fun modelId =>
                       resumptions (sendMessageToModel getModel (G modelId) message images
                                      modelId w0)) <$> modelIds)
      <-> forallb (fun t => negb (is_waiting t)) promises = true)
  /\ (sendMessageToAllModels_outcome promises = Some (Ok tt)
      <-> forallb is_settled promises = true).
Proof.
  intros Hnd Hsteps.
  set (prog := fun modelId => sendMessageToModel getModel (G modelId) message images modelId).
  assert (Hstart : start_dispatches getModel G message images modelIds w0
                   = start_all (prog <$> modelIds) w0).
  { reflexivity. }
  rewrite Hstart in Hsteps.
  destruct (pool_confined panel prog
              (fun i => determined_sendMessageToModel (G i) message images i)
              (fun i => confined_sendMessageToModel (G i) message images i)
              modelIds w0 n w promises Hnd Hsteps) as (ks & Hinv & Hsum).
  pose proof Hinv as (Hlk & Hlt & Hin & Hout).
  destruct (sum_list_bound (fun i => resumptions (prog i w0)) modelIds ks Hlk) as [Hb Heq].
  { intros p i k Hi Hk.
    destruct (lookup_lt_is_Some_2 promises p) as [t Ht];
      [rewrite Hlt; eapply lookup_lt_Some; eauto|].
    apply (Hin p i k t Hi Hk Ht). }
  split; [exact Hlt|]. split; [|split; [|split; [|split; [|split; [|split]]]]].
  - intros p modelId x Hi Ht.
    destruct (pool_settled panel prog _ _ _ _ _ _ _ _ Hinv Hi Ht) as [Hx Hw].
    split; [exact Hx|]. split; [|exact Hw].
    intros Hg. destruct x as [[]|e]; [reflexivity|]. exfalso.
    eapply (never_rejects_run (prog modelId w0) e); [|exact Hx].
    apply never_rejects_sendMessageToModel, Hg.
  - intros p modelId Hi Ht. apply (pool_stuck panel prog _ _ _ _ _ _ _ Hinv Hi Ht).
  - intros p modelId k Hi Ht.
    destruct (pool_waiting panel prog _ _ _ _ _ _ _ _ Hinv Hi Ht) as (j & _ & Hj & Hw).
    exists j. auto.
  - exact Hout.
  - subst n. exact Hb.
  - subst n. rewrite forallb_lookup. split.
    + intros Hs p t Ht. pose proof (proj1 Heq Hs) as Hall.
      destruct (lookup_lt_is_Some_2 modelIds p) as [i Hi];
        [rewrite <- Hlt; eapply lookup_lt_Some; eauto|].
      destruct (lookup_lt_is_Some_2 ks p) as [k Hk];
        [rewrite Hlk; eapply lookup_lt_Some; eauto|].
      apply negb_true_iff.
      apply (pool_not_waiting panel prog _ _ _ _ _ _ _ _ _ Hinv Hi Hk Ht).
      apply (Hall p i k Hi Hk).
    + intros Hall. apply (proj2 Heq). intros p i k Hi Hk.
      destruct (lookup_lt_is_Some_2 promises p) as [t Ht];
        [rewrite Hlt; eapply lookup_lt_Some; eauto|].
      apply (pool_not_waiting panel prog _ _ _ _ _ _ _ _ _ Hinv Hi Hk Ht).
      apply negb_true_iff. apply (Hall p t Ht).
  - unfold sendMessageToAllModels_outcome, allSettled.
    destruct (forallb is_settled promises); split; intros; congruence.
Qed.

End GridFanOut.

Lemma dispatches_do_not_interfere_witness :
  NoDup ["gpt-4o"; "claude"]
  /\ exists w promises,
       nsteps step 7
         (Chat.start_dispatches Fixtures.registry one_down "hi" [] ["gpt-4o"; "claude"]
            Fixtures.grid)
         (w, promises)
       /\ promises = [Settled (Ok tt); Settled (Ok tt)]
       /\ panel "gpt-4o" w
          = panel "gpt-4o"
              (fst (exec (Chat.sendMessageToModel Fixtures.registry
                            (Fixtures.direct_only "hello") "hi" [] "gpt-4o") Fixtures.grid))
       /\ panel "gemini" w = panel "gemini" Fixtures.grid.
Proof.
  assert (Hnd : NoDup ["gpt-4o"; "claude"]).
  { apply NoDup_cons. split; [|apply NoDup_singleton].
    intros H. apply list_elem_of_singleton in H. discriminate. }
  split; [exact Hnd|].
  eassert (Hsteps : nsteps step 7
                      (Chat.start_dispatches Fixtures.registry one_down "hi" []
                         ["gpt-4o"; "claude"] Fixtures.grid) (_, _)).
  { eapply nsteps_l; [eapply (step_resume _ _ 1); reflexivity|].
    eapply nsteps_l; [eapply (step_resume _ _ 0); reflexivity|].
    eapply nsteps_l; [eapply (step_resume _ _ 1); reflexivity|].
    eapply nsteps_l; [eapply (step_resume _ _ 0); reflexivity|].
    eapply nsteps_l; [eapply (step_resume _ _ 1); reflexivity|].
    eapply nsteps_l; [eapply (step_resume _ _ 0); reflexivity|].
    eapply nsteps_l; [eapply (step_resume _ _ 1); reflexivity|].
    apply nsteps_O. }
  destruct (dispatches_do_not_interfere Fixtures.registry one_down "hi" []
              ["gpt-4o"; "claude"] Fixtures.grid 7 _ _ Hnd Hsteps)
    as (_ & Hdone & _ & _ & Hout & _).
  eexists. eexists. split; [exact Hsteps|]. split; [reflexivity|]. split.
  - apply (Hdone 0 "gpt-4o" (Ok tt) eq_refl eq_refl).
  - apply Hout. intros H. apply elem_of_cons in H as [H|H]; [discriminate|].
    apply list_elem_of_singleton in H. discriminate.
Defined.

(** ** What a settled dispatch leaves in its window *)

Section GridWindow.
Import UI Chat.

Lemma exec_consume_part_at modelId d fullContent part w :
  exec (consume_part modelId (Some d) fullContent part) w =
  if truthy (opt part "text") then
    match to_string (opt part "text") with
    | Ok s =>
        (on_window modelId (set_content d (Formatted (VStr (fullContent ++ s)))) w,
         Some (Ok (fullContent ++ s)))
    | Throw err => (w, Some (Throw err))
    end
  else (w, Some (Ok fullContent)).
Proof.
  unfold consume_part.
  destruct (truthy (opt part "text")) eqn:Ht; [|reflexivity].
  rewrite exec_bind, exec_lift_result, dot_guarded by eauto with guards.
  rewrite exec_bind, exec_lift_result.
  destruct (to_string (opt part "text")) as [s|err]; [|reflexivity]. simpl.
  rewrite exec_bind, exec_set_message. reflexivity.
Qed.

(** The text of a stream that ends is what its message holds at the end. *)
Lemma exec_consume_loop_text modelId d ps e : forall fullContent w text,
  stream_text ps e fullContent = Some (Ok text) ->
  exists F,
    exec (for_await ps e (consume_part modelId (Some d)) fullContent) w
    = (on_window modelId F w, Some (Ok text))
    /\ (((forall c, F c = c) /\ text = fullContent)
        \/ (forall c, F c = set_content d (Formatted (VStr text)) c)).
Proof.
  induction ps as [|part rest IH]; intros fullContent w text Htext.
  - simpl in Htext. destruct e; try discriminate. injection Htext as <-.
    exists (fun c => c). split; [|left; auto].
    rewrite on_window_id by reflexivity. reflexivity.
  - simpl for_await. rewrite exec_bind, exec_await, exec_bind, exec_consume_part_at.
    simpl in Htext.
    destruct (truthy (opt part "text")) eqn:Ht.
    + destruct (to_string (opt part "text")) as [s|err]; [|discriminate].
      destruct (IH (fullContent ++ s) (on_window modelId
                      (set_content d (Formatted (VStr (fullContent ++ s)))) w) text Htext)
        as (F & -> & HF).
      rewrite on_window_compose.
      eexists. split; [reflexivity|]. right. intros c. simpl.
      destruct HF as [[HF ->] | HF]; rewrite HF; [reflexivity|]. apply set_content_twice.
    + destruct (IH fullContent w text Htext) as (F & -> & HF).
      exists F. split; [reflexivity | exact HF].
Qed.

Lemma view_append_set (n x : node) (h : list node) (l : list nat) :
  Forall (fun i => i < length h) l ->
  omap (fun i => (<[length h := x]> (h ++ [n])%list) !! i) (l ++ [length h])%list
  = (omap (fun i => h !! i) l ++ [x])%list.
Proof.
  intros Hl. rewrite insert_app_r_alt by lia. rewrite Nat.sub_diag. simpl.
  rewrite omap_app. simpl. rewrite lookup_app_r by lia. rewrite Nat.sub_diag. simpl.
  f_equal. apply (view_extend {| heap := h; children := [] |} [x] l Hl).
Qed.

Lemma view_of_set_last v x c :
  well_formed c ->
  querySelector typing_indicator c = None ->
  view (set_content (last_created (show_message v (remove_typing (show_typing c)))) x
          (show_message v (remove_typing (show_typing c))))
  = (view (remove_placeholder c) ++ [AssistantMessage x])%list.
Proof.
  intros Hwf Hno.
  rewrite last_created_show_message.
  rewrite remove_typing_show_typing by assumption.
  unfold show_message, append_message.
  rewrite (set_content_assistant _ _ (Formatted v)) by apply appendChild_lookup.
  unfold remove_placeholder, querySelector. simpl.
  rewrite querySelector_extend by exact Hwf.
  assert (Hup : forall l, Forall (fun i => i < length (heap c)) l ->
                          Forall (fun i => i < length (heap c ++ [TypingIndicator])%list) l).
  { intros l Hl. eapply Forall_impl; [exact Hl|]. simpl. intros i Hi.
    rewrite length_app. simpl. lia. }
  destruct (List.find _ (children c)) as [e|]; unfold view; simpl.
  - rewrite view_append_set by (apply Hup, (well_formed_remove e c Hwf)).
    f_equal. apply view_extend. apply (well_formed_remove e c Hwf).
  - rewrite view_append_set by (apply Hup, Hwf).
    f_equal. apply view_extend. exact Hwf.
Qed.

Lemma set_content_same e x c :
  heap c !! e = Some (AssistantMessage x) -> set_content e x c = c.
Proof.
  intros H. rewrite (set_content_assistant _ _ x) by exact H.
  rewrite list_insert_id by exact H. destruct c; reflexivity.
Qed.

Lemma exec_handleStreamingResponseForModel_text (response : stream) (modelId : string)
    (w : world) c text :
  chatWindows w !! modelId = Some c ->
  stream_text (parts response) (ending response) "" = Some (Ok text) ->
  exec (handleStreamingResponseForModel response modelId) w
  = (on_window modelId
       (fun c => set_content (last_created c) (Formatted (VStr text)) c)
       (on_window modelId (show_message (VStr "") ∘ remove_typing) w),
     Some (Ok tt)).
Proof.
  intros Hc Htext. unfold handleStreamingResponseForModel.
  rewrite exec_bind, exec_removeTypingIndicator.
  rewrite exec_bind, exec_displayAssistantMessage.
  rewrite on_window_compose, on_window_lookup, Hc. simpl fmap.
  rewrite exec_try_catch, exec_bind.
  destruct (exec_consume_loop_text modelId
              (length (heap (remove_placeholder (remove_typing c))))
              (parts response) (ending response) ""
              (on_window modelId (show_message (VStr "") ∘ remove_typing) w) text Htext)
    as (F & -> & HF).
  rewrite exec_ret. f_equal. rewrite !on_window_compose.
  apply on_window_ext. intros c0 Hc0. rewrite Hc in Hc0. injection Hc0 as <-. simpl.
  rewrite last_created_show_message.
  destruct HF as [[HF ->] | HF]; rewrite HF; [|reflexivity].
  symmetry. apply set_content_same. apply appendChild_lookup.
Qed.

End GridWindow.

Section GridShown.
Import UI Chat.
Variable getModel : string -> option model.

(** X15.  When a streaming call of a dispatch (the first, or the second
    after the first rejected) gives a stream and the stream ends, the
    dispatch makes no direct call and returns normally; its window shows
    what it showed before, less the placeholder, and under it one message
    that holds the whole text of the stream: the texts of the parts, in
    order.  No typing indicator is left and no other window changes.
    (Of a window none of whose messages holds markup.) *)
Theorem streamed_text_is_shown g message modelId m w r text c :
  getModel modelId = Some m ->
  chat_stream g (turns_of m message) (parameters m) = Resolves (Iterable r)
  \/ (exists eA,
        chat_stream g (turns_of m message) (parameters m) = Rejects eA
        /\ chat_stream g (flat_of m message) (parameters m) = Resolves (Iterable r)) ->
  stream_text (parts r) (ending r) "" = Some (Ok text) ->
  chatWindows w !! modelId = Some c ->
  well_formed c ->
  inert_window c ->
  querySelector typing_indicator c = None ->
  exists w' c' made,
    exec (sendMessageToModel getModel g message [] modelId) w = (w', Some (Ok tt))
    /\ chatWindows w' !! modelId = Some c'
    /\ view c'
       = (view (remove_placeholder c) ++ [AssistantMessage (Formatted (VStr text))])%list
    /\ calls w' = (calls w ++ made)%list
    /\ Forall (fun made_call => call_stream (snd made_call) = true) made
    /\ (forall other, other <> modelId -> chatWindows w' !! other = chatWindows w !! other).
Proof.
  intros Hm Hstream Htext Hc Hwf _ Hno.
  destruct Hstream as [HA | (eA & HA & HA')]; grid_exec.
  all: match goal with
       | |- context [exec (handleStreamingResponseForModel ?s ?i) ?w0] =>
           rewrite (exec_handleStreamingResponseForModel_text s i w0 (show_typing c) text)
             by (first [exact Htext
                       | cbn [chatWindows on_window log_call];
                         rewrite lookup_alter_eq, Hc; reflexivity])
       end.
  all: grid_exec; eexists; eexists; eexists; split; [reflexivity|].
  all: cbn [chatWindows calls on_window log_call].
  all: rewrite !lookup_alter_eq, Hc; split; [reflexivity|].
  all: split; [apply view_of_set_last; assumption|].
  all: rewrite <- ?app_assoc; split; [reflexivity|].
  all: split; [repeat constructor|].
  all: intros other Ho; rewrite !lookup_alter_ne by congruence; reflexivity.
Qed.

End GridShown.

(** What the loop throws has a message the handler can read, when what the
    stream throws has. *)
Lemma stream_text_thrown ps en : forall fullContent err,
  stream_text ps en fullContent = Some (Throw err) ->
  (forall e, en = StreamThrows e -> readable e) ->
  readable err.
Proof.
  induction ps as [|part rest IH]; intros fullContent err H Hen; simpl in H.
  - destruct en; try discriminate. injection H as <-. apply Hen. reflexivity.
  - destruct (truthy (opt part "text")).
    + destruct (to_string (opt part "text")) as [s|t] eqn:Es.
      * eapply IH; eauto.
      * injection H as <-. apply to_string_throws in Es as ->. apply readable_Error.
    + eapply IH; eauto.
Qed.

Ltac readable_origin :=
  first
    [ apply readable_Error
    | eapply extract_throws_readable; eassumption
    | eapply formatContent_throws; eassumption
    | match goal with
      | H : message_of _ = Throw ?t |- readable ?t =>
          destruct (message_of_throws _ _ H) as [? ->]; apply readable_Error
      end
    | match goal with Hg : rejects_readably _ |- _ => eapply Hg; eassumption end
    | match goal with
      | Hs : streams_throw_readably _ |- _ =>
          eapply stream_text_thrown; [eassumption | intros; eapply Hs; eassumption]
      end ].

Ltac no_unreadable :=
  match goal with
  | E : error_text ?e = Throw _ |- _ =>
      exfalso;
      let Hr := fresh "Hr" in
      assert (readable e) as [? Hr] by readable_origin;
      rewrite Hr in E; discriminate E
  end.

Ltac grid_cases_at :=
  repeat (grid_exec;
    match goal with
    | |- context [match chat_stream ?g ?r ?p with _ => _ end] =>
        let E := fresh "E" in destruct (chat_stream g r p) as [[?|?]|?|] eqn:E
    | |- context [match chat_direct ?g ?r ?p with _ => _ end] =>
        let E := fresh "E" in destruct (chat_direct g r p) as [?|?|] eqn:E
    | |- context [match extractContentFromResponse ?v with _ => _ end] =>
        let E := fresh "E" in destruct (extractContentFromResponse v) as [?|?] eqn:E
    | |- context [exec (Chat.handleStreamingResponseForModel ?s ?m) ?w] =>
        let F := fresh "F" in
        let HF := fresh "HF" in
        let T := fresh "T" in
        destruct (exec_handleStreamingResponseForModel s m w) as (F & HF & ->);
        destruct (stream_text (parts s) (ending s) "") as [[?|?]|] eqn:T
    | |- context [match error_text ?e with _ => _ end] =>
        let E := fresh "E" in
        destruct (error_text e) as [?|?] eqn:E; [|no_unreadable]
    end);
  try grid_exec.

Lemma remove_typing_twice c :
  well_formed c ->
  querySelector typing_indicator c = None ->
  UI.remove_typing (UI.remove_typing (UI.show_typing c)) = UI.remove_typing (UI.show_typing c).
Proof.
  intros Hwf Hno. rewrite remove_typing_show_typing by assumption.
  unfold UI.remove_typing, querySelector. simpl.
  rewrite querySelector_extend by exact Hwf.
  unfold querySelector in Hno. rewrite Hno. reflexivity.
Qed.

Ltac one_message :=
  lazymatch goal with
  | |- view (UI.show_message _ (UI.remove_typing (UI.show_typing _))) = _ =>
      apply view_message_after_typing; assumption
  | |- view (set_content (last_created ?c1) _ ?c1) = _ =>
      apply view_of_set_last; assumption
  end.

Section GridSettled.
Import UI Chat.
Variable getModel : string -> option model.

(** X16.  Whatever the gateway does, so long as what it rejects direct
    calls with and what its streams throw have a message the handlers can
    read, a dispatch that settles has returned normally and has put exactly
    one message into the window of its model: the window (none of whose
    messages held markup) shows what it showed when the dispatch started,
    less the placeholder, and under it that one message (the answer, the
    notice about attachments, the text streamed so far, or the error); the
    typing indicator of the dispatch is gone. *)
Theorem settled_dispatch_adds_one_message g message images modelId w w' x c :
  rejects_readably g ->
  streams_throw_readably g ->
  exec (sendMessageToModel getModel g message images modelId) w = (w', Some x) ->
  chatWindows w !! modelId = Some c ->
  well_formed c ->
  inert_window c ->
  querySelector typing_indicator c = None ->
  x = Ok tt
  /\ exists c' shown,
       chatWindows w' !! modelId = Some c'
       /\ view c' = (view (remove_placeholder c) ++ [AssistantMessage shown])%list.
Proof.
  intros Hg Hs Hexec Hc Hwf _ Hno. revert Hexec.
  destruct (getModel modelId) as [m|] eqn:Hm.
  2:{ grid_exec. intros H. injection H as <- <-. split; [reflexivity|].
      cbn [chatWindows on_window log_call]. rewrite !lookup_alter_eq, Hc.
      cbn [fmap option_fmap option_map]. unfold compose.
      eexists _, _. split; [reflexivity|]. one_message. }
  destruct images as [|image images].
  2:{ rewrite (exec_with_attachments getModel g message _ modelId m w Hm) by discriminate.
      intros H. injection H as <- <-. split; [reflexivity|].
      cbn [chatWindows on_window log_call]. rewrite !lookup_alter_eq, Hc.
      cbn [fmap option_fmap option_map]. unfold compose.
      eexists _, _. split; [reflexivity|]. one_message. }
  grid_cases_at.
  all: intros H; first [discriminate H | injection H as <- <-; split; [reflexivity|]].
  all: cbn [chatWindows on_window log_call]; rewrite !lookup_alter_eq, Hc.
  all: cbn [fmap option_fmap option_map]; unfold compose.
  all: rewrite ?remove_typing_twice by assumption.
  all: try (eexists _, _; split; [reflexivity|]; one_message).
  all: cbn [chatWindows on_window log_call] in HF; rewrite !lookup_alter_eq, Hc in HF.
  all: cbn [fmap option_fmap option_map] in HF.
  all: destruct HF as [HF | (d & shown & Hd & HF)]; rewrite HF.
  all: try (eexists _, _; split; [reflexivity|]; one_message).
  all: injection Hd as <-.
  all: eexists _, _; split; [reflexivity|].
  all: match goal with
       | |- context [set_content (length (heap (remove_placeholder ?x))) _ _] =>
           change (length (heap (remove_placeholder x)))
             with (snd (append_message (VStr "") x))
       end.
  all: rewrite <- last_created_show_message; one_message.
Qed.

End GridSettled.

Lemma streamed_text_is_shown_witness :
  Fixtures.registry "gpt-4o" = Some Fixtures.gpt4o
  /\ stream_text [Fixtures.text_part "Hel"; Fixtures.text_part "lo"] StreamDone ""
     = Some (Ok "Hello")
  /\ exists w' c',
       exec (Chat.sendMessageToModel Fixtures.registry
               (Fixtures.streaming [Fixtures.text_part "Hel"; Fixtures.text_part "lo"]
                  StreamDone) "hi" [] "gpt-4o") Fixtures.grid
       = (w', Some (Ok tt))
       /\ UI.chatWindows w' !! "gpt-4o" = Some c'
       /\ view c' = [AssistantMessage (Formatted (VStr "Hello"))].
Proof.
  split; [reflexivity|]. split; [reflexivity|].
  destruct (streamed_text_is_shown Fixtures.registry
              (Fixtures.streaming [Fixtures.text_part "Hel"; Fixtures.text_part "lo"]
                 StreamDone)
              "hi" "gpt-4o" Fixtures.gpt4o Fixtures.grid
              {| parts := [Fixtures.text_part "Hel"; Fixtures.text_part "lo"];
                 ending := StreamDone |}
              "Hello" Fixtures.fresh_window)
    as (w' & c' & made & E & Hc & Hv & _).
  - reflexivity.
  - left. reflexivity.
  - reflexivity.
  - reflexivity.
  - repeat constructor.
  - repeat constructor.
  - reflexivity.
  - exists w', c'. split; [exact E|]. split; [exact Hc | exact Hv].
Defined.

Lemma settled_dispatch_adds_one_message_witness :
  rejects_readably Fixtures.down
  /\ streams_throw_readably Fixtures.down
  /\ inert_window Fixtures.fresh_window
  /\ exists c' shown,
    UI.chatWindows
      (fst (exec (Chat.sendMessageToModel Fixtures.registry Fixtures.down "hi" [] "claude")
              Fixtures.grid)) !! "claude" = Some c'
    /\ view c' = [AssistantMessage shown].
Proof.
  destruct (settled_dispatch_adds_one_message Fixtures.registry Fixtures.down "hi" []
              "claude" Fixtures.grid
              (fst (exec (Chat.sendMessageToModel Fixtures.registry Fixtures.down "hi" []
                            "claude") Fixtures.grid))
              (Ok tt) Fixtures.fresh_window)
    as (_ & c' & shown & Hc & Hv).
  - apply down_rejects_readably.
  - intros req p r e H. discriminate H.
  - reflexivity.
  - reflexivity.
  - repeat constructor.
  - repeat constructor.
  - reflexivity.
  - split; [apply down_rejects_readably|].
    split; [intros req p r e H; discriminate H|].
    split; [repeat constructor|].
    exists c', shown. split; [exact Hc | exact Hv].
Defined.

Section GridJoin.
Import UI Chat.
Variable getModel : string -> option model.

(** X17.  The coordinator of a send to several different models waits for
    every dispatch.  If one of the dispatches, run on its own, waits for a
    promise that never settles, then whatever the order of resumptions and
    however long it goes on, the coordinator has not settled: nothing in it
    times out.  If every dispatch run on its own settles, then once the
    turns taken add up to the resumptions the dispatches take on their own,
    the coordinator has settled, by fulfilment. *)
Theorem send_settles_when_every_dispatch_does G message images modelIds w0 n w promises :
  NoDup modelIds ->
  nsteps step n (start_dispatches getModel G message images modelIds w0) (w, promises) ->
  ((exists p modelId,
      modelIds !! p = Some modelId
      /\ snd (exec (sendMessageToModel getModel (G modelId) message images modelId) w0) = None)
   -> sendMessageToAllModels_outcome promises = None)
  /\ ((forall p modelId,
         modelIds !! p = Some modelId ->
         snd (exec (sendMessageToModel getModel (G modelId) message images modelId) w0)
         <> None) ->
      n = sum_list ((fun modelId =>
                       resumptions (sendMessageToModel getModel (G modelId) message images
                                      modelId w0)) <$> modelIds) ->
      sendMessageToAllModels_outcome promises = Some (Ok tt)).
Proof.
  intros Hnd Hsteps.
  set (prog := fun modelId => sendMessageToModel getModel (G modelId) message images modelId).
  change (start_dispatches getModel G message images modelIds w0)
    with (start_all (prog <$> modelIds) w0) in Hsteps.
  destruct (pool_confined panel prog
              (fun i => determined_sendMessageToModel getModel (G i) message images i)
              (fun i => confined_sendMessageToModel getModel (G i) message images i)
              modelIds w0 n w promises Hnd Hsteps) as (ks & Hinv & Hsum).
  pose proof Hinv as (Hlk & Hlt & Hin & Hout).
  unfold sendMessageToAllModels_outcome, allSettled. split.
  - intros (p & modelId & Hi & Hhang).
    destruct (lookup_lt_is_Some_2 promises p) as [t Ht];
      [rewrite Hlt; eapply lookup_lt_Some; eauto|].
    destruct (forallb is_settled promises) eqn:Hall; [|reflexivity].
    rewrite forallb_lookup in Hall. specialize (Hall p t Ht).
    destruct t as [x | k |]; try discriminate.
    destruct (pool_settled panel prog _ _ _ _ _ _ _ _ Hinv Hi Ht) as [Hx _].
    fold prog in Hhang. unfold prog in *. congruence.
  - intros Hlive Hn.
    destruct (sum_list_bound (fun i => resumptions (prog i w0)) modelIds ks Hlk) as [_ Heq].
    { intros p i k Hi Hk.
      destruct (lookup_lt_is_Some_2 promises p) as [t Ht];
        [rewrite Hlt; eapply lookup_lt_Some; eauto|].
      apply (Hin p i k t Hi Hk Ht). }
    assert (Hall : forallb is_settled promises = true).
    { apply forallb_lookup. intros p t Ht.
      destruct (lookup_lt_is_Some_2 modelIds p) as [i Hi];
        [rewrite <- Hlt; eapply lookup_lt_Some; eauto|].
      destruct (lookup_lt_is_Some_2 ks p) as [k Hk];
        [rewrite Hlk; eapply lookup_lt_Some; eauto|].
      assert (Hk' : k = resumptions (prog i w0)).
      { apply (proj1 Heq ltac:(rewrite Hsum; exact Hn) p i k Hi Hk). }
      apply (pool_not_waiting panel prog _ _ _ _ _ _ _ _ _ Hinv Hi Hk Ht) in Hk'.
      destruct t as [x | k2 |]; [reflexivity | discriminate |].
      destruct (pool_stuck panel prog _ _ _ _ _ _ _ Hinv Hi Ht) as [Hx _].
      exfalso. apply (Hlive p i Hi). exact Hx. }
    rewrite Hall. reflexivity.
Qed.

End GridJoin.

Lemma send_settles_when_every_dispatch_does_witness :
  NoDup ["gpt-4o"; "claude"]
  /\ exists w promises,
       nsteps step 7
         (Chat.start_dispatches Fixtures.registry one_down "hi" [] ["gpt-4o"; "claude"]
            Fixtures.grid)
         (w, promises)
       /\ Chat.sendMessageToAllModels_outcome promises = Some (Ok tt).
Proof.
  assert (Hnd : NoDup ["gpt-4o"; "claude"]).
  { apply NoDup_cons. split; [|apply NoDup_singleton].
    intros H. apply list_elem_of_singleton in H. discriminate. }
  split; [exact Hnd|].
  eassert (Hsteps : nsteps step 7
                      (Chat.start_dispatches Fixtures.registry one_down "hi" []
                         ["gpt-4o"; "claude"] Fixtures.grid) (_, _)).
  { eapply nsteps_l; [eapply (step_resume _ _ 0); reflexivity|].
    eapply nsteps_l; [eapply (step_resume _ _ 0); reflexivity|].
    eapply nsteps_l; [eapply (step_resume _ _ 1); reflexivity|].
    eapply nsteps_l; [eapply (step_resume _ _ 1); reflexivity|].
    eapply nsteps_l; [eapply (step_resume _ _ 1); reflexivity|].
    eapply nsteps_l; [eapply (step_resume _ _ 0); reflexivity|].
    eapply nsteps_l; [eapply (step_resume _ _ 1); reflexivity|].
    apply nsteps_O. }
  destruct (send_settles_when_every_dispatch_does Fixtures.registry one_down "hi" []
              ["gpt-4o"; "claude"] Fixtures.grid 7 _ _ Hnd Hsteps) as [_ Hlive].
  eexists. eexists. split; [exact Hsteps|]. apply Hlive.
  - intros [|[|p]] modelId H; simpl in H; try discriminate;
      injection H as <-; discriminate.
  - reflexivity.
Defined.

(** ** What a settled send leaves in the container *)

Ltac single_cases_at :=
  repeat (single_exec;
    match goal with
    | |- context [match chat_stream ?g ?r ?p with _ => _ end] =>
        let E := fresh "E" in destruct (chat_stream g r p) as [[?|?]|?|] eqn:E
    | |- context [match chat_direct ?g ?r ?p with _ => _ end] =>
        let E := fresh "E" in destruct (chat_direct g r p) as [?|?|] eqn:E
    | |- context [match extractContentFromResponse ?v with _ => _ end] =>
        let E := fresh "E" in destruct (extractContentFromResponse v) as [?|?] eqn:E
    | |- context [match SingleChat.formatContent ?v with _ => _ end] =>
        let E := fresh "E" in destruct (SingleChat.formatContent v) as [?|?] eqn:E
    | |- context [match message_of ?e with _ => _ end] =>
        let E := fresh "E" in destruct (message_of e) as [?|?] eqn:E
    | |- context [match error_text ?e with _ => _ end] =>
        let E := fresh "E" in
        let N := fresh "N" in
        destruct (error_text e) as [?|?] eqn:E;
        [pose proof (error_text_shown _ _ E) as N | no_unreadable]
    | |- context [exec (SingleChat.handleStreamingResponse ?x) ?s0] =>
        let F := fresh "F" in
        let HF := fresh "HF" in
        let T := fresh "T" in
        destruct (exec_handleStreamingResponse x s0) as (F & HF & ->);
        destruct (stream_text (parts x) (ending x) "") as [[?|?]|] eqn:T
    end);
  try single_exec.

Lemma find_none_of {A} (f : A -> bool) l :
  (forall a, In a l -> f a = false) -> List.find f l = None.
Proof.
  induction l as [|a l IH]; simpl; intros H; [reflexivity|].
  rewrite (H a) by auto. apply IH. auto.
Qed.

Section Transcript.
Variables (c : container) (x : content).
Hypothesis Hwf : well_formed c.
Hypothesis Hno : querySelector typing_indicator c = None.

Lemma children_below l :
  Forall (fun i => i < length (heap c)) l ->
  forall i, In i l -> i <> length (heap c ++ [UserMessage x])%list.
Proof.
  intros Hl i Hi. rewrite Forall_forall in Hl.
  apply list_elem_of_In, Hl in Hi. rewrite length_app. simpl. lia.
Qed.

Lemma typing_filtered :
  List.filter (fun i => negb (Nat.eqb i (length (heap c ++ [UserMessage x])%list)))
    ((children c ++ [length (heap c)]) ++ [length (heap c ++ [UserMessage x])%list])%list
  = (children c ++ [length (heap c)])%list.
Proof.
  apply filter_drop_last. intros i Hi. apply in_app_or in Hi as [Hi | [<- | []]].
  - apply (children_below (children c) Hwf i Hi).
  - rewrite length_app. simpl. lia.
Qed.

Lemma typing_not_shown :
  List.find (fun i => match ((heap c ++ [UserMessage x]) ++ [TypingIndicator])%list !! i with
                      | Some n => typing_indicator n
                      | None => false
                      end) (children c ++ [length (heap c)])%list = None.
Proof.
  apply find_none_of. intros i Hi. apply in_app_or in Hi as [Hi | [<- | []]].
  - pose proof (well_formed_In _ _ Hwf Hi) as Hlt.
    rewrite <- app_assoc, lookup_app_l by exact Hlt.
    unfold querySelector in Hno.
    pose proof (find_none _ _ Hno i Hi) as H. exact H.
  - rewrite <- app_assoc, lookup_app_r by lia. rewrite Nat.sub_diag. reflexivity.
Qed.

Lemma typing_found :
  List.find (fun i => match ((heap c ++ [UserMessage x]) ++ [TypingIndicator])%list !! i with
                      | Some n => typing_indicator n
                      | None => false
                      end)
    ((children c ++ [length (heap c)]) ++ [length (heap c ++ [UserMessage x])%list])%list
  = Some (length (heap c ++ [UserMessage x])%list).
Proof.
  apply find_app_last; [apply typing_not_shown|].
  rewrite lookup_app_r by lia. rewrite Nat.sub_diag. reflexivity.
Qed.

Lemma view_of_exchange (shown : content) :
  omap (fun i => ((((heap c ++ [UserMessage x]) ++ [TypingIndicator])
                    ++ [AssistantMessage shown])%list) !! i)
    ((children c ++ [length (heap c)])
       ++ [length ((heap c ++ [UserMessage x]) ++ [TypingIndicator])%list])%list
  = (view c ++ [UserMessage x; AssistantMessage shown])%list.
Proof.
  replace (((heap c ++ [UserMessage x]) ++ [TypingIndicator]) ++ [AssistantMessage shown])%list
    with (heap c ++ [UserMessage x; TypingIndicator; AssistantMessage shown])%list
    by (rewrite <- !app_assoc; reflexivity).
  rewrite !omap_app. csimpl.
  rewrite (list_lookup_middle (heap c) _ (UserMessage x) (length (heap c)) eq_refl).
  rewrite lookup_app_r by (rewrite !length_app; simpl; lia).
  rewrite !length_app. simpl.
  replace (length (heap c) + 1 + 1 - length (heap c)) with 2 by lia. simpl.
  rewrite <- app_assoc. simpl. f_equal.
  apply (view_extend c _ (children c) Hwf).
Qed.

End Transcript.

Lemma set_last_content (h : list node) l y x :
  set_content (length h) x {| heap := h ++ [AssistantMessage y]; children := l |}
  = {| heap := h ++ [AssistantMessage x]; children := l |}.
Proof.
  rewrite (set_content_assistant _ _ y)
    by (simpl; apply list_lookup_middle; reflexivity).
  simpl. rewrite insert_app_r_alt by lia. rewrite Nat.sub_diag. reflexivity.
Qed.

Lemma well_formed_remove_matching sel c : well_formed c -> well_formed (remove_matching sel c).
Proof.
  intros H. unfold remove_matching.
  destruct (querySelector sel c); [apply well_formed_remove|]; exact H.
Qed.

Lemma querySelector_remove_matching sel sel' c :
  querySelector sel c = None -> querySelector sel (remove_matching sel' c) = None.
Proof.
  intros H. unfold remove_matching. destruct (querySelector sel' c) as [e|]; [|exact H].
  unfold querySelector, remove in *. simpl. apply find_none_of. intros i Hi.
  apply filter_In in Hi as [Hi _]. apply (find_none _ _ H i Hi).
Qed.

Section FocusedTranscript.
Import SingleChat.
Variable getModel : string -> option model.

(** X18.  Whatever the gateway does, so long as what it rejects direct
    calls with and what its streams throw have a message the handlers can
    read, a send of the focused chat that passed the checks and settles has
    returned normally, and the container (without markup when the send
    started, as the message is) shows what it showed then, less the welcome
    message, and under it the user's message and exactly one message of the
    assistant (the answer, the streamed text, or the error); the typing
    indicator of the send is gone. *)
Theorem settled_send_adds_the_exchange g message s s' x :
  rejects_readably g ->
  streams_throw_readably g ->
  sendable message s ->
  plain message = true ->
  exec (sendMessage getModel g message) s = (s', Some x) ->
  well_formed (messagesContainer s) ->
  inert_window (messagesContainer s) ->
  querySelector typing_indicator (messagesContainer s) = None ->
  x = Ok tt
  /\ exists shown,
       view (messagesContainer s')
       = (view (remove_matching welcome_message (messagesContainer s))
            ++ [UserMessage (Formatted (VStr message)); AssistantMessage shown])%list.
Proof.
  intros Hg Hs (Hsel & Hmsg & Hidle) _ Hexec Hwf _ Hno. revert Hexec.
  pose proof (blank_nonempty _ Hmsg) as Hne.
  pose proof (well_formed_remove_matching welcome_message _ Hwf) as Hwf0.
  pose proof (querySelector_remove_matching typing_indicator welcome_message _ Hno) as Hno0.
  destruct (current_model getModel s) as [m|] eqn:Hm.
  all: single_cases_at.
  all: intros H; first [discriminate H | injection H as <- <-; split; [reflexivity|]].
  all: single_simpl.
  all: set (c0 := remove_matching welcome_message (messagesContainer s)) in *.
  all: unfold remove; cbn [heap children].
  all: rewrite ?(typing_filtered c0 _ Hwf0).
  all: unfold remove_matching, querySelector; cbn [heap children].
  all: rewrite ?(typing_found c0 _ Hwf0 Hno0), ?(typing_not_shown c0 _ Hwf0 Hno0).
  all: unfold remove; cbn [heap children].
  all: rewrite ?(typing_filtered c0 _ Hwf0).
  all: try (cbn [heap] in HF; destruct HF as [HF | (d & shown & Hd & HF)]; rewrite HF;
            [|injection Hd as <-]).
  all: rewrite ?set_last_content.
  all: eexists; unfold view; cbn [heap children]; apply (view_of_exchange c0 _ Hwf0).
Qed.

End FocusedTranscript.

Lemma settled_send_adds_the_exchange_witness :
  rejects_readably Fixtures.down
  /\ streams_throw_readably Fixtures.down
  /\ sendable "hi" Scenes.ready
  /\ plain "hi" = true
  /\ inert_window (SingleChat.messagesContainer Scenes.ready)
  /\ exists shown,
       view (SingleChat.messagesContainer
               (fst (exec (SingleChat.sendMessage Fixtures.registry Fixtures.down "hi")
                       Scenes.ready)))
       = [UserMessage (Formatted (VStr "hi")); AssistantMessage shown].
Proof.
  split; [apply down_rejects_readably|].
  split; [intros req p r e H; discriminate H|].
  split; [repeat split|]. split; [reflexivity|]. split; [apply ready_is_inert|].
  destruct (settled_send_adds_the_exchange Fixtures.registry Fixtures.down "hi" Scenes.ready
              (fst (exec (SingleChat.sendMessage Fixtures.registry Fixtures.down "hi")
                      Scenes.ready))
              (Ok tt)) as (_ & shown & Hv).
  - apply down_rejects_readably.
  - intros req p r e H. discriminate H.
  - repeat split.
  - reflexivity.
  - reflexivity.
  - repeat constructor.
  - apply ready_is_inert.
  - reflexivity.
  - exists shown. exact Hv.
Defined.

(** ** The text of a stream in the focused chat *)

Section FocusedStream.
Import SingleChat.
Variable getModel : string -> option model.





(** X20.  A send with no model selected, or with a message made of white
    space only, does nothing but put a notice on the page, the first for a
    missing model; this holds also while another send is in flight.  The
    conversation, the container, the selected model, the in-flight flag and
    the record of calls stay as they are, and the gateway is not called. *)
Theorem refused_send_only_shows_a_notice g message s :
  no_model (currentModel s) = true \/ blank message = true ->
  sendMessage getModel g message s
  = Done (set_notices
            (notices s ++ [if no_model (currentModel s) then "Please select a model first"
                           else "Please enter a message"]) s)
         (Ok tt).
Proof.
  intros H. unfold sendMessage, bind, gets, showError, modify. cbn [bind_res].
  destruct (no_model (currentModel s)); [reflexivity|].
  destruct H as [H | H]; [discriminate|]. rewrite H. reflexivity.
Qed.

End FocusedStream.


Lemma refused_send_only_shows_a_notice_witness :
  SingleChat.blank "  " = true
  /\ SingleChat.sendMessage Fixtures.registry Fixtures.down "  " Scenes.ready
     = Done (SingleChat.set_notices ["Please enter a message"] Scenes.ready) (Ok tt).
Proof.
  split; [reflexivity|].
  apply (refused_send_only_shows_a_notice Fixtures.registry Fixtures.down "  " Scenes.ready).
  right. reflexivity.
Defined.
